(** * x-safe-post: the safety-evaluation and timing engine of [src/index.ts]

    A shallow embedding of the class [XSafePost] and proofs about its
    deduplication, similarity, quota, quiet-hours, delay and post logic.

    Conventions of the model.
    - A JavaScript string that the code inspects character by character
      (the tweet text, a content hash) is the list of its UTF-16 code
      units, each an [N].  Opaque identifiers and fixed literals are
      Stdlib [string]s.
    - A JavaScript [number] that is always an integer (an epoch instant in
      milliseconds, a counter) is a [Z], and arithmetic on integers is
      exact; a number that may be fractional (a setting, the value of
      [Math.random()], a delay) is a rational [Q].
    - An arithmetic operation of the source on numbers that may be
      fractional rounds its result as IEEE 754 binary64 does: to 53
      significant bits, ties to even ([fl], [fadd], [fsub], [fmul],
      [fdiv]).  Two things are left out.  The exponent is unbounded, so
      that there is neither overflow to an infinity nor underflow; and a
      result is never rounded more coarsely than to an integer, in
      keeping with the integers of the model.  Hence [fl] is the rounding
      of binary64 on every value of magnitude between 2^-1022 and 2^53,
      which covers the instants of the [Date] range (at most 8.64e15
      milliseconds from the epoch) and every delay of less than 285000
      years.  [NaN] and the infinities are
      outside the model, except for the one division whose divisor could
      be zero ([similarity]), which returns an [option]; the quotient of
      two set sizes in [similarity] is the exact rational (see
      [verySimilar]).
    - Local time is what the host makes of an instant: [getHours] reads
      the offset from UTC that is in force at the instant of the clock
      reading, and [setHours] / [setDate] go through the conversions
      [LocalTime] and [UTC] of ECMA-262, which the host provides and
      which follow the rules of its time zone.  Where a statement needs
      the two to agree it says so ([fixedOffset]).
    - Every method reads the clock once: the instants returned by the
      several [Date.now()] / [new Date()] calls inside one method call are
      taken to be equal. *)

From Stdlib Require Import ZArith NArith QArith Qround Qminmax Lia Lqa.
From Stdlib Require Import String Ascii.
From stdpp Require Import base list strings.

Abbreviation jsstring := (list N) (only parsing).

(** ** Strings as UTF-16 code units *)

Module JsString.

Local Open Scope N_scope.

(** A string literal of the ASCII range as code units. *)
Definition lit (s : string) : jsstring :=
  List.map N_of_ascii (list_ascii_of_string s).

(** The class [\s] of a JavaScript regular expression, which is also the
    set of characters removed by [String.prototype.trim]. *)
Definition isSpace (c : N) : bool :=
  ((9 <=? c) && (c <=? 13)) || (c =? 32) || (c =? 160) || (c =? 0x1680)
  || ((0x2000 <=? c) && (c <=? 0x200A)) || (c =? 0x2028) || (c =? 0x2029)
  || (c =? 0x202F) || (c =? 0x205F) || (c =? 0x3000) || (c =? 0xFEFF).

(** The class [\w]: [A-Za-z0-9_]. *)
Definition isWordChar (c : N) : bool :=
  ((65 <=? c) && (c <=? 90)) || ((97 <=? c) && (c <=? 122))
  || ((48 <=? c) && (c <=? 57)) || (c =? 95).

(** [s.replace(/\s+/g, ' ')]: every maximal run of white space becomes
    one space.  [inRun] says that the previous unit was white space. *)
Fixpoint collapseSpaces (inRun : bool) (s : jsstring) : jsstring :=
  match s with
  | [] => []
  | c :: s' =>
      if isSpace c
      then (if inRun then collapseSpaces true s'
            else 32 :: collapseSpaces true s')
      else c :: collapseSpaces false s'
  end.

Fixpoint trimStart (s : jsstring) : jsstring :=
  match s with
  | [] => []
  | c :: s' => if isSpace c then trimStart s' else s
  end.

Definition trimEnd (s : jsstring) : jsstring := rev (trimStart (rev s)).

(** [s.trim()] *)
Definition trim (s : jsstring) : jsstring := trimEnd (trimStart s).

(** [s.split(/\s+/)]: the pieces between maximal runs of white space.  A
    run at the start or at the end of [s] leaves an empty piece there,
    and the empty string splits into one empty piece.  [cur] is the
    piece being read, last unit first. *)
Fixpoint splitSpacesFrom (inRun : bool) (cur : jsstring) (s : jsstring)
  : list jsstring :=
  match s with
  | [] => [rev cur]
  | c :: s' =>
      if isSpace c
      then (if inRun then splitSpacesFrom true [] s'
            else rev cur :: splitSpacesFrom true [] s')
      else splitSpacesFrom false (c :: cur) s'
  end.

Definition splitSpaces (s : jsstring) : list jsstring :=
  splitSpacesFrom false [] s.

(** The words of a text: the pieces of [splitSpaces] that are not empty. *)
Definition nonEmpty (w : jsstring) : bool := negb (bool_decide (w = [])).

Definition words (s : jsstring) : list jsstring :=
  List.filter nonEmpty (splitSpaces s).

(** Pieces joined by single spaces; [spaced] puts the space before each
    piece. *)
Definition spaced (ps : list jsstring) : jsstring :=
  List.flat_map (cons 32) ps.

Definition joinSpaces (ps : list jsstring) : jsstring :=
  match ps with
  | [] => []
  | p :: ps' => p ++ spaced ps'
  end.

(** A piece without white space, and a word: such a piece that is not
    empty. *)
Definition spaceFree (w : jsstring) : Prop :=
  Forall (fun c => isSpace c = false) w.

Definition word (w : jsstring) : Prop := w ≠ [] ∧ spaceFree w.

(** Only the last piece of the list may be empty. *)
Fixpoint innerNonEmpty (ps : list jsstring) : Prop :=
  match ps with
  | [] => True
  | p :: ps' =>
      match ps' with
      | [] => True
      | _ :: _ => p ≠ [] ∧ innerNonEmpty ps'
      end
  end.

(** Canonicalisation of a code unit under the [i] flag (without [u]):
    for the ASCII patterns used here only ASCII letters fold. *)
Definition foldCase (c : N) : N :=
  if (97 <=? c) && (c <=? 122) then c - 32 else c.

Fixpoint startsWithCI (pat s : jsstring) : bool :=
  match pat, s with
  | [], _ => true
  | _ :: _, [] => false
  | p :: pat', c :: s' => (foldCase p =? foldCase c) && startsWithCI pat' s'
  end.

(** [/pat/i.test(s)] for a literal pattern. *)
Fixpoint containsCI (pat s : jsstring) : bool :=
  startsWithCI pat s ||
  match s with
  | [] => false
  | _ :: s' => containsCI pat s'
  end.

(** [(s.match(/Xw+/g) || []).length] for a marker unit [X] that is not a
    word character ([#] or [@]): a match begins at every occurrence of
    the marker that is followed by a word character, and since a match
    never swallows a marker, the matches are exactly those positions. *)
Fixpoint countTagged (mark : N) (s : jsstring) : nat :=
  match s with
  | c :: ((d :: _) as s') =>
      if (c =? mark) && isWordChar d
      then S (countTagged mark s')
      else countTagged mark s'
  | _ => O
  end.

(** The bytes of the UTF-8 encoding that Node uses for a string given to
    [hash.update]: surrogate pairs are combined, a lone surrogate is
    replaced by U+FFFD. *)
Definition utf8OfCodePoint (cp : N) : list N :=
  if cp <? 0x80 then [cp]
  else if cp <? 0x800 then
    [N.lor 0xC0 (N.shiftr cp 6); N.lor 0x80 (N.land cp 0x3F)]
  else if cp <? 0x10000 then
    [N.lor 0xE0 (N.shiftr cp 12);
     N.lor 0x80 (N.land (N.shiftr cp 6) 0x3F);
     N.lor 0x80 (N.land cp 0x3F)]
  else
    [N.lor 0xF0 (N.shiftr cp 18);
     N.lor 0x80 (N.land (N.shiftr cp 12) 0x3F);
     N.lor 0x80 (N.land (N.shiftr cp 6) 0x3F);
     N.lor 0x80 (N.land cp 0x3F)].

Definition isHighSurrogate (c : N) : bool := (0xD800 <=? c) && (c <=? 0xDBFF).
Definition isLowSurrogate (c : N) : bool := (0xDC00 <=? c) && (c <=? 0xDFFF).

Fixpoint utf8 (s : jsstring) : list N :=
  match s with
  | [] => []
  | c :: s' =>
      if isHighSurrogate c then
        match s' with
        | d :: s'' =>
            if isLowSurrogate d
            then utf8OfCodePoint
                   (0x10000 + N.shiftl (c - 0xD800) 10 + (d - 0xDC00))
                 ++ utf8 s''
            else utf8OfCodePoint 0xFFFD ++ utf8 s'
        | [] => utf8OfCodePoint 0xFFFD
        end
      else if isLowSurrogate c then utf8OfCodePoint 0xFFFD ++ utf8 s'
      else utf8OfCodePoint c ++ utf8 s'
  end.

End JsString.

(** ** MD5 ([crypto.createHash('md5')]), RFC 1321 *)

Module Md5.

Local Open Scope N_scope.

Definition mask32 : N := 0xFFFFFFFF.
Definition add32 (a b : N) : N := N.land (a + b) mask32.
Definition not32 (a : N) : N := N.lxor a mask32.
Definition rotl32 (x s : N) : N :=
  N.lor (N.land (N.shiftl x s) mask32) (N.shiftr x (32 - s)).

Definition sines : list N :=
  [ 0xd76aa478; 0xe8c7b756; 0x242070db; 0xc1bdceee;
    0xf57c0faf; 0x4787c62a; 0xa8304613; 0xfd469501;
    0x698098d8; 0x8b44f7af; 0xffff5bb1; 0x895cd7be;
    0x6b901122; 0xfd987193; 0xa679438e; 0x49b40821;
    0xf61e2562; 0xc040b340; 0x265e5a51; 0xe9b6c7aa;
    0xd62f105d; 0x02441453; 0xd8a1e681; 0xe7d3fbc8;
    0x21e1cde6; 0xc33707d6; 0xf4d50d87; 0x455a14ed;
    0xa9e3e905; 0xfcefa3f8; 0x676f02d9; 0x8d2a4c8a;
    0xfffa3942; 0x8771f681; 0x6d9d6122; 0xfde5380c;
    0xa4beea44; 0x4bdecfa9; 0xf6bb4b60; 0xbebfbc70;
    0x289b7ec6; 0xeaa127fa; 0xd4ef3085; 0x04881d05;
    0xd9d4d039; 0xe6db99e5; 0x1fa27cf8; 0xc4ac5665;
    0xf4292244; 0x432aff97; 0xab9423a7; 0xfc93a039;
    0x655b59c3; 0x8f0ccc92; 0xffeff47d; 0x85845dd1;
    0x6fa87e4f; 0xfe2ce6e0; 0xa3014314; 0x4e0811a1;
    0xf7537e82; 0xbd3af235; 0x2ad7d2bb; 0xeb86d391 ].

Definition shifts : list N :=
  [ 7; 12; 17; 22; 7; 12; 17; 22; 7; 12; 17; 22; 7; 12; 17; 22;
    5; 9; 14; 20; 5; 9; 14; 20; 5; 9; 14; 20; 5; 9; 14; 20;
    4; 11; 16; 23; 4; 11; 16; 23; 4; 11; 16; 23; 4; 11; 16; 23;
    6; 10; 15; 21; 6; 10; 15; 21; 6; 10; 15; 21; 6; 10; 15; 21 ].

(** The least significant [n] bytes of [x], lowest first. *)
Fixpoint bytesLE (n : nat) (x : N) : list N :=
  match n with
  | O => []
  | S n' => N.land x 0xFF :: bytesLE n' (N.shiftr x 8)
  end.

Definition wordLE (bs : list N) : N :=
  List.fold_right (fun b acc => b + 256 * acc) 0 bs.

Definition pad (msg : list N) : list N :=
  let len := N.of_nat (length msg) in
  let zeros := N.to_nat ((119 - len mod 64) mod 64) in
  msg ++ [0x80] ++ List.repeat 0 zeros ++ bytesLE 8 (len * 8).

Definition wordsOfBlock (block : list N) : list N :=
  List.map (fun j => wordLE (firstn 4 (skipn (4 * j) block))) (seq 0 16).

Definition step (M : list N) (st : N * N * N * N) (i : nat)
  : N * N * N * N :=
  let '(A, B, C, D) := st in
  let '(F, g) :=
    if (i <? 16)%nat then
      (N.lor (N.land B C) (N.land (not32 B) D), i)
    else if (i <? 32)%nat then
      (N.lor (N.land D B) (N.land (not32 D) C), ((5 * i + 1) mod 16)%nat)
    else if (i <? 48)%nat then
      (N.lxor (N.lxor B C) D, ((3 * i + 5) mod 16)%nat)
    else
      (N.lxor C (N.lor B (not32 D)), ((7 * i) mod 16)%nat) in
  let F' := add32 (add32 (add32 F A) (nth i sines 0)) (nth g M 0) in
  (D, add32 B (rotl32 F' (nth i shifts 0)), B, C).

Definition compress (st : N * N * N * N) (block : list N)
  : N * N * N * N :=
  let '(a0, b0, c0, d0) := st in
  let '(A, B, C, D) :=
    List.fold_left (step (wordsOfBlock block)) (seq 0 64) st in
  (add32 a0 A, add32 b0 B, add32 c0 C, add32 d0 D).

Definition blocks (bs : list N) : list (list N) :=
  List.map (fun i => firstn 64 (skipn (64 * i) bs))
           (seq 0 (Nat.div (length bs) 64)).

Definition digest (msg : list N) : list N :=
  let '(a, b, c, d) :=
    List.fold_left compress (blocks (pad msg))
      (0x67452301, 0xefcdab89, 0x98badcfe, 0x10325476) in
  bytesLE 4 a ++ bytesLE 4 b ++ bytesLE 4 c ++ bytesLE 4 d.

Definition hexDigit (n : N) : N := if n <? 10 then 48 + n else 87 + n.

(** [.digest('hex')]: two lower-case hexadecimal digits per byte. *)
Definition hex (bs : list N) : jsstring :=
  List.concat (List.map (fun b => [hexDigit (b / 16); hexDigit (b mod 16)]) bs).

Definition md5hex (msg : list N) : jsstring := hex (digest msg).

End Md5.

Import JsString.

(** ** Numbers *)

(** [x < y] on rationals, as a boolean. *)
Definition Qltb (x y : Q) : bool := negb (Qle_bool y x).

(** ToIntegerOrInfinity: truncation towards zero, as done by [new Date(x)]
    and by [Date.prototype.setHours]. *)
Definition toInteger (x : Q) : Z :=
  if Qle_bool 0 x then Qfloor x else Qceiling x.

(** [Math.round]: the nearest integer, halves towards plus infinity. *)
Definition mathRound (x : Q) : Z := Qfloor (x + (1 # 2)).

(** [Math.ceil] *)
Definition mathCeil (x : Q) : Z := Qceiling x.

(** *** Doubles *)

(** The integer nearest to [x]; of two nearest integers, the even one. *)
Definition roundHalfEven (x : Q) : Z :=
  let f := Qfloor x in
  let r := (x - inject_Z f)%Q in
  if Qltb r (1 # 2) then f
  else if Qltb (1 # 2) r then (f + 1)%Z
  else if Z.even f then f else (f + 1)%Z.

(** The number of binary places behind the point of a double of the
    magnitude of [x]: the least [j >= 0] with [|x| * 2 ^ j >= 2 ^ 52].
    The candidate [52 + log2 d - log2 n] for [x = n / d] is this number
    or one below it. *)
Definition places (x : Q) : Z :=
  let n := Z.abs (Qnum x) in
  let d := Zpos (Qden x) in
  if (n =? 0)%Z then 0%Z
  else
    let j := (52 + Z.log2 d - Z.log2 n)%Z in
    if (j <? 0)%Z then 0%Z
    else if (2 ^ 52 * d <=? n * 2 ^ j)%Z then j else (j + 1)%Z.

(** The significand of the double nearest to [x], ties to even. *)
Definition significand (x : Q) : Z :=
  roundHalfEven (x * inject_Z (2 ^ places x)).

(** The double nearest to [x], ties to even: [x] rounded to a multiple of
    [2 ^ - places x], as a fraction in lowest terms. *)
Definition fl (x : Q) : Q :=
  Qred (significand x # Z.to_pos (2 ^ places x)).

(** The operators [+], [-], [*] and [/] on numbers. *)
Definition fadd (x y : Q) : Q := fl (x + y).
Definition fsub (x y : Q) : Q := fl (x - y).
Definition fmul (x y : Q) : Q := fl (x * y).
Definition fdiv (x y : Q) : Q := fl (x / y).

(** [x] is a double: rounding leaves it as it is. *)
Definition isNumber (x : Q) : Prop := (fl x == x)%Q.

(** [n / d] for two set sizes.  With a zero divisor JavaScript gives [NaN]
    or [Infinity], which is no rational: [None]. *)
Definition sizeRatio (n d : nat) : option Q :=
  match d with
  | O => None
  | S _ => Some (Z.of_nat n # Pos.of_nat d)
  end.

(** ** The host *)

(** What the JavaScript engine takes from its environment.
    [String.prototype.toLowerCase] follows the Unicode case tables, and
    the conversions between UTC and local time, [LocalTime(t)] and
    [UTC(t)] of ECMA-262 (21.4.1), follow the rules of the time zone of
    the process.  Neither is part of this development: they are
    parameters. *)
Class Host := {
  toLowerCase : jsstring -> jsstring;
  LocalTime : Z -> Z;
  UTC : Z -> Z
}.

(** On texts of the ASCII range [toLowerCase] is this function. *)
Definition asciiLower (s : jsstring) : jsstring :=
  List.map (fun c => if (65 <=? c)%N && (c <=? 90)%N then (c + 32)%N else c) s.

(** The host of the scenarios: ASCII texts, in a process whose time zone
    is UTC. *)
Definition asciiHost : Host :=
  {| toLowerCase := asciiLower; LocalTime := fun t => t; UTC := fun t => t |}.

(** ** Types *)

Record SafetySettings := {
  minIntervalMinutes : Q;
  maxPostsPerDay : Q;
  enableJitter : bool;
  maxJitterMinutes : Q;
  dedupeWindowDays : Q;
  quietHoursStart : Q;
  quietHoursEnd : Q;
  enableQuietHours : bool;
  timezone : string
}.

Definition DEFAULT_SAFETY : SafetySettings := {|
  minIntervalMinutes := 30;
  maxPostsPerDay := 8;
  enableJitter := true;
  maxJitterMinutes := 30;
  dedupeWindowDays := 7;
  quietHoursStart := 23;
  quietHoursEnd := 6;
  enableQuietHours := true;
  timezone := "UTC"
|}.

Record PostOptions := {
  text : jsstring;
  replyTo : option string;
  quoteTweetId : option string;
  mediaIds : option (list string);
  force : bool;
  jitterMinutes : option Q
}.

(** [PostHistory]; the fields carry the prefix [h_]. *)
Record PostHistory := {
  h_id : string;
  h_text : jsstring;
  h_hash : jsstring;
  h_timestamp : Z;
  h_mediaIds : option (list string)
}.

Record RateLimitState := {
  remaining : Z;
  limit : Z;
  resetAt : Z
}.

(** [StoreSchema].  [dailyPostDate] is the key ["YYYY-MM-DD"] of a UTC day,
    represented by the number of that day since the epoch; the default
    [''] of a fresh store is [None]. *)
Record StoreSchema := {
  postHistory : list PostHistory;
  lastPostAt : option Z;
  dailyPostCount : Z;
  dailyPostDate : option Z;
  rateLimit : option RateLimitState
}.

(** The defaults given to [Conf] by the constructor. *)
Definition emptyStore : StoreSchema := {|
  postHistory := [];
  lastPostAt := None;
  dailyPostCount := 0;
  dailyPostDate := None;
  rateLimit := None
|}.

(** [this.store.set(key, value)], one function per key. *)
Definition setPostHistory (v : list PostHistory) (st : StoreSchema) :=
  {| postHistory := v; lastPostAt := lastPostAt st;
     dailyPostCount := dailyPostCount st; dailyPostDate := dailyPostDate st;
     rateLimit := rateLimit st |}.

Definition setLastPostAt (v : option Z) (st : StoreSchema) :=
  {| postHistory := postHistory st; lastPostAt := v;
     dailyPostCount := dailyPostCount st; dailyPostDate := dailyPostDate st;
     rateLimit := rateLimit st |}.

Definition setDailyPostCount (v : Z) (st : StoreSchema) :=
  {| postHistory := postHistory st; lastPostAt := lastPostAt st;
     dailyPostCount := v; dailyPostDate := dailyPostDate st;
     rateLimit := rateLimit st |}.

Definition setDailyPostDate (v : option Z) (st : StoreSchema) :=
  {| postHistory := postHistory st; lastPostAt := lastPostAt st;
     dailyPostCount := dailyPostCount st; dailyPostDate := v;
     rateLimit := rateLimit st |}.

Definition setRateLimit (v : option RateLimitState) (st : StoreSchema) :=
  {| postHistory := postHistory st; lastPostAt := lastPostAt st;
     dailyPostCount := dailyPostCount st; dailyPostDate := dailyPostDate st;
     rateLimit := v |}.

(** The reading of the system clock during one method call: [Date.now()]
    and the offset of local time from UTC that is in force at that
    instant, both in milliseconds. *)
Record Clock := {
  now : Z;
  utcOffset : Z
}.

(** The text produced by [timeAgo]: [`${n}s ago`], [`${n}m ago`],
    [`${n}h ago`] or [`${n}d ago`]. *)
Inductive TimeAgo :=
| SecondsAgo (n : Z)
| MinutesAgo (n : Z)
| HoursAgo (n : Z)
| DaysAgo (n : Z).

(** The messages of [checkSafety].  Each constructor stands for one
    template literal of the source and carries the values that the
    template interpolates. *)
Inductive ErrorMsg :=
| RateLimitExceeded (resetAt : Z)
    (* `Rate limit exceeded. Resets at ${new Date(resetAt).toISOString()}` *)
| DailyLimitReached (maxPostsPerDay : Q)
    (* `Daily post limit reached (${maxPostsPerDay})` *)
| DuplicateContent (posted : TimeAgo)
    (* `Duplicate content detected (posted ${timeAgo(timestamp)})` *)
| ExcessiveHashtags.
    (* 'Excessive hashtags - high shadowban risk' *)

Inductive WarningMsg :=
| ApproachingDailyLimit (dailyCount : Z) (maxPostsPerDay : Q)
    (* `Approaching daily limit (${dailyCount}/${maxPostsPerDay})` *)
| InQuietHours
    (* 'Currently in quiet hours - post will be delayed' *)
| VerySimilar (percent : option Z)
    (* `Very similar to recent post (${Math.round(similarity * 100)}% match)` *)
| TooManyHashtags (hashtagCount : nat)
    (* `Too many hashtags (${hashtagCount}) - recommend max 2-3` *)
| UrlShorteners
    (* 'URL shorteners may trigger spam filters' *)
| ManyMentions (mentionCount : nat)
    (* `Many mentions (${mentionCount}) may appear spammy` *)
| PostedRecently (minutesSince : Z) (waitMinutes : Z).
    (* `Posted ${Math.round(minutesSince)}m ago - recommend waiting ${waitMinutes}m more` *)

Inductive SuggestionMsg :=
| ConsiderRephrasing
    (* 'Consider rephrasing to avoid detection as duplicate' *)
| UseFullUrls.
    (* 'Use full URLs or native X links' *)

Record SafetyCheck := {
  safe : bool;
  warnings : list WarningMsg;
  errors : list ErrorMsg;
  suggestions : list SuggestionMsg
}.

(** The result of [calculateDelay]. *)
Record Delay := {
  delayMs : Q;
  reason : option string
}.

(** [PostResult.blockReason] is [errors.join('; ')], the reason of a delay
    or a fixed text. *)
Inductive BlockReason :=
| JoinedErrors (es : list ErrorMsg)
| ReasonText (s : string).

Record PostResult := {
  success : bool;
  tweetId : option string;
  scheduledFor : option Z;
  delayed : option bool;
  delayMinutes : option Z;
  blocked : option bool;
  blockReason : option BlockReason;
  rateLimitRemaining : option Z;
  rateLimitReset : option Z
}.

(** The result of [getStats]. *)
Record Stats := {
  todayPosts : Z;
  maxDailyPosts : Q;
  stats_lastPostAt : option Z;
  nextAllowedAt : Z;
  recentPosts : nat;
  stats_rateLimitRemaining : option Z;
  stats_rateLimitReset : option Z
}.

(** ** The Publisher ([this.client.v2.tweet]) *)

(** The request built by [post]. *)
Record TweetData := {
  td_text : jsstring;
  td_reply : option string;
  td_quote_tweet_id : option string;
  td_media : option (list string)
}.

(** What [post] reads of an error thrown by the Publisher.  An absent
    [reset] or [limit] is [0]: both are only tested for truthiness. *)
Record RateLimitInfo := {
  reset : Z;
  rl_limit : Z
}.

Record PublishError := {
  code : option Z;
  rateLimitError : bool;
  errRateLimit : option RateLimitInfo;
  message : string
}.

Inductive PublishOutcome :=
| Tweeted (tweetId : string)
| Failed (error : PublishError).

(** How the promise returned by [post] settles. *)
Inductive PostOutcome :=
| Resolved (result : PostResult)
| Rejected (error : PublishError).

(** ** The class [XSafePost] *)

Section XSafePost.

Context {host : Host}.

Local Open Scope Q_scope.

(** [this.safety] *)
Variable safety : SafetySettings.

(** *** Private methods *)

Definition getTodayString (c : Clock) : Z := (now c / 86400000)%Z.

Definition checkDailyReset (st : StoreSchema) (c : Clock) : StoreSchema :=
  let today := getTodayString c in
  if negb (bool_decide (dailyPostDate st = Some today))
  then setDailyPostDate (Some today) (setDailyPostCount 0 st)
  else st.

(** The text that [hashContent] hashes. *)
Definition normalize (text : jsstring) : jsstring :=
  trim (collapseSpaces false (toLowerCase text)).

Definition hashContent (text : jsstring) : jsstring :=
  let normalized := normalize text in
  Md5.md5hex (utf8 normalized).

(** [set.add(x)] on a [Set] kept in insertion order. *)
Definition setAdd (s : list jsstring) (x : jsstring) : list jsstring :=
  if bool_decide (x ∈ s) then s else s ++ [x].

(** [new Set(l)] *)
Definition newSet (l : list jsstring) : list jsstring :=
  List.fold_left setAdd l [].

(** The constants [wordsA] and [wordsB] of [similarity]. *)
Definition wordsOf (text : jsstring) : list jsstring :=
  newSet (splitSpaces (toLowerCase text)).

(** The constants [intersection] and [union] of [similarity]. *)
Definition intersectionOf (wordsA wordsB : list jsstring) : list jsstring :=
  newSet (List.filter (fun x => bool_decide (x ∈ wordsB)) wordsA).

Definition unionOf (wordsA wordsB : list jsstring) : list jsstring :=
  newSet (wordsA ++ wordsB).

Definition similarity (a b : jsstring) : option Q :=
  let wordsA := wordsOf a in
  let wordsB := wordsOf b in
  let intersection := intersectionOf wordsA wordsB in
  let union := unionOf wordsA wordsB in
  sizeRatio (length intersection) (length union).

(** [new Date().getHours()] *)
Definition getHours (c : Clock) : Z :=
  (((now c + utcOffset c) / 3600000) mod 24)%Z.

Definition isQuietHours (c : Clock) : bool :=
  let hour := inject_Z (getHours c) in
  let start := quietHoursStart safety in
  let end_ := quietHoursEnd safety in
  if Qltb end_ start
  then Qle_bool start hour || Qltb hour end_
  else Qle_bool start hour && Qltb hour end_.

(** [end.setHours(h, 0, 0, 0)] replaces the time within the local day of
    [end] and converts back with [UTC]; [end.setDate(end.getDate() + 1)]
    adds one day to the local time of [end] and converts back. *)
Definition getQuietHoursEnd (c : Clock) : Z :=
  let local := LocalTime (now c) in
  let midnight := (local - local mod 86400000)%Z in
  let end_ := UTC (midnight + toInteger (quietHoursEnd safety) * 3600000)%Z in
  if (end_ <=? now c)%Z then UTC (LocalTime end_ + 86400000)%Z else end_.

Definition timeAgo (c : Clock) (timestamp : Z) : TimeAgo :=
  let seconds := ((now c - timestamp) / 1000)%Z in
  if (seconds <? 60)%Z then SecondsAgo seconds
  else if (seconds <? 3600)%Z then MinutesAgo (seconds / 60)
  else if (seconds <? 86400)%Z then HoursAgo (seconds / 3600)
  else DaysAgo (seconds / 86400).

Definition recordPost (st : StoreSchema) (c : Clock)
    (text : jsstring) (tweetId : string) (mediaIds : option (list string))
  : StoreSchema :=
  let history := postHistory st in
  let history :=
    history ++ [ {| h_id := tweetId; h_text := text;
                    h_hash := hashContent text; h_timestamp := now c;
                    h_mediaIds := mediaIds |} ] in
  let cutoff := (now c - 30 * 24 * 60 * 60 * 1000)%Z in
  let pruned := List.filter (fun h => (cutoff <? h_timestamp h)%Z) history in
  let st := setPostHistory pruned st in
  let st := setLastPostAt (Some (now c)) st in
  setDailyPostCount (dailyPostCount st + 1) st.

(** The constructor, on the store that [Conf] loads: [this.safety] is
    the section variable, and the daily count is reset on a new day. *)
Definition construct (st : StoreSchema) (c : Clock) : StoreSchema :=
  checkDailyReset st c.

(** *** Public methods *)

(** The test [rateLimit && rateLimit.remaining === 0 &&
    rateLimit.resetAt > Date.now()], which [checkSafety] and
    [calculateDelay] both make. *)
Definition rateLimitExhausted (st : StoreSchema) (c : Clock) : bool :=
  match rateLimit st with
  | Some rl => (remaining rl =? 0)%Z && (now c <? resetAt rl)%Z
  | None => false
  end.

(** [this.similarity(text, h.text) > 0.8].  The quotient of two set sizes
    [n / d] exceeds the double 0.8 exactly when [5 * n > 4 * d] (for sets
    of fewer than 2^50 words), so the comparison of rationals decides as
    the comparison of doubles does. *)
Definition verySimilar (text : jsstring) (h : PostHistory) : bool :=
  match similarity text (h_text h) with
  | Some q => Qltb (8 # 10) q
  | None => false
  end.

(** [/bit\.ly|tinyurl|t\.co|goo\.gl|ow\.ly/i.test(text)] *)
Definition hasUrlShortener (text : jsstring) : bool :=
  containsCI (lit "bit.ly") text || containsCI (lit "tinyurl") text
  || containsCI (lit "t.co") text || containsCI (lit "goo.gl") text
  || containsCI (lit "ow.ly") text.

(** The constant [cutoff] of [checkSafety]. *)
Definition dedupeCutoff (c : Clock) : Q :=
  fsub (inject_Z (now c))
       (fmul (fmul (fmul (fmul (dedupeWindowDays safety) 24) 60) 60) 1000).

(** The constant [duplicate] of [checkSafety]:
    [history.find(h => h.hash === hash && h.timestamp > cutoff)]. *)
Definition findDuplicate (history : list PostHistory) (c : Clock)
    (hash : jsstring) : option PostHistory :=
  List.find (fun h => bool_decide (h_hash h = hash)
                      && Qltb (dedupeCutoff c) (inject_Z (h_timestamp h)))
            history.

(** The constant [similar] of [checkSafety]:
    [history.find(h => h.timestamp > cutoff &&
                       this.similarity(text, h.text) > 0.8)]. *)
Definition findSimilar (history : list PostHistory) (c : Clock)
    (text : jsstring) : option PostHistory :=
  List.find (fun h => Qltb (dedupeCutoff c) (inject_Z (h_timestamp h))
                      && verySimilar text h)
            history.

(** A block [if (b) { xs.push(..); ys.push(..) }] that writes to two
    lists is one conditional per list, on the same condition. *)
Definition checkSafety (st : StoreSchema) (c : Clock) (text : jsstring)
  : SafetyCheck * StoreSchema :=
  let warnings : list WarningMsg := [] in
  let errors : list ErrorMsg := [] in
  let suggestions : list SuggestionMsg := [] in
  (* Check rate limit *)
  let errors :=
    match rateLimit st with
    | Some rl =>
        if (remaining rl =? 0)%Z && (now c <? resetAt rl)%Z
        then errors ++ [RateLimitExceeded (resetAt rl)]
        else errors
    | None => errors
    end in
  (* Check daily limit *)
  let st := checkDailyReset st c in
  let dailyCount := dailyPostCount st in
  let reached := Qle_bool (maxPostsPerDay safety) (inject_Z dailyCount) in
  let approaching :=
    Qle_bool (fsub (maxPostsPerDay safety) 2) (inject_Z dailyCount) in
  let errors :=
    if reached
    then errors ++ [DailyLimitReached (maxPostsPerDay safety)]
    else errors in
  let warnings :=
    if reached then warnings
    else if approaching
    then warnings ++ [ApproachingDailyLimit dailyCount (maxPostsPerDay safety)]
    else warnings in
  (* Check quiet hours *)
  let warnings :=
    if enableQuietHours safety && isQuietHours c
    then warnings ++ [InQuietHours]
    else warnings in
  (* Check for duplicate content *)
  let hash := hashContent text in
  let history := postHistory st in
  let duplicate := findDuplicate history c hash in
  let errors :=
    match duplicate with
    | Some d => errors ++ [DuplicateContent (timeAgo c (h_timestamp d))]
    | None => errors
    end in
  (* Check for similar content (fuzzy match) *)
  let similar := findSimilar history c text in
  let warnings :=
    match similar with
    | Some s =>
        if negb (bool_decide (h_hash s = hash))
        then warnings ++
               [VerySimilar
                  (option_map (fun q => mathRound (q * 100))
                              (similarity text (h_text s)))]
        else warnings
    | None => warnings
    end in
  let suggestions :=
    match similar with
    | Some s =>
        if negb (bool_decide (h_hash s = hash))
        then suggestions ++ [ConsiderRephrasing]
        else suggestions
    | None => suggestions
    end in
  (* Check content patterns that trigger shadowban *)
  let hashtagCount := countTagged 35 text in
  let warnings :=
    if (3 <? hashtagCount)%nat
    then warnings ++ [TooManyHashtags hashtagCount]
    else warnings in
  let errors :=
    if (5 <? hashtagCount)%nat then errors ++ [ExcessiveHashtags] else errors in
  (* Check for URL shorteners *)
  let warnings :=
    if hasUrlShortener text then warnings ++ [UrlShorteners] else warnings in
  let suggestions :=
    if hasUrlShortener text then suggestions ++ [UseFullUrls]
    else suggestions in
  (* Check for @mention spam *)
  let mentionCount := countTagged 64 text in
  let warnings :=
    if (5 <? mentionCount)%nat
    then warnings ++ [ManyMentions mentionCount]
    else warnings in
  (* Check minimum interval *)
  let warnings :=
    match lastPostAt st with
    | Some lastPost =>
        if negb (lastPost =? 0)%Z then
          let minutesSince := fdiv (inject_Z (now c - lastPost)) 60000 in
          if Qltb minutesSince (minIntervalMinutes safety) then
            let waitMinutes :=
              mathCeil (fsub (minIntervalMinutes safety) minutesSince) in
            warnings ++ [PostedRecently (mathRound minutesSince) waitMinutes]
          else warnings
        else warnings
    | None => warnings
    end in
  ({| safe := bool_decide (length errors = 0%nat);
      warnings := warnings;
      errors := errors;
      suggestions := suggestions |}, st).

(** [reason || fallback] on an optional string: the empty string is
    falsy. *)
Definition orReason (reason : option string) (fallback : string)
  : option string :=
  match reason with
  | Some r => if bool_decide (r = EmptyString) then Some fallback else Some r
  | None => Some fallback
  end.

(** The constant [minWait] of [calculateDelay]:
    [this.safety.minIntervalMinutes * 60 * 1000]. *)
Definition minWait : Q := fmul (fmul (minIntervalMinutes safety) 60) 1000.

(** The test [lastPost && timeSince < minWait] of [calculateDelay]; the
    instant 0 is falsy. *)
Definition withinMinInterval (st : StoreSchema) (c : Clock) : bool :=
  match lastPostAt st with
  | Some lastPost =>
      negb (lastPost =? 0)%Z && Qltb (inject_Z (now c - lastPost)) minWait
  | None => false
  end.

(** [rnd] is the value returned by [Math.random()]. *)
Definition calculateDelay (st : StoreSchema) (c : Clock) (rnd : Q)
    (customJitter : option Q) : Delay :=
  let delayMs : Q := 0 in
  let reason : option string := None in
  (* Rate limit delay *)
  let delayMs :=
    match rateLimit st with
    | Some rl =>
        if (remaining rl =? 0)%Z && (now c <? resetAt rl)%Z
        then Qmax delayMs (inject_Z (resetAt rl - now c))
        else delayMs
    | None => delayMs
    end in
  let reason :=
    if rateLimitExhausted st c
    then Some "Rate limit cooldown"%string
    else reason in
  (* Minimum interval delay *)
  let delayMs :=
    match lastPostAt st with
    | Some lastPost =>
        if withinMinInterval st c then
          let timeSince := inject_Z (now c - lastPost) in
          Qmax delayMs (fsub minWait timeSince)
        else delayMs
    | None => delayMs
    end in
  let reason :=
    if withinMinInterval st c
    then orReason reason "Minimum interval"
    else reason in
  (* Quiet hours delay *)
  let quiet := enableQuietHours safety && isQuietHours c in
  let delayMs :=
    if quiet then
      let quietEnd := getQuietHoursEnd c in
      Qmax delayMs (inject_Z (quietEnd - now c))
    else delayMs in
  let reason := if quiet then orReason reason "Quiet hours" else reason in
  (* Add jitter *)
  let delayMs :=
    if enableJitter safety && Qltb 0 delayMs then
      let jitterMinutes :=
        match customJitter with
        | Some j => j
        | None => maxJitterMinutes safety
        end in
      let jitterMs := fmul (fmul (fmul rnd jitterMinutes) 60) 1000 in
      fadd delayMs jitterMs
    else delayMs in
  {| delayMs := delayMs; reason := reason |}.

Definition getNextPostTime (st : StoreSchema) (c : Clock) (rnd : Q) : Z :=
  let delay := calculateDelay st c rnd None in
  toInteger (fadd (inject_Z (now c)) (delayMs delay)).

(** [getStats]; it runs the rollover check before it reads the count. *)
Definition getStats (st : StoreSchema) (c : Clock) (rnd : Q)
  : Stats * StoreSchema :=
  let st := checkDailyReset st c in
  let history := postHistory st in
  let weekAgo := (now c - 7 * 24 * 60 * 60 * 1000)%Z in
  ({| todayPosts := dailyPostCount st;
      maxDailyPosts := maxPostsPerDay safety;
      stats_lastPostAt :=
        match lastPostAt st with
        | Some t => if negb (t =? 0)%Z then Some t else None
        | None => None
        end;
      nextAllowedAt := getNextPostTime st c rnd;
      recentPosts :=
        length (List.filter (fun h => (weekAgo <? h_timestamp h)%Z) history);
      stats_rateLimitRemaining := option_map remaining (rateLimit st);
      stats_rateLimitReset :=
        match rateLimit st with
        | Some rl => if negb (resetAt rl =? 0)%Z then Some (resetAt rl) else None
        | None => None
        end |}, st).

Definition clearHistory (st : StoreSchema) : StoreSchema :=
  setPostHistory [] st.

Definition resetDailyCount (st : StoreSchema) (c : Clock) : StoreSchema :=
  setDailyPostDate (Some (getTodayString c)) (setDailyPostCount 0 st).

(** A string is truthy when it is not empty. *)
Definition truthyString (o : option string) : option string :=
  match o with
  | Some s => if bool_decide (s = EmptyString) then None else Some s
  | None => None
  end.

Definition tweetDataOf (options : PostOptions) : TweetData :=
  {| td_text := text options;
     td_reply := truthyString (replyTo options);
     td_quote_tweet_id := truthyString (quoteTweetId options);
     td_media :=
       match mediaIds options with
       | Some ids => if (0 <? length ids)%nat then Some ids else None
       | None => None
       end |}.

(** [error.code === 429 || error.rateLimitError] *)
Definition isRateLimitFailure (error : PublishError) : bool :=
  bool_decide (code error = Some 429%Z) || rateLimitError error.

(** The instant [resetAt.getTime()] computed in the handler. *)
Definition resetInstant (error : PublishError) (c : Clock) : Z :=
  match errRateLimit error with
  | Some info =>
      if negb (reset info =? 0)%Z then (reset info * 1000)%Z
      else (now c + 15 * 60 * 1000)%Z
  | None => (now c + 15 * 60 * 1000)%Z
  end.

(** [error.rateLimit?.limit || 100] *)
Definition limitOf (error : PublishError) : Z :=
  match errRateLimit error with
  | Some info => if negb (rl_limit info =? 0)%Z then rl_limit info else 100%Z
  | None => 100%Z
  end.

Definition blockedResult (es : list ErrorMsg) : PostResult :=
  {| success := false; tweetId := None; scheduledFor := None;
     delayed := None; delayMinutes := None;
     blocked := Some true; blockReason := Some (JoinedErrors es);
     rateLimitRemaining := None; rateLimitReset := None |}.

Definition delayedResult (c : Clock) (delay : Delay) : PostResult :=
  {| success := false; tweetId := None;
     scheduledFor := Some (toInteger (fadd (inject_Z (now c)) (delayMs delay)));
     delayed := Some true;
     delayMinutes := Some (mathCeil (fdiv (delayMs delay) 60000));
     blocked := None;
     blockReason := option_map ReasonText (reason delay);
     rateLimitRemaining := None; rateLimitReset := None |}.

Definition postedResult (tweetId : string) (st : StoreSchema) : PostResult :=
  {| success := true; tweetId := Some tweetId; scheduledFor := None;
     delayed := None; delayMinutes := None;
     blocked := None; blockReason := None;
     rateLimitRemaining := option_map remaining (rateLimit st);
     rateLimitReset := None |}.

Definition rateLimitedResult (resetAt : Z) : PostResult :=
  {| success := false; tweetId := None; scheduledFor := None;
     delayed := None; delayMinutes := None;
     blocked := Some true;
     blockReason := Some (ReasonText "Rate limit exceeded");
     rateLimitRemaining := Some 0%Z; rateLimitReset := Some resetAt |}.

(** The [try] block of [post] and its handler. *)
Definition submit (st : StoreSchema) (c : Clock)
    (publish : TweetData -> PublishOutcome) (options : PostOptions)
  : PostOutcome * StoreSchema :=
  match publish (tweetDataOf options) with
  | Tweeted tweetId =>
      (* Record successful post *)
      let st := recordPost st c (text options) tweetId (mediaIds options) in
      (Resolved (postedResult tweetId st), st)
  | Failed error =>
      (* Handle rate limit errors *)
      if isRateLimitFailure error then
        let resetAt := resetInstant error c in
        let st :=
          setRateLimit
            (Some {| remaining := 0; limit := limitOf error;
                     resetAt := resetAt |}) st in
        (Resolved (rateLimitedResult resetAt), st)
      else (Rejected error, st)
  end.

(** [post]: [publish] is the Publisher, [rnd] the value of
    [Math.random()]. *)
Definition post (st : StoreSchema) (c : Clock) (rnd : Q)
    (publish : TweetData -> PublishOutcome) (options : PostOptions)
  : PostOutcome * StoreSchema :=
  (* Run safety checks unless forced *)
  let '(check, st) :=
    if negb (force options)
    then let '(check, st) := checkSafety st c (text options) in
         (Some check, st)
    else (None, st) in
  match check with
  | Some {| safe := false; errors := es |} =>
      (Resolved (blockedResult es), st)
  | _ =>
      (* Calculate delay with jitter *)
      let delay := calculateDelay st c rnd (jitterMinutes options) in
      if Qltb 0 (delayMs delay) && negb (force options)
      then (Resolved (delayedResult c delay), st)
      else submit st c publish options
  end.

Definition forced (options : PostOptions) : PostOptions :=
  {| text := text options; replyTo := replyTo options;
     quoteTweetId := quoteTweetId options; mediaIds := mediaIds options;
     force := true; jitterMinutes := jitterMinutes options |}.

(** [postAndWait]: [c] and [rnd] serve the first call of [post]; [c'] and
    [rnd'] are the clock and the random value after the sleep. *)
Definition postAndWait (st : StoreSchema) (c : Clock) (rnd : Q)
    (c' : Clock) (rnd' : Q)
    (publish : TweetData -> PublishOutcome) (options : PostOptions)
  : PostOutcome * StoreSchema :=
  let '(outcome, st') := post st c rnd publish options in
  match outcome with
  | Resolved {| delayed := Some true; scheduledFor := Some t |} =>
      let waitMs := (t - now c)%Z in
      if (0 <? waitMs)%Z
      then post st' c' rnd' publish (forced options)
      else (outcome, st')
  | _ => (outcome, st')
  end.

End XSafePost.

(** ** The rules of [checkSafety], one by one

    What each block of [checkSafety] pushes, as a function of the state it
    reads.  The lemmas [checkSafety_errors], [checkSafety_warnings] and
    [checkSafety_suggestions] show that the lists of the verdict are the
    concatenations of these, in the order of the source. *)

Section Rules.

Context {host : Host}.
Variable safety : SafetySettings.

Local Open Scope Q_scope.

Definition rateLimitErrors (st : StoreSchema) (c : Clock) : list ErrorMsg :=
  match rateLimit st with
  | Some rl =>
      if rateLimitExhausted st c then [RateLimitExceeded (resetAt rl)] else []
  | None => []
  end.

Definition dailyLimitErrors (dailyCount : Z) : list ErrorMsg :=
  if Qle_bool (maxPostsPerDay safety) (inject_Z dailyCount)
  then [DailyLimitReached (maxPostsPerDay safety)]
  else [].

Definition dailyLimitWarnings (dailyCount : Z) : list WarningMsg :=
  if Qle_bool (maxPostsPerDay safety) (inject_Z dailyCount) then []
  else if Qle_bool (fsub (maxPostsPerDay safety) 2) (inject_Z dailyCount)
  then [ApproachingDailyLimit dailyCount (maxPostsPerDay safety)]
  else [].

Definition quietHoursWarnings (c : Clock) : list WarningMsg :=
  if enableQuietHours safety && isQuietHours safety c then [InQuietHours]
  else [].

Definition duplicateErrors (st : StoreSchema) (c : Clock) (text : jsstring)
  : list ErrorMsg :=
  match findDuplicate safety (postHistory st) c (hashContent text) with
  | Some d => [DuplicateContent (timeAgo c (h_timestamp d))]
  | None => []
  end.

(** The record for which the near-duplicate block speaks, if any: the
    record found by [findSimilar], unless its hash is that of the text. *)
Definition reportedSimilar (st : StoreSchema) (c : Clock) (text : jsstring)
  : option PostHistory :=
  match findSimilar safety (postHistory st) c text with
  | Some s =>
      if negb (bool_decide (h_hash s = hashContent text)) then Some s
      else None
  | None => None
  end.

Definition similarWarnings (st : StoreSchema) (c : Clock) (text : jsstring)
  : list WarningMsg :=
  match reportedSimilar st c text with
  | Some s =>
      [VerySimilar (option_map (fun q => mathRound (q * 100))
                               (similarity text (h_text s)))]
  | None => []
  end.

Definition similarSuggestions (st : StoreSchema) (c : Clock)
    (text : jsstring) : list SuggestionMsg :=
  match reportedSimilar st c text with
  | Some _ => [ConsiderRephrasing]
  | None => []
  end.

Definition hashtagWarnings (text : jsstring) : list WarningMsg :=
  if (3 <? countTagged 35 text)%nat
  then [TooManyHashtags (countTagged 35 text)]
  else [].

Definition hashtagErrors (text : jsstring) : list ErrorMsg :=
  if (5 <? countTagged 35 text)%nat then [ExcessiveHashtags] else [].

Definition shortenerWarnings (text : jsstring) : list WarningMsg :=
  if hasUrlShortener text then [UrlShorteners] else [].

Definition shortenerSuggestions (text : jsstring) : list SuggestionMsg :=
  if hasUrlShortener text then [UseFullUrls] else [].

Definition mentionWarnings (text : jsstring) : list WarningMsg :=
  if (5 <? countTagged 64 text)%nat
  then [ManyMentions (countTagged 64 text)]
  else [].

Definition intervalWarnings (st : StoreSchema) (c : Clock)
  : list WarningMsg :=
  match lastPostAt st with
  | Some lastPost =>
      if negb (lastPost =? 0)%Z then
        let minutesSince := fdiv (inject_Z (now c - lastPost)) 60000 in
        if Qltb minutesSince (minIntervalMinutes safety) then
          [PostedRecently (mathRound minutesSince)
             (mathCeil (fsub (minIntervalMinutes safety) minutesSince))]
        else []
      else []
  | None => []
  end.

End Rules.

(** ** Readings of the specification, for comparison with the code *)

Section SpecReadings.

Context {host : Host}.

(** The word set of a text as the specification speaks of it: the
    case-folded pieces between white space that are words, that is, not
    empty.  Only with this reading can the union of two word sets be
    empty. *)
Definition spec_wordSet (text : jsstring) : list jsstring :=
  newSet (words (toLowerCase text)).

Definition spec_unionOf (a b : jsstring) : list jsstring :=
  newSet (spec_wordSet a ++ spec_wordSet b).

Variable safety : SafetySettings.

Local Open Scope Q_scope.

(** Every record of the history carries the hash that [recordPost] gives
    to its text. *)
Definition historyHashed (st : StoreSchema) : Prop :=
  ∀ h, h ∈ postHistory st → h_hash h = hashContent (h_text h).

(** A record lies within the dedupe window when it is younger than
    [dedupeWindowDays] days: its timestamp is later than the cutoff that
    the code computes. *)
Definition withinDedupeWindow (c : Clock) (h : PostHistory) : Prop :=
  dedupeCutoff safety c < inject_Z (h_timestamp h).

(** A record is a near duplicate of a text when it lies within the window
    and its similarity to the text is greater than 0.8. *)
Definition nearDuplicate (c : Clock) (text : jsstring) (h : PostHistory)
  : Prop :=
  withinDedupeWindow c h
  ∧ ∃ q, similarity text (h_text h) = Some q ∧ 8 # 10 < q.

(** The three components of the delay; each is zero when its condition
    does not hold. *)
Definition rateLimitCooldown (st : StoreSchema) (c : Clock) : Q :=
  match rateLimit st with
  | Some rl =>
      if rateLimitExhausted st c then inject_Z (resetAt rl - now c) else 0
  | None => 0
  end.

Definition minIntervalRemaining (st : StoreSchema) (c : Clock) : Q :=
  match lastPostAt st with
  | Some lastPost =>
      if withinMinInterval safety st c
      then fsub (minWait safety) (inject_Z (now c - lastPost))
      else 0
  | None => 0
  end.

Definition quietHoursRemaining (c : Clock) : Q :=
  if enableQuietHours safety && isQuietHours safety c
  then inject_Z (getQuietHoursEnd safety c - now c)
  else 0.

(** The base delay: the greatest of the three components. *)
Definition baseDelay (st : StoreSchema) (c : Clock) : Q :=
  Qmax (Qmax (rateLimitCooldown st c) (minIntervalRemaining st c))
       (quietHoursRemaining c).

(** The store that [post] hands to the Publisher step: the safety
    evaluation, which is skipped under [force], has run the rollover
    check. *)
Definition storeAtSubmission (st : StoreSchema) (c : Clock)
    (options : PostOptions) : StoreSchema :=
  if force options then st else checkDailyReset st c.

(** The call of [post] reaches the Publisher: it is forced, or the
    verdict is safe and the computed delay is not positive. *)
Definition reachesPublisher (st : StoreSchema) (c : Clock) (rnd : Q)
    (options : PostOptions) : Prop :=
  force options = true
  ∨ (safe (checkSafety safety st c (text options)).1 = true
     ∧ delayMs (calculateDelay safety (checkDailyReset st c) c rnd
                  (jitterMinutes options)) <= 0).

(** [customJitter ?? this.safety.maxJitterMinutes] *)
Definition jitterMinutesOf (customJitter : option Q) : Q :=
  match customJitter with
  | Some j => j
  | None => maxJitterMinutes safety
  end.

(** The jitter that the random value [rnd] gives:
    [Math.random() * jitterMinutes * 60 * 1000]. *)
Definition jitterMs (rnd : Q) (customJitter : option Q) : Q :=
  fmul (fmul (fmul rnd (jitterMinutesOf customJitter)) 60) 1000.

(** The span of the jitter, [jitterMinutes * 60 * 1000]. *)
Definition jitterSpan (customJitter : option Q) : Q :=
  fmul (fmul (jitterMinutesOf customJitter) 60) 1000.

(** The zone of the host has no transitions: at every instant local time
    is UTC plus the offset of the clock reading. *)
Definition fixedOffset (c : Clock) : Prop :=
  (∀ t, LocalTime t = (t + utcOffset c)%Z)
  ∧ (∀ t, UTC t = (t - utcOffset c)%Z).

End SpecReadings.

(** ** Scenarios *)

(** Noon UTC of 1 January 2024, read in a UTC process. *)
Definition noon : Clock := {| now := 1704110400000; utcOffset := 0 |}.

Definition later (c : Clock) (ms : Z) : Clock :=
  {| now := now c + ms; utcOffset := utcOffset c |}.

Definition minute : Z := 60000.
Definition hour : Z := 3600000.
Definition day : Z := 86400000.

(** [{ text }] *)
Definition plainPost (text : jsstring) : PostOptions :=
  {| text := text; replyTo := None; quoteTweetId := None; mediaIds := None;
     force := false; jitterMinutes := None |}.

(** A Publisher that accepts every tweet under the given identifier. *)
Definition accepting (tweetId : string) : TweetData -> PublishOutcome :=
  fun _ => Tweeted tweetId.

(** A Publisher that fails with the given error. *)
Definition failing (error : PublishError) : TweetData -> PublishOutcome :=
  fun _ => Failed error.

(** The store after "Hello" was posted at noon through the default
    settings (scenario 1). *)
Definition storeAfterHello : StoreSchema :=
  (post (host := asciiHost) DEFAULT_SAFETY emptyStore noon (1 # 2)
        (accepting "1") (plainPost (lit "Hello"))).2.

(** The store after "a b c d e f" was posted at noon and "a b c d e f g"
    one hour later. *)
Definition storeAfterTwoPosts : StoreSchema :=
  let st :=
    (post (host := asciiHost) DEFAULT_SAFETY emptyStore noon (1 # 2)
          (accepting "1") (plainPost (lit "a b c d e f"))).2 in
  (post (host := asciiHost) DEFAULT_SAFETY st (later noon hour) (1 # 2)
        (accepting "2") (plainPost (lit "a b c d e f g"))).2.

(** The default settings with [dedupeWindowDays: 60]. *)
Definition sixtyDayWindow : SafetySettings := {|
  minIntervalMinutes := 30;
  maxPostsPerDay := 8;
  enableJitter := true;
  maxJitterMinutes := 30;
  dedupeWindowDays := 60;
  quietHoursStart := 23;
  quietHoursEnd := 6;
  enableQuietHours := true;
  timezone := "UTC"
|}.

(** The store after "Hello" was posted at noon through these settings,
    and the store of the same engine after "Something else" was posted 32
    days later. *)
Definition storeAfterHelloSixty : StoreSchema :=
  (post (host := asciiHost) sixtyDayWindow emptyStore noon (1 # 2)
        (accepting "1") (plainPost (lit "Hello"))).2.

Definition storeAMonthLater : StoreSchema :=
  (post (host := asciiHost) sixtyDayWindow storeAfterHelloSixty
        (later noon (32 * day)) (1 # 2)
        (accepting "2") (plainPost (lit "Something else"))).2.

(** A store whose rate-limit window is used up and resets ten minutes after
    [noon]. *)
Definition exhaustedStore : StoreSchema :=
  setRateLimit
    (Some {| remaining := 0; limit := 100; resetAt := now noon + 10 * minute |})
    emptyStore.

(** The default settings with [maxJitterMinutes: -30]. *)
Definition negativeJitter : SafetySettings := {|
  minIntervalMinutes := 30;
  maxPostsPerDay := 8;
  enableJitter := true;
  maxJitterMinutes := -30;
  dedupeWindowDays := 7;
  quietHoursStart := 23;
  quietHoursEnd := 6;
  enableQuietHours := true;
  timezone := "UTC"
|}.

(** An engine that was constructed on 31 December 2023 at 22:00 UTC and
    has counted three posts on that day. *)
Definition storeOfLastYear : StoreSchema :=
  setDailyPostCount 3 (construct emptyStore (later noon (- 14 * hour))).

(** 31 December 2023, 23:30 UTC, inside the default quiet hours. *)
Definition lateEvening : Clock := later noon (- 12 * hour - 30 * minute).

(** 1 January 2024, 06:15 UTC: the end of the quiet hours plus a jitter of
    fifteen minutes. *)
Definition nextMorning : Clock := later noon (- 6 * hour + 15 * minute).

(** The greatest value of [Math.random()] in V8: [1 - 2^-52]. *)
Definition almostOne : Q := 4503599627370495 # 4503599627370496.

(** The zone America/New_York around its two transitions of 2024: local
    time is UTC - 4 h from 10 March, 07:00 UTC, to 3 November, 06:00 UTC,
    and UTC - 5 h before and after.  [UTC] reads a local time that the day
    skips or has twice with the offset in force before the transition, as
    ECMA-262 prescribes. *)
Definition newYork2024 : Host :=
  {| toLowerCase := asciiLower;
     LocalTime := fun t =>
       if (1710054000000 <=? t)%Z && (t <? 1730613600000)%Z
       then (t - 4 * 3600000)%Z else (t - 5 * 3600000)%Z;
     UTC := fun t =>
       if (t <? 1710039600000)%Z then (t + 5 * 3600000)%Z
       else if (t <? 1730599200000)%Z then (t + 4 * 3600000)%Z
       else (t + 5 * 3600000)%Z |}.

(** 2 November 2024, 23:30 in New York (daylight time), the eve of the
    return to standard time. *)
Definition fallBackEve : Clock :=
  {| now := 1730604600000; utcOffset := - 4 * 3600000 |}.

(** 10 March 2024, 01:30 in New York (standard time), half an hour before
    the clocks go forward. *)
Definition springForwardNight : Clock :=
  {| now := 1710052200000; utcOffset := - 5 * 3600000 |}.

(** The default settings with quiet hours from 03:00 to 02:00 of the next
    day. *)
Definition quietUntilTwo : SafetySettings := {|
  minIntervalMinutes := 30;
  maxPostsPerDay := 8;
  enableJitter := true;
  maxJitterMinutes := 30;
  dedupeWindowDays := 7;
  quietHoursStart := 3;
  quietHoursEnd := 2;
  enableQuietHours := true;
  timezone := "UTC"
|}.

(** The default settings with [minIntervalMinutes: 8.3]: the setting is
    the double nearest to 8.3. *)
Definition everyEightPointThree : SafetySettings := {|
  minIntervalMinutes := fl (83 # 10);
  maxPostsPerDay := 8;
  enableJitter := true;
  maxJitterMinutes := 30;
  dedupeWindowDays := 7;
  quietHoursStart := 23;
  quietHoursEnd := 6;
  enableQuietHours := true;
  timezone := "UTC"
|}.

(** The default settings with [minIntervalMinutes: 0.1]. *)
Definition everyTenthOfAMinute : SafetySettings := {|
  minIntervalMinutes := fl (1 # 10);
  maxPostsPerDay := 8;
  enableJitter := true;
  maxJitterMinutes := 30;
  dedupeWindowDays := 7;
  quietHoursStart := 23;
  quietHoursEnd := 6;
  enableQuietHours := true;
  timezone := "UTC"
|}.

(** A store whose last post was at the instant [t]. *)
Definition storeWithLastPost (t : Z) : StoreSchema :=
  setLastPostAt (Some t) emptyStore.

(** An HTTP 500 of the Publisher. *)
Definition serverError : PublishError :=
  {| code := Some 500%Z; rateLimitError := false; errRateLimit := None;
     message := "Internal Server Error" |}.

(** An HTTP 429 of the Publisher that reports the reset second
    1704111000 (ten minutes after [noon]) and a limit of 50. *)
Definition tooManyRequests : PublishError :=
  {| code := Some 429%Z; rateLimitError := true;
     errRateLimit := Some {| reset := 1704111000; rl_limit := 50 |};
     message := "Too Many Requests" |}.

(** A store that has counted [n] posts on the day of [noon]. *)
Definition storeWithCount (n : Z) : StoreSchema :=
  setDailyPostCount n (construct emptyStore noon).

(** ** Further readings of the source, for the properties below *)

(** [pat] occurs in [s] up to the case of ASCII letters. *)
Definition occursCI (pat s : jsstring) : Prop :=
  ∃ pre mid post,
    s = pre ++ mid ++ post
    ∧ List.map foldCase mid = List.map foldCase pat.

(** The literals of the URL-shortener pattern. *)
Definition shortenerDomains : list jsstring :=
  [lit "bit.ly"; lit "tinyurl"; lit "t.co"; lit "goo.gl"; lit "ow.ly"].

(** A lower-case hexadecimal digit: [0-9a-f]. *)
Definition isLowerHex (c : N) : Prop :=
  (48 <= c <= 57)%N ∨ (97 <= c <= 102)%N.

(** The default settings with [maxPostsPerDay: 1] (scenario 2). *)
Definition onePerDay : SafetySettings := {|
  minIntervalMinutes := 30;
  maxPostsPerDay := 1;
  enableJitter := true;
  maxJitterMinutes := 30;
  dedupeWindowDays := 7;
  quietHoursStart := 23;
  quietHoursEnd := 6;
  enableQuietHours := true;
  timezone := "UTC"
|}.

(** ** [checkShadowban] *)

(** How an awaited call of the client settles. *)
Inductive Awaited (A : Type) :=
| Fulfilled (value : A)
| Thrown (message : string).

Arguments Fulfilled {A} value.
Arguments Thrown {A} message.

(** [me.data] *)
Record UserData := {
  user_id : string;
  username : string
}.

(** The [details] of a check: [`@${username}`], 'Could not fetch account',
    [`${n} recent tweets found`], the message of an error thrown by the
    client, or the message of the [TypeError] that reading [me.data.id]
    raises when [me.data] is undefined. *)
Inductive CheckDetails :=
| AtUsername (username : string)
| CouldNotFetchAccount
| RecentTweetsFound (n : nat)
| ErrorMessage (message : string)
| TypeErrorOnId.

Record ShadowCheck := {
  sc_name : string;
  passed : bool;
  details : CheckDetails
}.

Record ShadowbanReport := {
  likely : bool;
  checks : list ShadowCheck
}.

(** [me] is how [client.v2.me()] settles, with its [data] if any;
    [userTimeline] is how [client.v2.userTimeline(id, ...)] settles, with
    the length of [tweets.data.data] if there is one. *)
Definition checkShadowban (me : Awaited (option UserData))
    (userTimeline : string -> Awaited (option nat)) : ShadowbanReport :=
  let checks : list ShadowCheck := [] in
  let checks :=
    match me with
    | Fulfilled data =>
        (* Check if account is still accessible *)
        let checks :=
          checks ++
          [ {| sc_name := "Account accessible";
               passed := match data with Some _ => true | None => false end;
               details := match data with
                          | Some u => AtUsername (username u)
                          | None => CouldNotFetchAccount
                          end |} ] in
        match data with
        | Some u =>
            (* Try to fetch recent tweets *)
            match userTimeline (user_id u) with
            | Fulfilled tweets =>
                let n := match tweets with Some n => n | None => O end in
                checks ++
                [ {| sc_name := "Tweets visible";
                     passed := (0 <? n)%nat;
                     details := RecentTweetsFound n |} ]
            | Thrown message =>
                checks ++
                [ {| sc_name := "API access"; passed := false;
                     details := ErrorMessage message |} ]
            end
        | None =>
            checks ++
            [ {| sc_name := "API access"; passed := false;
                 details := TypeErrorOnId |} ]
        end
    | Thrown message =>
        checks ++
        [ {| sc_name := "API access"; passed := false;
             details := ErrorMessage message |} ]
    end in
  let failedChecks :=
    length (List.filter (fun c => negb (passed c)) checks) in
  {| likely := (0 <? failedChecks)%nat; checks := checks |}.

(** ** The settings as given and as shown *)

(** [SafetySettings] as a caller or the saved configuration gives it:
    every field may be absent. *)
Record PartialSettings := {
  given_minIntervalMinutes : option Q;
  given_maxPostsPerDay : option Q;
  given_enableJitter : option bool;
  given_maxJitterMinutes : option Q;
  given_dedupeWindowDays : option Q;
  given_quietHoursStart : option Q;
  given_quietHoursEnd : option Q;
  given_enableQuietHours : option bool;
  given_timezone : option string
}.

Definition noSettings : PartialSettings := {|
  given_minIntervalMinutes := None; given_maxPostsPerDay := None;
  given_enableJitter := None; given_maxJitterMinutes := None;
  given_dedupeWindowDays := None; given_quietHoursStart := None;
  given_quietHoursEnd := None; given_enableQuietHours := None;
  given_timezone := None
|}.

Definition orElse {A} (given : option A) (default : A) : A :=
  match given with
  | Some x => x
  | None => default
  end.

(** [{ ...DEFAULT_SAFETY, ...config.safety }] of the constructor. *)
Definition mergeSafety (given : option PartialSettings) : SafetySettings :=
  let g := orElse given noSettings in
  {| minIntervalMinutes :=
       orElse (given_minIntervalMinutes g) (minIntervalMinutes DEFAULT_SAFETY);
     maxPostsPerDay :=
       orElse (given_maxPostsPerDay g) (maxPostsPerDay DEFAULT_SAFETY);
     enableJitter :=
       orElse (given_enableJitter g) (enableJitter DEFAULT_SAFETY);
     maxJitterMinutes :=
       orElse (given_maxJitterMinutes g) (maxJitterMinutes DEFAULT_SAFETY);
     dedupeWindowDays :=
       orElse (given_dedupeWindowDays g) (dedupeWindowDays DEFAULT_SAFETY);
     quietHoursStart :=
       orElse (given_quietHoursStart g) (quietHoursStart DEFAULT_SAFETY);
     quietHoursEnd :=
       orElse (given_quietHoursEnd g) (quietHoursEnd DEFAULT_SAFETY);
     enableQuietHours :=
       orElse (given_enableQuietHours g) (enableQuietHours DEFAULT_SAFETY);
     timezone := orElse (given_timezone g) (timezone DEFAULT_SAFETY) |}.

(** [value || fallback] on an optional number: absent and zero are
    falsy. *)
Definition orNumber (value : option Q) (fallback : Q) : Q :=
  match value with
  | Some x => if Qeq_bool x 0 then fallback else x
  | None => fallback
  end.

(** The values that [config --show] prints under "Safety Settings". *)
Record ShownSettings := {
  shownMinInterval : Q;
  shownMaxDaily : Q;
  shownQuietStart : Q;
  shownQuietEnd : Q;
  shownJitterEnabled : bool
}.

(** [saved] is [config.get('safety')]. *)
Definition showSafety (saved : option PartialSettings) : ShownSettings :=
  let safety := orElse saved noSettings in
  {| shownMinInterval := orNumber (given_minIntervalMinutes safety) 30;
     shownMaxDaily := orNumber (given_maxPostsPerDay safety) 8;
     shownQuietStart := orNumber (given_quietHoursStart safety) 23;
     shownQuietEnd := orNumber (given_quietHoursEnd safety) 6;
     shownJitterEnabled :=
       negb (bool_decide (given_enableJitter safety = Some false)) |}.

(** The saved settings with quiet hours from 22:00 to midnight. *)
Definition quietUntilMidnight : PartialSettings := {|
  given_minIntervalMinutes := None; given_maxPostsPerDay := None;
  given_enableJitter := None; given_maxJitterMinutes := None;
  given_dedupeWindowDays := None; given_quietHoursStart := Some 22%Q;
  given_quietHoursEnd := Some 0%Q; given_enableQuietHours := None;
  given_timezone := None
|}.

(** ** [postAndWait] *)

(** The outcome is a delayed result with its scheduled instant. *)
Definition isDelayed (outcome : PostOutcome) : bool :=
  match outcome with
  | Resolved {| delayed := Some true; scheduledFor := Some _ |} => true
  | _ => false
  end.

(** ** Tactics *)

(** Case analysis on a hypothesis [H : x ∈ l] where [l] is built from
    conditionals, appends and short literal lists. *)
Ltac elem_of_rules H :=
  repeat match type of H with
         | _ ∈ [] => apply elem_of_nil in H; contradiction
         | _ ∈ [_] => apply list_elem_of_singleton in H
         | _ ∈ _ ++ _ => apply elem_of_app in H as [H|H]
         | _ ∈ (if ?b then _ else _) => destruct b
         | _ ∈ match ?x with Some _ => _ | None => _ end => destruct x
         end;
  try discriminate H.

(** Names every [Qmax a b] of the goal, innermost first, and keeps what
    [Q.max_spec] says of it, so that [lra] can finish. *)
Ltac name_Qmax :=
  repeat match goal with
         | |- context [Qmax ?a ?b] =>
             lazymatch a with context [Qmax _ _] => fail | _ => idtac end;
             lazymatch b with context [Qmax _ _] => fail | _ => idtac end;
             let m := fresh "m" in
             let Hm := fresh "Hm" in
             pose proof (Q.max_spec a b) as Hm;
             set (m := Qmax a b) in *; clearbody m
         end.

(** ** Reference values of the hash *)

Example md5_empty :
  Md5.md5hex (utf8 (lit "")) = lit "d41d8cd98f00b204e9800998ecf8427e".
Proof. vm_compute. reflexivity. Qed.

Example md5_abc :
  Md5.md5hex (utf8 (lit "abc")) = lit "900150983cd24fb0d6963f7d28e17f72".
Proof. vm_compute. reflexivity. Qed.

Example md5_two_blocks :
  Md5.md5hex (utf8 (lit "The quick brown fox jumps over the lazy dog, again and again and again, to pass one block."))
  = lit "ef97a9d0283b25b197c29220b56d2bdf".
Proof. vm_compute. reflexivity. Qed.

(** The text "héllo " followed by U+1F600, a surrogate pair in UTF-16. *)
Example md5_non_ascii :
  Md5.md5hex (utf8 ([104; 233; 108; 108; 111; 32; 0xD83D; 0xDE00])%N)
  = lit "207dd4f0cd7a4f13b4932646cd1f8f2b".
Proof. vm_compute. reflexivity. Qed.

(** ** Rational comparisons *)

Lemma Qltb_lt (x y : Q) : Qltb x y = true <-> (x < y)%Q.
Proof.
  unfold Qltb. rewrite negb_true_iff.
  split.
  - intros Hb. apply Qnot_le_lt. intros Hle.
    apply Qle_bool_iff in Hle. congruence.
  - intros Hlt. destruct (Qle_bool y x) eqn:Hb; [|reflexivity].
    apply Qle_bool_iff in Hb. exfalso. exact (Qlt_not_le _ _ Hlt Hb).
Qed.

Lemma Qltb_ge (x y : Q) : Qltb x y = false <-> (y <= x)%Q.
Proof.
  unfold Qltb. rewrite negb_false_iff. apply Qle_bool_iff.
Qed.

Lemma Qle_bool_false (x y : Q) : Qle_bool x y = false <-> (y < x)%Q.
Proof.
  rewrite <- Qltb_lt. unfold Qltb. rewrite negb_true_iff. reflexivity.
Qed.

Lemma sizeRatio_bounds (n d : nat) :
  (n <= d)%nat -> (0 < d)%nat ->
  exists q, sizeRatio n d = Some q /\ (0 <= q)%Q /\ (q <= 1)%Q.
Proof.
  intros Hnd Hd. destruct d as [|d]; [lia|].
  eexists; split; [reflexivity|].
  unfold Qle; cbn [Qnum Qden].
  lia.
Qed.

Lemma sizeRatio_one (n : nat) :
  (0 < n)%nat -> exists q, sizeRatio n n = Some q /\ (q == 1)%Q.
Proof.
  intros Hn. destruct n as [|n]; [lia|].
  eexists; split; [reflexivity|].
  unfold Qeq; cbn [Qnum Qden].
  lia.
Qed.

(** ** Reference values of doubles *)

(** The doubles nearest to 0.1, 8.3, 1/3 and 0.8. *)
Example fl_decimal_fractions :
  fl (1 # 10) = 3602879701896397 # 36028797018963968
  ∧ fl (83 # 10) = 2336242306698445 # 281474976710656
  ∧ fl (1 # 3) = 6004799503160661 # 18014398509481984
  ∧ fl (8 # 10) = 3602879701896397 # 4503599627370496.
Proof. vm_compute. repeat split. Qed.

(** Halfway between two doubles the even significand wins:
    [2^52 + 1/2] goes down to [2^52] and [2^52 + 3/2] up to [2^52 + 2];
    one binary place lower, [2^51 + 1/4] goes down to [2^51] and
    [2^51 + 3/4] up to [2^51 + 1]. *)
Example fl_ties_to_even :
  fl (9007199254740993 # 2) = 4503599627370496 # 1
  ∧ fl (9007199254740995 # 2) = 4503599627370498 # 1
  ∧ fl (9007199254740993 # 4) = 2251799813685248 # 1
  ∧ fl (9007199254740995 # 4) = 2251799813685249 # 1.
Proof. vm_compute. repeat split. Qed.

(** ** Doubles *)

Section Doubles.

Local Open Scope Q_scope.

(** *** Rounding to the nearest integer *)

Lemma Qfloor_bounds (x : Q) :
  (inject_Z (Qfloor x) <= x)%Q ∧ (x < inject_Z (Qfloor x) + 1)%Q.
Proof.
  split; [apply Qfloor_le|].
  pose proof (Qlt_floor x) as Hlt. rewrite inject_Z_plus in Hlt. exact Hlt.
Qed.

(** [roundHalfEven x] is within one half of [x], and even when [x] lies
    halfway between two integers. *)
Lemma roundHalfEven_near (x : Q) :
  (inject_Z (roundHalfEven x) - (1 # 2) < x
   ∧ x < inject_Z (roundHalfEven x) + (1 # 2))%Q
  ∨ ((x == inject_Z (roundHalfEven x) + (1 # 2)
      ∨ x == inject_Z (roundHalfEven x) - (1 # 2))%Q
     ∧ Z.even (roundHalfEven x) = true).
Proof.
  unfold roundHalfEven. cbv zeta.
  destruct (Qfloor_bounds x) as [Hlo Hhi]. set (f := Qfloor x) in *.
  destruct (Qltb (x - inject_Z f) (1 # 2)) eqn:H1.
  - apply Qltb_lt in H1. left. split; lra.
  - apply Qltb_ge in H1.
    destruct (Qltb (1 # 2) (x - inject_Z f)) eqn:H2.
    + apply Qltb_lt in H2. left. rewrite inject_Z_plus.
      change (inject_Z 1) with 1%Q. split; lra.
    + apply Qltb_ge in H2. right.
      destruct (Z.even f) eqn:Hev.
      * split; [left; lra|exact Hev].
      * split; [right; rewrite inject_Z_plus; change (inject_Z 1) with 1%Q;
                lra|].
        rewrite Z.even_add, Hev. reflexivity.
Qed.

Lemma inject_Z_lt_half (a b : Z) :
  (inject_Z a < inject_Z b + 1)%Q → (a <= b)%Z.
Proof.
  intros Hlt.
  assert (Hz : (inject_Z a < inject_Z (b + 1))%Q)
    by (rewrite inject_Z_plus; exact Hlt).
  rewrite <- Zlt_Qlt in Hz. lia.
Qed.

(** The integer nearest to [x], even at a tie, is unique. *)
Lemma roundHalfEven_unique (x : Q) (z : Z) :
  (inject_Z z - (1 # 2) < x ∧ x < inject_Z z + (1 # 2))%Q
  ∨ ((x == inject_Z z + (1 # 2) ∨ x == inject_Z z - (1 # 2))%Q
     ∧ Z.even z = true) →
  roundHalfEven x = z.
Proof.
  intros Hz.
  pose proof (roundHalfEven_near x) as Hr.
  set (r := roundHalfEven x) in *.
  assert (Hle1 : (r <= z + 1)%Z).
  { apply inject_Z_lt_half. rewrite inject_Z_plus. change (inject_Z 1) with 1%Q.
    destruct Hz as [[? ?]|[[?|?] _]], Hr as [[? ?]|[[?|?] _]]; lra. }
  assert (Hle2 : (z <= r + 1)%Z).
  { apply inject_Z_lt_half. rewrite inject_Z_plus. change (inject_Z 1) with 1%Q.
    destruct Hz as [[? ?]|[[?|?] _]], Hr as [[? ?]|[[?|?] _]]; lra. }
  destruct (Z.eq_dec r z) as [Heq|Hne]; [exact Heq|exfalso].
  assert (Hcase : (r = z + 1 ∨ z = r + 1)%Z) by lia.
  destruct Hcase as [Hc|Hc].
  - assert (Hq : inject_Z r == inject_Z z + 1)
      by (rewrite Hc, inject_Z_plus; reflexivity).
    destruct Hz as [[? ?]|[[?|?] Hez]], Hr as [[? ?]|[[?|?] Her]];
      try lra.
    rewrite Hc, Z.even_add, Hez in Her. discriminate Her.
  - assert (Hq : inject_Z z == inject_Z r + 1)
      by (rewrite Hc, inject_Z_plus; reflexivity).
    destruct Hz as [[? ?]|[[?|?] Hez]], Hr as [[? ?]|[[?|?] Her]];
      try lra.
    rewrite Hc, Z.even_add, Her in Hez. discriminate Hez.
Qed.

Lemma roundHalfEven_Z (n : Z) : roundHalfEven (inject_Z n) = n.
Proof. apply roundHalfEven_unique. left. split; lra. Qed.

Lemma roundHalfEven_opp (x : Q) : roundHalfEven (- x) = (- roundHalfEven x)%Z.
Proof.
  apply roundHalfEven_unique.
  rewrite inject_Z_opp, Z.even_opp.
  destruct (roundHalfEven_near x) as [[? ?]|[[?|?] Hev]].
  - left. split; lra.
  - right. split; [right; lra|exact Hev].
  - right. split; [left; lra|exact Hev].
Qed.

Lemma roundHalfEven_mono (x y : Q) :
  (x <= y)%Q → (roundHalfEven x <= roundHalfEven y)%Z.
Proof.
  intros Hxy.
  pose proof (roundHalfEven_near x) as Hx.
  pose proof (roundHalfEven_near y) as Hy.
  destruct (Z_le_gt_dec (roundHalfEven x) (roundHalfEven y)) as [Hle|Hgt];
    [exact Hle|exfalso].
  set (a := roundHalfEven x) in *. set (b := roundHalfEven y) in *.
  clearbody a b.
  assert (Hab : (inject_Z b + 1 <= inject_Z a)%Q).
  { change 1%Q with (inject_Z 1).
    rewrite <- inject_Z_plus, <- Zle_Qle. lia. }
  (* then x and y are the same tie between [b] and [a = b + 1] *)
  assert (Ha : (a = b + 1)%Z).
  { assert (Hle : (a <= b + 1)%Z); [|lia].
    apply inject_Z_lt_half. rewrite inject_Z_plus. change (inject_Z 1) with 1%Q.
    destruct Hx as [[? ?]|[[?|?] _]], Hy as [[? ?]|[[?|?] _]]; lra. }
  assert (Hq : inject_Z a == inject_Z b + 1)
    by (rewrite Ha, inject_Z_plus; reflexivity).
  destruct Hx as [[? ?]|[[?|?] Hea]], Hy as [[? ?]|[[?|?] Heb]]; try lra.
  rewrite Ha, Z.even_add, Heb in Hea. discriminate Hea.
Qed.

Lemma roundHalfEven_proper (x y : Q) :
  (x == y)%Q → roundHalfEven x = roundHalfEven y.
Proof.
  intros Heq.
  assert (Hxy : (x <= y)%Q) by lra. assert (Hyx : (y <= x)%Q) by lra.
  pose proof (roundHalfEven_mono x y Hxy).
  pose proof (roundHalfEven_mono y x Hyx). lia.
Qed.

(** *** The binary places of a double *)

Lemma places_nonneg (x : Q) : (0 <= places x)%Z.
Proof.
  unfold places. cbv zeta.
  destruct (_ =? 0)%Z; [lia|].
  destruct (_ <? 0)%Z eqn:Hj; [lia|]. apply Z.ltb_ge in Hj.
  destruct (_ <=? _)%Z; lia.
Qed.

Lemma places_opp (x : Q) : places (- x) = places x.
Proof. unfold places. cbn [Qopp Qnum Qden]. rewrite Z.abs_opp. reflexivity. Qed.

(** [places x] is the least [j >= 0] such that [|x| * 2 ^ j >= 2 ^ 52];
    on numerator and denominator. *)
Lemma places_spec_Z (x : Q) :
  Qnum x ≠ 0%Z →
  let j := places x in
  (2 ^ 52 * Zpos (Qden x) <= Z.abs (Qnum x) * 2 ^ j)%Z
  ∧ ((0 < j)%Z → (Z.abs (Qnum x) * 2 ^ j < 2 ^ 53 * Zpos (Qden x))%Z).
Proof.
  intros Hn. unfold places. cbv zeta.
  set (n := Z.abs (Qnum x)). set (d := Zpos (Qden x)).
  assert (Hnpos : (0 < n)%Z) by (unfold n; lia).
  assert (Hdpos : (0 < d)%Z) by (unfold d; lia).
  rewrite (proj2 (Z.eqb_neq n 0)) by lia.
  pose proof (Z.log2_spec n Hnpos) as Ha.
  pose proof (Z.log2_spec d Hdpos) as Hb.
  pose proof (Z.log2_nonneg n) as Ha0.
  pose proof (Z.log2_nonneg d) as Hb0.
  set (a := Z.log2 n) in *. set (b := Z.log2 d) in *.
  rewrite !Z.pow_succ_r in Ha, Hb by assumption.
  destruct (52 + b - a <? 0)%Z eqn:Hj.
  - apply Z.ltb_lt in Hj. split; [|lia].
    assert (Hpow : (2 ^ a = 2 ^ (53 + b) * 2 ^ (a - 53 - b))%Z).
    { rewrite <- Z.pow_add_r by lia. f_equal. lia. }
    assert (Hpow' : (2 ^ (53 + b) = 2 ^ 53 * 2 ^ b)%Z)
      by (rewrite Z.pow_add_r by lia; reflexivity).
    assert (Hone : (0 < 2 ^ (a - 53 - b))%Z)
      by (apply Z.pow_pos_nonneg; lia).
    assert (Hb1 : (0 < 2 ^ b)%Z) by (apply Z.pow_pos_nonneg; lia).
    change (2 ^ 53)%Z with (2 * 2 ^ 52)%Z in Hpow'.
    change (2 ^ 0)%Z with 1%Z.
    assert (HK : (0 < 2 ^ 52)%Z) by reflexivity.
    set (K := (2 ^ 52)%Z) in *. clearbody K. nia.
  - apply Z.ltb_ge in Hj.
    assert (Hpow : (2 ^ a * 2 ^ (52 + b - a) = 2 ^ 52 * 2 ^ b)%Z).
    { rewrite <- !Z.pow_add_r by lia. f_equal. lia. }
    assert (Hp : (0 < 2 ^ (52 + b - a))%Z) by (apply Z.pow_pos_nonneg; lia).
    set (p := (2 ^ (52 + b - a))%Z) in *.
    change (2 ^ 53)%Z with (2 * 2 ^ 52)%Z.
    assert (Hb1 : (0 < 2 ^ b)%Z) by (apply Z.pow_pos_nonneg; lia).
    assert (HK : (0 < 2 ^ 52)%Z) by reflexivity.
    set (K := (2 ^ 52)%Z) in *. clearbody K.
    destruct (K * d <=? n * p)%Z eqn:Ht.
    + apply Z.leb_le in Ht. fold p. split; [exact Ht|]. intros _. nia.
    + apply Z.leb_gt in Ht.
      rewrite Z.pow_add_r by lia. change (2 ^ 1)%Z with 2%Z.
      fold p. split; [nia|]. intros _. nia.
Qed.

Lemma pow2_pos (j : Z) : (0 <= j)%Z → (0 < 2 ^ j)%Z.
Proof. intros Hj. apply Z.pow_pos_nonneg; lia. Qed.

Lemma pow2_step (j p : Z) : (0 <= j < p)%Z → (2 * 2 ^ j <= 2 ^ p)%Z.
Proof.
  intros Hjp. rewrite <- Z.pow_succ_r by lia.
  apply Z.pow_le_mono_r; lia.
Qed.

Lemma Qnum_pos (x : Q) : (0 < x)%Q → (0 < Qnum x)%Z.
Proof. unfold Qlt. cbn [Qnum Qden]. lia. Qed.

(** The same on rationals, for a positive [x]: with [j] places the
    scaled value lies in [2^52, 2^53), or is at least [2^52] when
    [j = 0]. *)
Lemma places_spec (x : Q) :
  (0 < x)%Q →
  (inject_Z (2 ^ 52) <= x * inject_Z (2 ^ places x))%Q
  ∧ ((0 < places x)%Z → (x * inject_Z (2 ^ places x) < inject_Z (2 ^ 53))%Q).
Proof.
  intros Hx. pose proof (Qnum_pos x Hx) as Hn.
  destruct (places_spec_Z x) as [Hlo Hhi]; [lia|].
  rewrite Z.abs_eq in Hlo, Hhi by lia.
  set (s := (2 ^ places x)%Z) in *.
  destruct x as [n d]. cbn [Qnum Qden] in *.
  unfold Qle, Qlt, Qmult, inject_Z. cbn [Qnum Qden].
  rewrite !Pos.mul_1_r, !Z.mul_1_r. split; [lia|].
  intros Hj. specialize (Hhi Hj). lia.
Qed.

Lemma places_unique (x : Q) (j : Z) :
  (0 < x)%Q → (0 <= j)%Z →
  (inject_Z (2 ^ 52) <= x * inject_Z (2 ^ j))%Q →
  ((0 < j)%Z → (x * inject_Z (2 ^ j) < inject_Z (2 ^ 53))%Q) →
  places x = j.
Proof.
  intros Hx Hj Hlo Hhi.
  destruct (places_spec x Hx) as [Hlo' Hhi'].
  pose proof (places_nonneg x) as Hp.
  set (p := places x) in *. clearbody p.
  assert (HK : inject_Z (2 ^ 53) == 2 * inject_Z (2 ^ 52)) by reflexivity.
  assert (HK0 : (0 < inject_Z (2 ^ 52))%Q) by reflexivity.
  set (K := inject_Z (2 ^ 52)) in *. clearbody K.
  set (K2 := inject_Z (2 ^ 53)) in *. clearbody K2.
  destruct (Z.lt_trichotomy p j) as [Hlt|[Heq|Hgt]];
    [exfalso|exact Heq|exfalso].
  - assert (Hs : (2 * inject_Z (2 ^ p) <= inject_Z (2 ^ j))%Q).
    { change 2%Q with (inject_Z 2). rewrite <- inject_Z_mult, <- Zle_Qle.
      apply pow2_step. lia. }
    specialize (Hhi ltac:(lia)).
    set (A := inject_Z (2 ^ p)) in *. set (B := inject_Z (2 ^ j)) in *.
    clearbody A B. nra.
  - assert (Hs : (2 * inject_Z (2 ^ j) <= inject_Z (2 ^ p))%Q).
    { change 2%Q with (inject_Z 2). rewrite <- inject_Z_mult, <- Zle_Qle.
      apply pow2_step. lia. }
    specialize (Hhi' ltac:(lia)).
    set (A := inject_Z (2 ^ p)) in *. set (B := inject_Z (2 ^ j)) in *.
    clearbody A B. nra.
Qed.

Lemma places_proper (x y : Q) : (x == y)%Q → places x = places y.
Proof.
  intros Heq.
  destruct (Qlt_le_dec 0 x) as [Hpos|Hneg].
  - destruct (places_spec x Hpos) as [Hlo Hhi].
    symmetry. apply places_unique.
    + lra.
    + apply places_nonneg.
    + rewrite <- Heq. exact Hlo.
    + intros Hj. rewrite <- Heq. exact (Hhi Hj).
  - destruct (Qlt_le_dec x 0) as [Hlt|Hge].
    + rewrite <- (places_opp x), <- (places_opp y).
      assert (Hpos : (0 < - x)%Q) by lra.
      destruct (places_spec (- x) Hpos) as [Hlo Hhi].
      symmetry. apply places_unique.
      * lra.
      * apply places_nonneg.
      * rewrite <- Heq. exact Hlo.
      * intros Hj. rewrite <- Heq. exact (Hhi Hj).
    + assert (Hx : Qnum x = 0%Z).
      { assert (Hz : (x == 0)%Q) by lra. unfold Qeq in Hz.
        cbn [Qnum Qden] in Hz. lia. }
      assert (Hy : Qnum y = 0%Z).
      { assert (Hz : (y == 0)%Q) by lra. unfold Qeq in Hz.
        cbn [Qnum Qden] in Hz. lia. }
      unfold places. rewrite Hx, Hy. reflexivity.
Qed.

(** *** Rounding to a double *)

Lemma fl_unfold (x : Q) :
  (fl x == significand x # Z.to_pos (2 ^ places x))%Q.
Proof. unfold fl. apply Qred_correct. Qed.

Lemma fl_eq (x : Q) :
  (fl x * inject_Z (2 ^ places x)
   == inject_Z (roundHalfEven (x * inject_Z (2 ^ places x))))%Q.
Proof.
  rewrite fl_unfold. unfold significand.
  pose proof (pow2_pos (places x) (places_nonneg x)) as Hs.
  set (s := (2 ^ places x)%Z) in *.
  set (m := roundHalfEven _).
  unfold Qeq, Qmult, inject_Z. cbn [Qnum Qden].
  rewrite Pos.mul_1_r, Z.mul_1_r, Z2Pos.id by assumption. reflexivity.
Qed.

Lemma fl_opp (x : Q) : (fl (- x) == - fl x)%Q.
Proof.
  rewrite !fl_unfold. unfold significand. rewrite places_opp.
  rewrite (roundHalfEven_proper (- x * inject_Z (2 ^ places x))
             (- (x * inject_Z (2 ^ places x)))) by ring.
  rewrite roundHalfEven_opp. reflexivity.
Qed.

Lemma fl_nonneg (x : Q) : (0 <= x)%Q → (0 <= fl x)%Q.
Proof.
  intros Hx. rewrite fl_unfold. unfold significand.
  pose proof (pow2_pos (places x) (places_nonneg x)) as Hs.
  set (s := (2 ^ places x)%Z) in *.
  assert (Hm : (0 <= roundHalfEven (x * inject_Z s))%Z).
  { rewrite <- (roundHalfEven_Z 0). apply roundHalfEven_mono.
    assert (0 < inject_Z s)%Q by (change 0%Q with (inject_Z 0);
                                  rewrite <- Zlt_Qlt; exact Hs).
    change (inject_Z 0) with 0%Q. nra. }
  unfold Qle. cbn [Qnum Qden]. lia.
Qed.

Lemma fl_nonpos (x : Q) : (x <= 0)%Q → (fl x <= 0)%Q.
Proof.
  intros Hx. assert (Hopp : (0 <= fl (- x))%Q) by (apply fl_nonneg; lra).
  rewrite fl_opp in Hopp. lra.
Qed.

(** The significand of a positive number lies between [2^52] and
    [2^53]. *)
Lemma significand_bounds (x : Q) :
  (0 < x)%Q →
  let m := roundHalfEven (x * inject_Z (2 ^ places x)) in
  (2 ^ 52 <= m)%Z ∧ ((0 < places x)%Z → (m <= 2 ^ 53)%Z).
Proof.
  intros Hx m. destruct (places_spec x Hx) as [Hlo Hhi]. split.
  - rewrite <- (roundHalfEven_Z (2 ^ 52)). apply roundHalfEven_mono, Hlo.
  - intros Hj. rewrite <- (roundHalfEven_Z (2 ^ 53)).
    apply roundHalfEven_mono, Qlt_le_weak, Hhi, Hj.
Qed.

Lemma fl_pos (x : Q) : (0 < x)%Q → (0 < fl x)%Q.
Proof.
  intros Hx. destruct (significand_bounds x Hx) as [Hlo _].
  rewrite fl_unfold. unfold significand, Qlt. cbn [Qnum Qden].
  assert ((0 < 2 ^ 52)%Z) by reflexivity. lia.
Qed.

Lemma fl_mono_pos (x y : Q) : (0 < x)%Q → (x <= y)%Q → (fl x <= fl y)%Q.
Proof.
  intros Hx Hxy. assert (Hy : (0 < y)%Q) by lra.
  destruct (places_spec x Hx) as [Hxlo Hxhi].
  destruct (places_spec y Hy) as [Hylo Hyhi].
  destruct (significand_bounds x Hx) as [Hmx Hmx'].
  destruct (significand_bounds y Hy) as [Hmy Hmy'].
  pose proof (places_nonneg x) as Hjx. pose proof (places_nonneg y) as Hjy.
  pose proof (pow2_pos _ Hjx) as Hsx. pose proof (pow2_pos _ Hjy) as Hsy.
  rewrite !fl_unfold. unfold significand, Qle. cbn [Qnum Qden].
  rewrite !Z2Pos.id by assumption.
  destruct (Z.lt_trichotomy (places x) (places y)) as [Hlt|[Heq|Hgt]].
  - exfalso.
    assert (Hs : (2 * inject_Z (2 ^ places x) <= inject_Z (2 ^ places y))%Q).
    { change 2%Q with (inject_Z 2). rewrite <- inject_Z_mult, <- Zle_Qle.
      apply pow2_step. lia. }
    specialize (Hyhi ltac:(lia)).
    assert (HA : (0 < inject_Z (2 ^ places x))%Q)
      by (change 0%Q with (inject_Z 0); rewrite <- Zlt_Qlt; exact Hsx).
    assert (HK : inject_Z (2 ^ 53) == 2 * inject_Z (2 ^ 52)) by reflexivity.
    set (K := inject_Z (2 ^ 52)) in *. set (K2 := inject_Z (2 ^ 53)) in *.
    set (A := inject_Z (2 ^ places x)) in *.
    set (B := inject_Z (2 ^ places y)) in *.
    clearbody K K2 A B. nra.
  - rewrite Heq in *.
    apply Z.mul_le_mono_nonneg_r; [lia|].
    apply roundHalfEven_mono.
    assert (0 < inject_Z (2 ^ places y))%Q
      by (change 0%Q with (inject_Z 0); rewrite <- Zlt_Qlt; exact Hsy).
    nra.
  - pose proof (pow2_step (places y) (places x) ltac:(lia)) as Hs.
    specialize (Hmx' ltac:(lia)).
    change (2 ^ 53)%Z with (2 * 2 ^ 52)%Z in Hmx'.
    assert (HK : (0 < 2 ^ 52)%Z) by reflexivity.
    set (K := (2 ^ 52)%Z) in *. clearbody K.
    set (mx := roundHalfEven _) in *. set (my := roundHalfEven _) in *.
    clearbody mx my. nia.
Qed.

(** Rounding is monotone. *)
Lemma fl_mono (x y : Q) : (x <= y)%Q → (fl x <= fl y)%Q.
Proof.
  intros Hxy.
  destruct (Qlt_le_dec 0 x) as [Hx|Hx]; [apply fl_mono_pos; assumption|].
  destruct (Qlt_le_dec y 0) as [Hy|Hy].
  - assert (Hopp : (fl (- y) <= fl (- x))%Q) by (apply fl_mono_pos; lra).
    rewrite !fl_opp in Hopp. lra.
  - pose proof (fl_nonpos x Hx). pose proof (fl_nonneg y Hy). lra.
Qed.

#[global] Instance fl_proper : Proper (Qeq ==> Qeq) fl.
Proof.
  intros x y Heq.
  assert (Hxy : (x <= y)%Q) by lra. assert (Hyx : (y <= x)%Q) by lra.
  pose proof (fl_mono x y Hxy). pose proof (fl_mono y x Hyx). lra.
Qed.

Lemma fl_comp (x y : Q) : (x == y)%Q → (fl x == fl y)%Q.
Proof. intros Heq. rewrite Heq. reflexivity. Qed.

(** An integer is kept as it is. *)
Lemma fl_Z (n : Z) : (fl (inject_Z n) == inject_Z n)%Q.
Proof.
  rewrite fl_unfold. unfold significand.
  pose proof (pow2_pos _ (places_nonneg (inject_Z n))) as Hs.
  set (s := (2 ^ places (inject_Z n))%Z) in *.
  rewrite (roundHalfEven_proper _ (inject_Z (n * s)))
    by (rewrite inject_Z_mult; reflexivity).
  rewrite roundHalfEven_Z.
  unfold Qeq, inject_Z. cbn [Qnum Qden]. rewrite Z2Pos.id by assumption. lia.
Qed.

(** A value with at most 53 significant bits is kept as it is. *)
Lemma fl_scaled (m j : Z) :
  (0 <= j)%Z → (2 ^ 52 <= m)%Z → ((0 < j)%Z → (m < 2 ^ 53)%Z) →
  (fl (m # Z.to_pos (2 ^ j)) == m # Z.to_pos (2 ^ j))%Q.
Proof.
  intros Hj Hlo Hhi.
  pose proof (pow2_pos j Hj) as Hs.
  set (y := m # Z.to_pos (2 ^ j)).
  assert (Hy : (y * inject_Z (2 ^ j) == inject_Z m)%Q).
  { unfold y, Qeq, Qmult, inject_Z. cbn [Qnum Qden].
    rewrite Pos.mul_1_r, Z.mul_1_r, Z2Pos.id by assumption. reflexivity. }
  assert (Hpos : (0 < y)%Q).
  { unfold y, Qlt. cbn [Qnum Qden]. assert ((0 < 2 ^ 52)%Z) by reflexivity.
    lia. }
  assert (Hp : places y = j).
  { apply places_unique; [assumption|assumption| |].
    - rewrite Hy, <- Zle_Qle. exact Hlo.
    - intros Hj'. rewrite Hy, <- Zlt_Qlt. exact (Hhi Hj'). }
  rewrite fl_unfold. unfold significand. rewrite Hp.
  rewrite (roundHalfEven_proper _ _ Hy), roundHalfEven_Z. reflexivity.
Qed.

(** Rounding is idempotent: the result of a rounding is a double. *)
Lemma fl_idem (x : Q) : (fl (fl x) == fl x)%Q.
Proof.
  assert (Hpos : ∀ x, (0 < x)%Q → (fl (fl x) == fl x)%Q).
  { clear x. intros x Hx.
    destruct (significand_bounds x Hx) as [Hlo Hhi].
    pose proof (places_nonneg x) as Hj.
    set (j := places x) in *.
    set (m := roundHalfEven (x * inject_Z (2 ^ j))) in *.
    rewrite (fl_unfold x). unfold significand. fold j. fold m.
    destruct (Z.eq_dec j 0%Z) as [Hj0|Hj0].
    - rewrite Hj0. change (m # Z.to_pos (2 ^ 0)) with (inject_Z m).
      exact (fl_Z m).
    - specialize (Hhi ltac:(lia)).
      destruct (Z.eq_dec m (2 ^ 53)%Z) as [Hm|Hm].
      + assert (Heq : (m # Z.to_pos (2 ^ j)
                       == 2 ^ 52 # Z.to_pos (2 ^ (j - 1)))%Q).
        { unfold Qeq. cbn [Qnum Qden].
          rewrite !Z2Pos.id by (apply pow2_pos; lia).
          rewrite Hm. replace j with (Z.succ (j - 1)) at 2 by lia.
          rewrite Z.pow_succ_r by lia.
          change (2 ^ 53)%Z with (2 * 2 ^ 52)%Z. ring. }
        rewrite Heq. apply fl_scaled; [lia|lia|].
        intros _. reflexivity.
      + apply fl_scaled; [lia|lia|]. intros _. lia. }
  destruct (Qlt_le_dec 0 x) as [Hx|Hx]; [apply Hpos, Hx|].
  destruct (Qlt_le_dec x 0) as [Hx'|Hx'].
  - assert (Hopp : (fl (fl (- x)) == fl (- x))%Q) by (apply Hpos; lra).
    rewrite (fl_opp x) in Hopp. rewrite fl_opp in Hopp. lra.
  - assert (Hz : (x == 0)%Q) by lra.
    rewrite Hz. change 0%Q with (inject_Z 0). rewrite !fl_Z. reflexivity.
Qed.

(** A number whose scaled value is an integer is kept as it is. *)
Lemma fl_exact (x : Q) (z : Z) :
  (x * inject_Z (2 ^ places x) == inject_Z z)%Q → (fl x == x)%Q.
Proof.
  intros Hz. rewrite fl_unfold. unfold significand.
  rewrite (roundHalfEven_proper _ _ Hz), roundHalfEven_Z.
  pose proof (pow2_pos _ (places_nonneg x)) as Hs.
  revert Hz. generalize (2 ^ places x)%Z Hs. intros s Hs' Hz.
  destruct x as [n d].
  unfold Qeq, Qmult, inject_Z in *. cbn [Qnum Qden] in *.
  rewrite Z2Pos.id by assumption. rewrite Pos.mul_1_r, Z.mul_1_r in Hz. lia.
Qed.

(** A fraction [n / 2^j] whose numerator has at most 53 bits is a
    double. *)
Lemma fl_dyadic (n j : Z) :
  (0 <= j)%Z → (Z.abs n <= 2 ^ 53)%Z →
  (fl (n # Z.to_pos (2 ^ j)) == n # Z.to_pos (2 ^ j))%Q.
Proof.
  assert (Hpos : ∀ n j, (0 <= j)%Z → (0 < n <= 2 ^ 53)%Z →
                 (fl (n # Z.to_pos (2 ^ j)) == n # Z.to_pos (2 ^ j))%Q).
  { clear n j. intros n j Hj Hn.
    pose proof (pow2_pos j Hj) as Hsj.
    set (x := n # Z.to_pos (2 ^ j)).
    assert (Hx : (0 < x)%Q) by (unfold x, Qlt; cbn [Qnum Qden]; lia).
    destruct (places_spec x Hx) as [Hlo _].
    pose proof (places_nonneg x) as Hp.
    pose proof (pow2_pos _ Hp) as Hsp.
    set (p := places x) in *.
    assert (Hlo' : (2 ^ 52 * 2 ^ j <= n * 2 ^ p)%Z).
    { unfold x, Qle, Qmult, inject_Z in Hlo. cbn [Qnum Qden] in Hlo.
      rewrite Pos.mul_1_r, Z.mul_1_r, Z2Pos.id in Hlo by assumption.
      exact Hlo. }
    assert (Hscaled : ∀ z, (n * 2 ^ p = z * 2 ^ j)%Z →
                      (x * inject_Z (2 ^ p) == inject_Z z)%Q).
    { intros z Hz. unfold x, Qeq, Qmult, inject_Z. cbn [Qnum Qden].
      rewrite Pos.mul_1_r, Z.mul_1_r, Z2Pos.id by assumption. exact Hz. }
    destruct (Z_le_gt_dec j p) as [Hjp|Hjp].
    - apply (fl_exact x (n * 2 ^ (p - j))), Hscaled.
      rewrite <- Z.mul_assoc, <- Z.pow_add_r by lia. do 2 f_equal. lia.
    - pose proof (pow2_step p j ltac:(lia)) as Hstep.
      change (2 ^ 53)%Z with (2 * 2 ^ 52)%Z in Hn.
      assert (HK : (0 < 2 ^ 52)%Z) by reflexivity.
      set (K := (2 ^ 52)%Z) in *. clearbody K.
      assert (Hn53 : n = (2 * K)%Z) by nia.
      assert (Hj1 : (2 ^ j = 2 * 2 ^ p)%Z) by nia.
      apply (fl_exact x K), Hscaled. rewrite Hn53, Hj1. ring. }
  intros Hj Hn.
  destruct (Z.lt_trichotomy n 0) as [Hneg|[Hzero|Hposn]].
  - assert (Hopp : (fl (- n # Z.to_pos (2 ^ j)) == - n # Z.to_pos (2 ^ j))%Q)
      by (apply Hpos; lia).
    assert (Heq : (n # Z.to_pos (2 ^ j) == - (- n # Z.to_pos (2 ^ j)))%Q)
      by (unfold Qeq; cbn [Qnum Qden Qopp]; lia).
    rewrite (fl_comp _ _ Heq), fl_opp, Hopp. symmetry. exact Heq.
  - rewrite Hzero.
    assert (Hz : (0 # Z.to_pos (2 ^ j) == inject_Z 0)%Q) by reflexivity.
    rewrite Hz. exact (fl_Z 0).
  - apply Hpos; lia.
Qed.

Lemma fl_ge_Z (n : Z) (x : Q) : (inject_Z n <= x)%Q → (inject_Z n <= fl x)%Q.
Proof. intros Hx. rewrite <- (fl_Z n). apply fl_mono, Hx. Qed.

Lemma fl_le_Z (n : Z) (x : Q) : (x <= inject_Z n)%Q → (fl x <= inject_Z n)%Q.
Proof. intros Hx. rewrite <- (fl_Z n). apply fl_mono, Hx. Qed.

Lemma isNumber_fl (x : Q) : isNumber (fl x).
Proof. exact (fl_idem x). Qed.

Lemma isNumber_Z (n : Z) : isNumber (inject_Z n).
Proof. exact (fl_Z n). Qed.

Lemma isNumber_Qmax (x y : Q) : isNumber x → isNumber y → isNumber (Qmax x y).
Proof.
  intros Hx Hy. unfold isNumber.
  destruct (Q.max_spec x y) as [[_ Hm]|[_ Hm]]; rewrite Hm; assumption.
Qed.

#[global] Instance fadd_proper : Proper (Qeq ==> Qeq ==> Qeq) fadd.
Proof. intros x x' Hx y y' Hy. unfold fadd. rewrite Hx, Hy. reflexivity. Qed.

#[global] Instance fsub_proper : Proper (Qeq ==> Qeq ==> Qeq) fsub.
Proof. intros x x' Hx y y' Hy. unfold fsub. rewrite Hx, Hy. reflexivity. Qed.

#[global] Instance fmul_proper : Proper (Qeq ==> Qeq ==> Qeq) fmul.
Proof. intros x x' Hx y y' Hy. unfold fmul. rewrite Hx, Hy. reflexivity. Qed.

Lemma fadd_Z (a b : Z) : (fadd (inject_Z a) (inject_Z b) == inject_Z (a + b))%Q.
Proof. unfold fadd. rewrite <- inject_Z_plus. exact (fl_Z _). Qed.

Lemma fsub_Z (a b : Z) : (fsub (inject_Z a) (inject_Z b) == inject_Z (a - b))%Q.
Proof.
  unfold fsub.
  assert (Heq : (inject_Z a - inject_Z b == inject_Z (a - b))%Q).
  { unfold Z.sub. rewrite inject_Z_plus, inject_Z_opp. reflexivity. }
  rewrite (fl_comp _ _ Heq). exact (fl_Z _).
Qed.

Lemma fmul_Z (a b : Z) : (fmul (inject_Z a) (inject_Z b) == inject_Z (a * b))%Q.
Proof. unfold fmul. rewrite <- inject_Z_mult. exact (fl_Z _). Qed.

(** A whole number of minutes in milliseconds, [x * 60 * 1000]: the
    products are exact. *)
Lemma fmul_minutes (x : Q) (k : Z) :
  (x == inject_Z k)%Q → (fmul (fmul x 60) 1000 == inject_Z (k * 60000))%Q.
Proof.
  intros Hx. rewrite Hx.
  change 60%Q with (inject_Z 60). change 1000%Q with (inject_Z 1000).
  rewrite !fmul_Z. f_equiv. lia.
Qed.

(** The age of a post in minutes, [timeSince / 60000], lies below a
    whole number [k] of minutes exactly when [timeSince] lies below
    [k * 60000]: the quotient is at most [k - 1 / 60000], which lies
    below the double [k - 2^-16]. *)
Lemma fdiv_minutes_lt (elapsed k : Z) :
  (Z.abs k < 2 ^ 36)%Z →
  (fdiv (inject_Z elapsed) 60000 < inject_Z k)%Q ↔ (elapsed < k * 60000)%Z.
Proof.
  intros Hk. unfold fdiv. split.
  - intros Hlt. destruct (Z_lt_ge_dec elapsed (k * 60000)) as [Hz|Hz];
      [exact Hz|exfalso].
    assert (Hq : (inject_Z k <= inject_Z elapsed / 60000)%Q).
    { apply Qle_shift_div_l; [reflexivity|].
      change 60000%Q with (inject_Z 60000).
      rewrite <- inject_Z_mult, <- Zle_Qle. lia. }
    apply fl_ge_Z in Hq. lra.
  - intros Hlt.
    set (D := (k * 2 ^ 16 - 1 # Z.to_pos (2 ^ 16))%Q).
    assert (HD : (fl D == D)%Q).
    { apply fl_dyadic; [lia|].
      change (2 ^ 36)%Z with 68719476736%Z in Hk.
      change (2 ^ 16)%Z with 65536%Z.
      change (2 ^ 53)%Z with 9007199254740992%Z. lia. }
    assert (HDk : (D < inject_Z k)%Q).
    { unfold D, Qlt, inject_Z. cbn [Qnum Qden]. lia. }
    assert (Hq : (inject_Z elapsed / 60000 <= D)%Q).
    { apply Qle_shift_div_r; [reflexivity|].
      unfold D, Qle, Qmult, inject_Z. cbn [Qnum Qden]. lia. }
    apply fl_mono in Hq. lra.
Qed.

(** Adding a number that is not negative to a double does not lower
    it. *)
Lemma fadd_ge (x y : Q) : isNumber x → (0 <= y)%Q → (x <= fadd x y)%Q.
Proof.
  intros Hx Hy. unfold isNumber in Hx. unfold fadd. rewrite <- Hx at 1.
  apply fl_mono. lra.
Qed.

End Doubles.

(** ** [Set] as a duplicate-free list *)

Lemma elem_of_setAdd (s : list jsstring) (y x : jsstring) :
  x ∈ setAdd s y ↔ x ∈ s ∨ x = y.
Proof.
  unfold setAdd. case_bool_decide as Hin.
  - split; [auto|]. intros [?| ->]; assumption.
  - rewrite elem_of_app, list_elem_of_singleton. reflexivity.
Qed.

Lemma NoDup_setAdd (s : list jsstring) (y : jsstring) :
  NoDup s → NoDup (setAdd s y).
Proof.
  intros Hs. unfold setAdd. case_bool_decide as Hin; [assumption|].
  apply NoDup_app. split; [assumption|]. split.
  - intros x Hx Hy. apply list_elem_of_singleton in Hy. subst. auto.
  - apply NoDup_singleton.
Qed.

Lemma elem_of_fold_setAdd (l acc : list jsstring) (x : jsstring) :
  x ∈ List.fold_left setAdd l acc ↔ x ∈ acc ∨ x ∈ l.
Proof.
  revert acc. induction l as [|y l IH]; intros acc; simpl.
  - rewrite elem_of_nil. tauto.
  - rewrite IH, elem_of_setAdd, elem_of_cons. intuition.
Qed.

Lemma NoDup_fold_setAdd (l acc : list jsstring) :
  NoDup acc → NoDup (List.fold_left setAdd l acc).
Proof.
  revert acc. induction l as [|y l IH]; intros acc Hacc; simpl.
  - assumption.
  - apply IH, NoDup_setAdd, Hacc.
Qed.

Lemma elem_of_newSet (l : list jsstring) (x : jsstring) :
  x ∈ newSet l ↔ x ∈ l.
Proof.
  unfold newSet. rewrite elem_of_fold_setAdd, elem_of_nil. tauto.
Qed.

Lemma NoDup_newSet (l : list jsstring) : NoDup (newSet l).
Proof. apply NoDup_fold_setAdd, NoDup_nil_2. Qed.

Lemma newSet_nonempty (l : list jsstring) : l ≠ [] → newSet l ≠ [].
Proof.
  destruct l as [|x l]; [congruence|]. intros _ Hnil.
  assert (Hx : x ∈ newSet (x :: l)) by (apply elem_of_newSet; left).
  rewrite Hnil in Hx. by apply elem_of_nil in Hx.
Qed.

Lemma splitSpacesFrom_nonempty (inRun : bool) (cur s : jsstring) :
  splitSpacesFrom inRun cur s ≠ [].
Proof.
  revert inRun cur. induction s as [|c s IH]; intros inRun cur; simpl.
  - discriminate.
  - destruct (isSpace c), inRun; try apply IH; discriminate.
Qed.

Section SimilarityFacts.

Context {host : Host}.

Lemma wordsOf_nonempty (text : jsstring) : wordsOf text ≠ [].
Proof. apply newSet_nonempty, splitSpacesFrom_nonempty. Qed.

Lemma elem_of_intersectionOf (wa wb : list jsstring) (x : jsstring) :
  x ∈ intersectionOf wa wb ↔ x ∈ wa ∧ x ∈ wb.
Proof.
  unfold intersectionOf.
  rewrite elem_of_newSet, list_elem_of_In, filter_In, <- list_elem_of_In.
  rewrite bool_decide_eq_true. reflexivity.
Qed.

Lemma elem_of_unionOf (wa wb : list jsstring) (x : jsstring) :
  x ∈ unionOf wa wb ↔ x ∈ wa ∨ x ∈ wb.
Proof. unfold unionOf. rewrite elem_of_newSet, elem_of_app. reflexivity. Qed.

Lemma unionOf_nonempty (wa wb : list jsstring) : wa ≠ [] → unionOf wa wb ≠ [].
Proof.
  intros Hwa. apply newSet_nonempty. destruct wa; [congruence|discriminate].
Qed.

Lemma intersection_le_union (wa wb : list jsstring) :
  (length (intersectionOf wa wb) <= length (unionOf wa wb))%nat.
Proof.
  apply submseteq_length, NoDup_submseteq; [apply NoDup_newSet|].
  intros x Hx. apply elem_of_intersectionOf in Hx.
  apply elem_of_unionOf. tauto.
Qed.

Lemma intersection_length_comm (wa wb : list jsstring) :
  length (intersectionOf wa wb) = length (intersectionOf wb wa).
Proof.
  apply Permutation_length, NoDup_Permutation; try apply NoDup_newSet.
  intros x. rewrite !elem_of_intersectionOf. tauto.
Qed.

Lemma union_length_comm (wa wb : list jsstring) :
  length (unionOf wa wb) = length (unionOf wb wa).
Proof.
  apply Permutation_length, NoDup_Permutation; try apply NoDup_newSet.
  intros x. rewrite !elem_of_unionOf. tauto.
Qed.

Lemma intersection_union_self (wa : list jsstring) :
  length (intersectionOf wa wa) = length (unionOf wa wa).
Proof.
  apply Permutation_length, NoDup_Permutation; try apply NoDup_newSet.
  intros x. rewrite elem_of_intersectionOf, elem_of_unionOf. tauto.
Qed.

Lemma union_length_pos (a b : jsstring) :
  (0 < length (unionOf (wordsOf a) (wordsOf b)))%nat.
Proof.
  pose proof (unionOf_nonempty (wordsOf a) (wordsOf b) (wordsOf_nonempty a)).
  destruct (unionOf _ _); [congruence|simpl; lia].
Qed.

End SimilarityFacts.

(** ** Similarity *)

(** C8, as amended: for all texts [a] and [b], [similarity a b] equals
    [similarity b a], is a rational between 0 and 1, and [similarity a a]
    is 1; the union of the two token sets is never empty (a text without
    words still contributes the empty token), so the division is always
    defined and no case of an empty union exists. *)
Theorem similarity_is_jaccard `{Host} (a b : jsstring) :
  similarity a b = similarity b a
  ∧ (∃ q, similarity a b = Some q ∧ (0 <= q)%Q ∧ (q <= 1)%Q)
  ∧ (∃ q, similarity a a = Some q ∧ (q == 1)%Q)
  ∧ (0 < length (unionOf (wordsOf a) (wordsOf b)))%nat.
Proof.
  unfold similarity. repeat split.
  - rewrite intersection_length_comm, union_length_comm. reflexivity.
  - apply sizeRatio_bounds; [apply intersection_le_union|apply union_length_pos].
  - rewrite intersection_union_self.
    apply sizeRatio_one, union_length_pos.
  - apply union_length_pos.
Qed.

(** C8, as the specification states it, fails for two empty texts: they
    have no word, so the union of their word sets is empty, and yet their
    similarity is 1, not 0. *)
Lemma similarity_empty_union_not_zero :
  ¬ (spec_unionOf (host := asciiHost) (lit "") (lit "") = [] →
     ∃ q, similarity (host := asciiHost) (lit "") (lit "") = Some q
          ∧ (q == 0)%Q).
Proof.
  intros Hclaim. destruct Hclaim as (q & Hq & Hzero); [reflexivity|].
  vm_compute in Hq. injection Hq as <-. discriminate Hzero.
Qed.

(** What the code computes on texts without words, and on the pair of
    scenario 1 once the trailing space is kept. *)
Example similarity_examples :
  similarity (host := asciiHost) (lit "") (lit "  ") = Some 1%Q
  ∧ similarity (host := asciiHost) (lit "") (lit "hello") = Some (0 # 2)%Q
  ∧ similarity (host := asciiHost) (lit "Hello") (lit "hello ") = Some (1 # 2)%Q
  ∧ similarity (host := asciiHost) (lit "a b c d e f") (lit "a b c d e f g")
    = Some (6 # 7)%Q.
Proof. vm_compute. repeat split. Qed.

(** ** Quiet hours *)

Lemma getHours_range (c : Clock) : (0 <= getHours c < 24)%Z.
Proof. unfold getHours. apply Z.mod_pos_bound. lia. Qed.

(** C5: with [h] the current local hour, when [quietHoursStart] is greater
    than [quietHoursEnd] quiet hours are active iff [h >= start] or
    [h < end]; otherwise they are active iff [start <= h] and [h < end].
    With start 23 and end 6, hours 0 and 23 are quiet and hour 12 is not. *)
Theorem isQuietHours_membership (safety : SafetySettings) (c : Clock) :
  ((quietHoursEnd safety < quietHoursStart safety)%Q →
     (isQuietHours safety c = true ↔
        (quietHoursStart safety <= inject_Z (getHours c))%Q
        ∨ (inject_Z (getHours c) < quietHoursEnd safety)%Q))
  ∧ ((quietHoursStart safety <= quietHoursEnd safety)%Q →
     (isQuietHours safety c = true ↔
        (quietHoursStart safety <= inject_Z (getHours c))%Q
        ∧ (inject_Z (getHours c) < quietHoursEnd safety)%Q))
  ∧ (quietHoursStart safety = 23%Q → quietHoursEnd safety = 6%Q →
       (getHours c = 0%Z → isQuietHours safety c = true)
       ∧ (getHours c = 23%Z → isQuietHours safety c = true)
       ∧ (getHours c = 12%Z → isQuietHours safety c = false)).
Proof.
  unfold isQuietHours. split; [|split].
  - intros Hov. apply Qltb_lt in Hov as ->.
    rewrite orb_true_iff, Qle_bool_iff, Qltb_lt. tauto.
  - intros Hsame. apply Qltb_ge in Hsame as ->.
    rewrite andb_true_iff, Qle_bool_iff, Qltb_lt. tauto.
  - intros -> ->. repeat split; intros ->; reflexivity.
Qed.

(** The three hours of C5 on the default settings: midnight, 23:00 and
    noon UTC of 1 January 2024. *)
Lemma isQuietHours_membership_witness :
  isQuietHours DEFAULT_SAFETY {| now := 1704067200000; utcOffset := 0 |} = true
  ∧ isQuietHours DEFAULT_SAFETY {| now := 1704150000000; utcOffset := 0 |} = true
  ∧ isQuietHours DEFAULT_SAFETY {| now := 1704110400000; utcOffset := 0 |} = false.
Proof.
  split; [|split].
  - exact (proj1 (proj2 (proj2 (isQuietHours_membership DEFAULT_SAFETY
             {| now := 1704067200000; utcOffset := 0 |})) eq_refl eq_refl)
             eq_refl).
  - exact (proj1 (proj2 (proj2 (proj2 (isQuietHours_membership DEFAULT_SAFETY
             {| now := 1704150000000; utcOffset := 0 |})) eq_refl eq_refl))
             eq_refl).
  - exact (proj2 (proj2 (proj2 (proj2 (isQuietHours_membership DEFAULT_SAFETY
             {| now := 1704110400000; utcOffset := 0 |})) eq_refl eq_refl))
             eq_refl).
Defined.

(** ** The store *)

Lemma checkDailyReset_postHistory (st : StoreSchema) (c : Clock) :
  postHistory (checkDailyReset st c) = postHistory st.
Proof. unfold checkDailyReset. destruct (negb _); reflexivity. Qed.

Lemma checkDailyReset_lastPostAt (st : StoreSchema) (c : Clock) :
  lastPostAt (checkDailyReset st c) = lastPostAt st.
Proof. unfold checkDailyReset. destruct (negb _); reflexivity. Qed.

Lemma checkDailyReset_rateLimit (st : StoreSchema) (c : Clock) :
  rateLimit (checkDailyReset st c) = rateLimit st.
Proof. unfold checkDailyReset. destruct (negb _); reflexivity. Qed.

Lemma checkDailyReset_dailyPostDate (st : StoreSchema) (c : Clock) :
  dailyPostDate (checkDailyReset st c) = Some (getTodayString c).
Proof.
  unfold checkDailyReset. case_bool_decide as Hd; simpl; [assumption|reflexivity].
Qed.

(** The counter after the rollover check: kept on the stored day, zero on
    any other day. *)
Lemma checkDailyReset_dailyPostCount (st : StoreSchema) (c : Clock) :
  dailyPostCount (checkDailyReset st c)
  = if bool_decide (dailyPostDate st = Some (getTodayString c))
    then dailyPostCount st else 0%Z.
Proof. unfold checkDailyReset. case_bool_decide; reflexivity. Qed.

Lemma checkDailyReset_idem (st : StoreSchema) (c : Clock) :
  checkDailyReset (checkDailyReset st c) c = checkDailyReset st c.
Proof.
  unfold checkDailyReset at 1.
  rewrite checkDailyReset_dailyPostDate, bool_decide_eq_true_2; reflexivity.
Qed.

(** ** The verdict of [checkSafety], rule by rule *)

Section Verdict.

Context {host : Host}.
Variable safety : SafetySettings.

Lemma checkSafety_store (st : StoreSchema) (c : Clock) (text : jsstring) :
  (checkSafety safety st c text).2 = checkDailyReset st c.
Proof. reflexivity. Qed.

Lemma checkSafety_errors (st : StoreSchema) (c : Clock) (text : jsstring) :
  errors (checkSafety safety st c text).1
  = rateLimitErrors st c
    ++ dailyLimitErrors safety (dailyPostCount (checkDailyReset st c))
    ++ duplicateErrors safety st c text
    ++ hashtagErrors text.
Proof.
  unfold checkSafety, rateLimitErrors, rateLimitExhausted, dailyLimitErrors,
    duplicateErrors, hashtagErrors.
  cbn [fst errors]. rewrite checkDailyReset_postHistory.
  destruct (rateLimit st) as [rl|]; [destruct (_ && _)|];
    destruct (Qle_bool _ _); destruct (findDuplicate _ _ _ _);
    destruct (5 <? _)%nat; reflexivity.
Qed.

Lemma checkSafety_warnings (st : StoreSchema) (c : Clock) (text : jsstring) :
  warnings (checkSafety safety st c text).1
  = dailyLimitWarnings safety (dailyPostCount (checkDailyReset st c))
    ++ quietHoursWarnings safety c
    ++ similarWarnings safety st c text
    ++ hashtagWarnings text
    ++ shortenerWarnings text
    ++ mentionWarnings text
    ++ intervalWarnings safety st c.
Proof.
  unfold checkSafety, dailyLimitWarnings, quietHoursWarnings,
    similarWarnings, reportedSimilar, hashtagWarnings, shortenerWarnings,
    mentionWarnings, intervalWarnings.
  cbn [fst warnings].
  rewrite checkDailyReset_postHistory, checkDailyReset_lastPostAt.
  destruct (Qle_bool (maxPostsPerDay safety) _);
    [|destruct (Qle_bool (fsub (maxPostsPerDay safety) 2) _)];
    destruct (enableQuietHours safety && isQuietHours safety c);
    (destruct (findSimilar _ _ _ _) as [s|]; [destruct (negb _)|]);
    destruct (3 <? _)%nat; destruct (hasUrlShortener text);
    destruct (5 <? _)%nat;
    (destruct (lastPostAt st) as [lastPost|];
     [destruct (negb (lastPost =? 0)%Z); [destruct (Qltb _ _)|]|]);
    reflexivity.
Qed.

Lemma checkSafety_suggestions (st : StoreSchema) (c : Clock)
    (text : jsstring) :
  suggestions (checkSafety safety st c text).1
  = similarSuggestions safety st c text ++ shortenerSuggestions text.
Proof.
  unfold checkSafety, similarSuggestions, reportedSimilar,
    shortenerSuggestions.
  cbn [fst suggestions]. rewrite checkDailyReset_postHistory.
  (destruct (findSimilar _ _ _ _) as [s|]; [destruct (negb _)|]);
    destruct (hasUrlShortener text); reflexivity.
Qed.

Lemma checkSafety_safe (st : StoreSchema) (c : Clock) (text : jsstring) :
  safe (checkSafety safety st c text).1 = true
  ↔ errors (checkSafety safety st c text).1 = [].
Proof.
  unfold checkSafety. cbn [fst safe errors].
  rewrite bool_decide_eq_true. apply length_zero_iff_nil.
Qed.

Lemma checkSafety_unsafe (st : StoreSchema) (c : Clock) (text : jsstring)
    (e : ErrorMsg) :
  e ∈ errors (checkSafety safety st c text).1 →
  safe (checkSafety safety st c text).1 = false.
Proof.
  intros He. apply not_true_is_false. intros Hsafe.
  apply checkSafety_safe in Hsafe. rewrite Hsafe in He.
  by apply elem_of_nil in He.
Qed.

End Verdict.

(** ** Searching the history *)

Lemma find_first {A} (f : A -> bool) (pre : list A) (x : A) (post : list A) :
  (∀ y, y ∈ pre → f y = false) → f x = true →
  List.find f (pre ++ x :: post) = Some x.
Proof.
  induction pre as [|y pre IH]; intros Hpre Hx; simpl.
  - rewrite Hx. reflexivity.
  - rewrite (Hpre y) by left. apply IH; [|assumption].
    intros z Hz. apply Hpre. by right.
Qed.

Lemma find_present {A} (f : A -> bool) (l : list A) (x : A) :
  x ∈ l → f x = true → ∃ y, List.find f l = Some y ∧ y ∈ l ∧ f y = true.
Proof.
  intros Hin Hx. destruct (List.find f l) as [y|] eqn:Hfind.
  - apply find_some in Hfind as [Hy Hfy]. exists y.
    rewrite list_elem_of_In. auto.
  - apply list_elem_of_In in Hin.
    rewrite (find_none _ _ Hfind x Hin) in Hx. discriminate.
Qed.

Section History.

Context {host : Host}.
Variable safety : SafetySettings.

Lemma withinDedupeWindow_cutoff (c : Clock) (h : PostHistory) :
  withinDedupeWindow safety c h
  ↔ Qltb (dedupeCutoff safety c) (inject_Z (h_timestamp h)) = true.
Proof.
  rewrite Qltb_lt. reflexivity.
Qed.

Lemma nearDuplicate_test (c : Clock) (text : jsstring) (h : PostHistory) :
  nearDuplicate safety c text h
  ↔ Qltb (dedupeCutoff safety c) (inject_Z (h_timestamp h))
    && verySimilar text h = true.
Proof.
  unfold nearDuplicate, verySimilar.
  rewrite andb_true_iff, <- withinDedupeWindow_cutoff.
  destruct (similarity text (h_text h)) as [q|].
  - rewrite Qltb_lt. split.
    + intros (Hw & q' & [= <-] & Hq). auto.
    + intros [Hw Hq]. eauto.
  - split.
    + intros (_ & q' & [=] & _).
    + intros [_ [=]].
Qed.

(** Texts with the same normal form have the same hash. *)
Lemma hashContent_normalize (a b : jsstring) :
  normalize a = normalize b → hashContent a = hashContent b.
Proof. unfold hashContent. intros ->. reflexivity. Qed.

End History.

(** ** The normal form of a text *)

Lemma nonEmpty_true (p : jsstring) : p ≠ [] → nonEmpty p = true.
Proof.
  intros Hp. unfold nonEmpty. rewrite bool_decide_eq_false_2 by assumption.
  reflexivity.
Qed.

Lemma spaced_nonempty (ps : list jsstring) :
  ps ≠ [] → spaced ps = 32%N :: joinSpaces ps.
Proof. destruct ps; [congruence|reflexivity]. Qed.

(** Collapsing the white space of a text joins the pieces of its split by
    single spaces. *)
Lemma collapseSpaces_join (s : jsstring) :
  ∀ (inRun : bool) (cur : jsstring), (inRun = true → cur = []) →
  rev cur ++ collapseSpaces inRun s = joinSpaces (splitSpacesFrom inRun cur s).
Proof.
  induction s as [|c s IH]; intros r cur Hr; simpl.
  - reflexivity.
  - destruct (isSpace c).
    + destruct r.
      * rewrite (Hr eq_refl). apply (IH true []). reflexivity.
      * simpl. rewrite spaced_nonempty by apply splitSpacesFrom_nonempty.
        rewrite <- (IH true []) by reflexivity. reflexivity.
    + rewrite <- (IH false (c :: cur)) by discriminate.
      simpl. rewrite <- app_assoc. reflexivity.
Qed.

Lemma splitSpacesFrom_spaceFree (s : jsstring) :
  ∀ (inRun : bool) (cur : jsstring), spaceFree cur →
  Forall spaceFree (splitSpacesFrom inRun cur s).
Proof.
  induction s as [|c s IH]; intros r cur Hcur; simpl.
  - constructor; [|constructor]. unfold spaceFree. apply Forall_rev, Hcur.
  - destruct (isSpace c) eqn:Hc.
    + destruct r.
      * apply IH. constructor.
      * constructor; [apply Forall_rev, Hcur|]. apply IH. constructor.
    + apply IH. constructor; assumption.
Qed.

Lemma innerNonEmpty_tail (ps : list jsstring) :
  innerNonEmpty ps → innerNonEmpty (tail ps).
Proof. destruct ps as [|p [|q ps]]; simpl; tauto. Qed.

(** Between two runs of white space there is a word: of the pieces of a
    split only the first and the last may be empty. *)
Lemma splitSpacesFrom_inner (s : jsstring) :
  ∀ (inRun : bool) (cur : jsstring),
  (inRun = true ∨ cur ≠ [] → innerNonEmpty (splitSpacesFrom inRun cur s))
  ∧ innerNonEmpty (tail (splitSpacesFrom inRun cur s)).
Proof.
  induction s as [|c s IH]; intros r cur; simpl.
  - tauto.
  - destruct (isSpace c).
    + destruct r.
      * split; [intros _|apply innerNonEmpty_tail]; apply IH; auto.
      * pose proof (splitSpacesFrom_nonempty true [] s) as Hne.
        destruct (IH true []) as [Hall _].
        specialize (Hall (or_introl eq_refl)).
        split; [|exact Hall].
        intros [[=]|Hcur]. simpl.
        destruct (splitSpacesFrom true [] s); [congruence|].
        split; [|exact Hall]. intros Hrev. apply Hcur.
        apply (f_equal (@rev N)) in Hrev.
        rewrite rev_involutive in Hrev. exact Hrev.
    + destruct (IH false (c :: cur)) as [Hall _].
      assert (Hgood : innerNonEmpty (splitSpacesFrom false (c :: cur) s))
        by (apply Hall; right; discriminate).
      split; [intros _; exact Hgood|apply innerNonEmpty_tail, Hgood].
Qed.

Lemma trimEnd_snoc_space (x : jsstring) (c : N) :
  isSpace c = true → trimEnd (x ++ [c]) = trimEnd x.
Proof.
  intros Hc. unfold trimEnd. rewrite rev_app_distr. simpl. rewrite Hc.
  reflexivity.
Qed.

Lemma trimEnd_snoc_nonspace (x : jsstring) (c : N) :
  isSpace c = false → trimEnd (x ++ [c]) = x ++ [c].
Proof.
  intros Hc. unfold trimEnd. rewrite rev_app_distr. simpl. rewrite Hc.
  simpl. rewrite rev_involutive. reflexivity.
Qed.

Lemma trimStart_word (w z : jsstring) : word w → trimStart (w ++ z) = w ++ z.
Proof.
  intros [Hne Hfree]. destruct w as [|c w]; [congruence|].
  apply Forall_cons in Hfree as [Hc _]. simpl. rewrite Hc. reflexivity.
Qed.

Lemma filter_nonEmpty_words (ps : list jsstring) :
  Forall spaceFree ps → Forall word (List.filter nonEmpty ps).
Proof.
  induction 1 as [|p ps Hp Hps IH]; simpl; [constructor|].
  unfold nonEmpty at 1. case_bool_decide as Hempty; simpl; [exact IH|].
  constructor; [split; assumption|exact IH].
Qed.

(** Words joined by spaces end with a unit that is not white space. *)
Lemma joined_words_end (w : jsstring) (ws : list jsstring) :
  word w → Forall word ws →
  ∃ y c, w ++ spaced ws = y ++ [c] ∧ isSpace c = false.
Proof.
  intros Hw Hws. revert w Hw.
  induction Hws as [|v ws Hv Hws IH]; intros w [Hne Hfree].
  - simpl. rewrite app_nil_r.
    destruct (exists_last Hne) as (y & c & ->). exists y, c.
    split; [reflexivity|].
    apply Forall_app in Hfree as [_ Hc].
    apply Forall_cons in Hc as [Hc _]. exact Hc.
  - destruct (IH v Hv) as (y & c & Hy & Hc).
    exists (w ++ 32%N :: y), c. split; [|exact Hc].
    simpl. rewrite Hy, <- app_assoc. reflexivity.
Qed.

(** Dropping the empty pieces drops at most one space, at the end. *)
Lemma spaced_filter (ps : list jsstring) :
  innerNonEmpty ps →
  ∃ suf, (suf = [] ∨ suf = [32%N])
         ∧ spaced ps = spaced (List.filter nonEmpty ps) ++ suf.
Proof.
  induction ps as [|p ps IH]; intros Hin.
  - exists []. auto.
  - destruct ps as [|q ps].
    + simpl. unfold nonEmpty. case_bool_decide as Hp; simpl.
      * subst p. exists [32%N]. auto.
      * exists []. rewrite !app_nil_r. auto.
    + destruct Hin as [Hp Hin]. destruct (IH Hin) as (suf & Hsuf & Heq).
      exists suf. split; [exact Hsuf|].
      change (spaced (p :: q :: ps)) with (32%N :: p ++ spaced (q :: ps)).
      rewrite Heq.
      change (List.filter nonEmpty (p :: q :: ps))
        with (if nonEmpty p then p :: List.filter nonEmpty (q :: ps)
              else List.filter nonEmpty (q :: ps)).
      rewrite (nonEmpty_true p Hp). simpl.
      rewrite <- app_assoc. reflexivity.
Qed.

Lemma trim_join (p0 : jsstring) (rest : list jsstring) :
  Forall spaceFree (p0 :: rest) → innerNonEmpty rest →
  trim (joinSpaces (p0 :: rest))
  = joinSpaces (List.filter nonEmpty (p0 :: rest)).
Proof.
  intros Hfree Hin. apply Forall_cons in Hfree as [Hp0 Hrest].
  destruct (spaced_filter rest Hin) as (suf & Hsuf & Heq).
  pose proof (filter_nonEmpty_words rest Hrest) as Hws.
  set (ws := List.filter nonEmpty rest) in *.
  assert (Hend : ∀ w ws', word w → Forall word ws' →
                 trimEnd ((w ++ spaced ws') ++ suf) = w ++ spaced ws').
  { intros w ws' Hw Hws'.
    destruct (joined_words_end w ws' Hw Hws') as (y & c & -> & Hc).
    destruct Hsuf as [->| ->].
    - rewrite app_nil_r. apply trimEnd_snoc_nonspace, Hc.
    - rewrite trimEnd_snoc_space by reflexivity.
      apply trimEnd_snoc_nonspace, Hc. }
  change (joinSpaces (p0 :: rest)) with (p0 ++ spaced rest).
  change (List.filter nonEmpty (p0 :: rest))
    with (if nonEmpty p0 then p0 :: ws else ws).
  rewrite Heq. destruct (decide (p0 = [])) as [Hempty|Hempty].
  - subst p0. simpl. destruct ws as [|w ws'].
    + destruct Hsuf as [->| ->]; reflexivity.
    + apply Forall_cons in Hws as [Hw Hws'].
      change (spaced (w :: ws')) with (32%N :: w ++ spaced ws').
      unfold trim. simpl.
      rewrite <- app_assoc, trimStart_word by assumption.
      rewrite app_assoc. apply Hend; assumption.
  - rewrite (nonEmpty_true p0 Hempty).
    change (joinSpaces (p0 :: ws)) with (p0 ++ spaced ws).
    unfold trim. rewrite trimStart_word by (split; assumption).
    rewrite app_assoc. apply Hend; [split|]; assumption.
Qed.

(** [s.replace(/\s+/g, ' ').trim()] is the words of [s] joined by single
    spaces. *)
Lemma trim_collapseSpaces (s : jsstring) :
  trim (collapseSpaces false s) = joinSpaces (words s).
Proof.
  pose proof (collapseSpaces_join s false [] ltac:(discriminate)) as Hjoin.
  simpl in Hjoin. rewrite Hjoin. unfold words, splitSpaces.
  pose proof (splitSpacesFrom_spaceFree s false [] ltac:(constructor))
    as Hfree.
  pose proof (proj2 (splitSpacesFrom_inner s false [])) as Hin.
  pose proof (splitSpacesFrom_nonempty false [] s) as Hne.
  destruct (splitSpacesFrom false [] s) as [|p0 rest]; [congruence|].
  apply trim_join; assumption.
Qed.

(** The normal form of a text is its lower-case words joined by single
    spaces.  Two texts that differ only by letter case and by white space
    have the same lower-case words, hence the same normal form and the same
    hash. *)
Lemma normalize_words `{Host} (text : jsstring) :
  normalize text = joinSpaces (words (toLowerCase text)).
Proof. apply trim_collapseSpaces. Qed.

Lemma same_words_same_hash `{Host} (a b : jsstring) :
  words (toLowerCase a) = words (toLowerCase b) →
  normalize a = normalize b ∧ hashContent a = hashContent b.
Proof.
  intros Hwords.
  assert (Hnorm : normalize a = normalize b)
    by (rewrite !normalize_words, Hwords; reflexivity).
  split; [exact Hnorm|]. apply hashContent_normalize, Hnorm.
Qed.

(** ** Duplicates *)

(** C1, as amended: if the stored history holds a record, written by
    [recordPost], of a text whose normal form (lower case, white space
    collapsed, trimmed) is that of the candidate, and the record is younger
    than [dedupeWindowDays] days, then the verdict of [checkSafety] holds a
    duplicate-content error and is not safe.  By [same_words_same_hash]
    this is the case of every candidate that differs from the recorded
    text only by letter case and by white space.  The condition is on the
    stored history: [recordPost] drops the records that are 30 days old
    (see [elem_of_recordPost]) and [clearHistory] drops them all, whatever
    [dedupeWindowDays] is. *)
Theorem duplicate_content_is_an_error `{Host} (safety : SafetySettings)
    (st : StoreSchema) (c : Clock) (text : jsstring) (h : PostHistory) :
  h ∈ postHistory st →
  h_hash h = hashContent (h_text h) →
  normalize (h_text h) = normalize text →
  withinDedupeWindow safety c h →
  (∃ d, d ∈ postHistory st
        ∧ h_hash d = hashContent text
        ∧ withinDedupeWindow safety c d
        ∧ DuplicateContent (timeAgo c (h_timestamp d))
          ∈ errors (checkSafety safety st c text).1)
  ∧ safe (checkSafety safety st c text).1 = false.
Proof.
  intros Hin Hhash Hnorm Hwin.
  assert (Hfound : ∃ d, findDuplicate safety (postHistory st) c
                          (hashContent text) = Some d
                        ∧ d ∈ postHistory st
                        ∧ bool_decide (h_hash d = hashContent text)
                          && Qltb (dedupeCutoff safety c)
                                  (inject_Z (h_timestamp d)) = true).
  { apply find_present with (x := h); [assumption|].
    rewrite andb_true_iff, bool_decide_eq_true.
    rewrite <- withinDedupeWindow_cutoff.
    split; [|assumption].
    rewrite Hhash. apply hashContent_normalize, Hnorm. }
  destruct Hfound as (d & Hfind & Hd & Htest).
  apply andb_true_iff in Htest as [Hdh Hdw].
  apply bool_decide_eq_true in Hdh.
  apply withinDedupeWindow_cutoff in Hdw.
  assert (Herr : DuplicateContent (timeAgo c (h_timestamp d))
                 ∈ errors (checkSafety safety st c text).1).
  { rewrite checkSafety_errors. unfold duplicateErrors. rewrite Hfind.
    rewrite !elem_of_app. right; right; left. left. }
  split.
  - exists d. auto.
  - eapply checkSafety_unsafe, Herr.
Qed.

(** Scenario 1: "Hello" was posted at noon; "hello " (another case, a
    trailing space), evaluated one minute later under the default
    settings, is a duplicate. *)
Lemma duplicate_content_is_an_error_witness :
  safe (checkSafety (host := asciiHost) DEFAULT_SAFETY storeAfterHello
          (later noon minute) (lit "hello ")).1 = false.
Proof.
  refine (proj2 (duplicate_content_is_an_error (H := asciiHost)
                   DEFAULT_SAFETY storeAfterHello (later noon minute)
                   (lit "hello ")
                   {| h_id := "1"; h_text := lit "Hello";
                      h_hash := lit "5d41402abc4b2a76b9719d911017c592";
                      h_timestamp := 1704110400000; h_mediaIds := None |}
                   _ _ _ _)).
  - vm_compute. left.
  - vm_compute. reflexivity.
  - vm_compute. reflexivity.
  - vm_compute. reflexivity.
Defined.

(** C1, as the specification states it, fails when [dedupeWindowDays]
    exceeds the 30 days for which [recordPost] keeps a record.  With a
    window of 60 days, "Hello" is recorded at noon and "Something else" 32
    days later, which prunes the record of "Hello"; an hour later "hello "
    is evaluated: "Hello" was recorded within the window, and the verdict
    holds no error. *)
Lemma recorded_post_forgotten_after_thirty_days :
  ¬ ((∃ h, h ∈ postHistory storeAfterHelloSixty
           ∧ h_timestamp h = now noon
           ∧ normalize (host := asciiHost) (h_text h)
             = normalize (host := asciiHost) (lit "hello ")
           ∧ withinDedupeWindow sixtyDayWindow
               (later noon (32 * day + hour)) h) →
     ∃ posted,
       DuplicateContent posted
       ∈ errors (checkSafety (host := asciiHost) sixtyDayWindow
                   storeAMonthLater (later noon (32 * day + hour))
                   (lit "hello ")).1).
Proof.
  intros Hclaim. destruct Hclaim as [posted Herr].
  - exists {| h_id := "1"; h_text := lit "Hello";
              h_hash := lit "5d41402abc4b2a76b9719d911017c592";
              h_timestamp := 1704110400000; h_mediaIds := None |}.
    split; [vm_compute; left|]. split; [reflexivity|].
    split; vm_compute; reflexivity.
  - vm_compute in Herr. by apply elem_of_nil in Herr.
Qed.

(** ** Near duplicates *)

(** C2, as amended: let [s] be the first record of the history that lies
    within the dedupe window and whose similarity to the candidate is
    greater than 0.8.  The search of [checkSafety] returns [s], whatever
    its hash.  If the hash of [s] differs from the candidate's, the verdict
    holds the near-duplicate warning and the rephrasing suggestion; if it
    is the candidate's hash, the verdict holds neither, whatever records
    follow [s]. *)
Theorem near_duplicate_first_match `{Host} (safety : SafetySettings)
    (st : StoreSchema) (c : Clock) (text : jsstring)
    (pre : list PostHistory) (s : PostHistory) (rest : list PostHistory) :
  postHistory st = pre ++ s :: rest →
  (∀ h, h ∈ pre → ¬ nearDuplicate safety c text h) →
  nearDuplicate safety c text s →
  findSimilar safety (postHistory st) c text = Some s
  ∧ (h_hash s ≠ hashContent text →
       VerySimilar (option_map (fun q => mathRound (q * 100))
                               (similarity text (h_text s)))
         ∈ warnings (checkSafety safety st c text).1
       ∧ ConsiderRephrasing ∈ suggestions (checkSafety safety st c text).1)
  ∧ (h_hash s = hashContent text →
       (∀ p, VerySimilar p ∉ warnings (checkSafety safety st c text).1)
       ∧ ConsiderRephrasing ∉ suggestions (checkSafety safety st c text).1).
Proof.
  intros Hhist Hpre Hs.
  assert (Hfind : findSimilar safety (postHistory st) c text = Some s).
  { unfold findSimilar. rewrite Hhist. apply find_first.
    - intros h Hh. apply not_true_is_false. intros Htest.
      apply (Hpre h Hh). apply nearDuplicate_test, Htest.
    - apply nearDuplicate_test, Hs. }
  split; [assumption|]. split.
  - intros Hne.
    rewrite checkSafety_warnings, checkSafety_suggestions.
    unfold similarWarnings, similarSuggestions, reportedSimilar.
    rewrite Hfind, bool_decide_eq_false_2 by assumption.
    split.
    + do 2 (apply elem_of_app; right). apply elem_of_app; left. left.
    + apply elem_of_app; left. left.
  - intros Heq.
    rewrite checkSafety_warnings, checkSafety_suggestions.
    unfold similarWarnings, similarSuggestions, reportedSimilar.
    rewrite Hfind, bool_decide_eq_true_2 by assumption. simpl.
    split.
    + intros p Hp.
      unfold dailyLimitWarnings, quietHoursWarnings, hashtagWarnings,
        shortenerWarnings, mentionWarnings, intervalWarnings in Hp.
      elem_of_rules Hp.
    + intros Hp. unfold shortenerSuggestions in Hp. elem_of_rules Hp.
Qed.

(** After "a b c d e f" and "a b c d e f g" were posted, the candidate
    "A B C D E F  G H" is similar enough to the second record only (7 of 8
    words), and the hash of that record is not the candidate's: the warning
    is given, with 88 per cent. *)
Lemma near_duplicate_first_match_witness :
  VerySimilar (Some 88%Z)
    ∈ warnings (checkSafety (host := asciiHost) DEFAULT_SAFETY
                  storeAfterTwoPosts (later noon (2 * hour))
                  (lit "A B C D E F  G H")).1.
Proof.
  pose proof (near_duplicate_first_match (H := asciiHost)
            DEFAULT_SAFETY storeAfterTwoPosts (later noon (2 * hour))
            (lit "A B C D E F  G H")
            [ {| h_id := "1"; h_text := lit "a b c d e f";
                 h_hash := lit "6b7a59f92f21d297c0030fcfa69862eb";
                 h_timestamp := 1704110400000; h_mediaIds := None |} ]
            {| h_id := "2"; h_text := lit "a b c d e f g";
               h_hash := lit "bc9c5b4cbf463faa8ceaabf5aa92edd1";
               h_timestamp := 1704114000000; h_mediaIds := None |}
            []) as Hfirst.
  destruct Hfirst as (_ & Hwarn & _).
  - vm_compute. reflexivity.
  - intros h Hh. apply list_elem_of_singleton in Hh. subst h.
    intros (_ & q & Hq & Hlt). vm_compute in Hq. injection Hq as <-.
    vm_compute in Hlt. discriminate Hlt.
  - split; [vm_compute; reflexivity|].
    eexists. split; [vm_compute; reflexivity|]. vm_compute. reflexivity.
  - destruct Hwarn as [Hwarn _]; [vm_compute; discriminate|].
    exact Hwarn.
Defined.

(** C2, as the specification states it, fails: after "a b c d e f" and then
    "a b c d e f g" were posted, the candidate "a b c d e f" has a near
    duplicate with another hash within the window (the second record), but
    the search stops at the first record, which has the candidate's own
    hash, and the verdict holds neither warning nor suggestion. *)
Lemma near_duplicate_behind_exact_duplicate :
  ¬ ((∃ h, h ∈ postHistory storeAfterTwoPosts
           ∧ nearDuplicate (host := asciiHost) DEFAULT_SAFETY
               (later noon (2 * hour)) (lit "a b c d e f") h
           ∧ h_hash h ≠ hashContent (host := asciiHost) (lit "a b c d e f")) →
     (∃ p, VerySimilar p
           ∈ warnings (checkSafety (host := asciiHost) DEFAULT_SAFETY
                         storeAfterTwoPosts (later noon (2 * hour))
                         (lit "a b c d e f")).1)
     ∧ ConsiderRephrasing
       ∈ suggestions (checkSafety (host := asciiHost) DEFAULT_SAFETY
                        storeAfterTwoPosts (later noon (2 * hour))
                        (lit "a b c d e f")).1).
Proof.
  intros Hclaim. destruct Hclaim as [_ Hsug].
  - exists {| h_id := "2"; h_text := lit "a b c d e f g";
              h_hash := lit "bc9c5b4cbf463faa8ceaabf5aa92edd1";
              h_timestamp := 1704114000000; h_mediaIds := None |}.
    split; [vm_compute; right; left|]. split.
    + split; [vm_compute; reflexivity|].
      eexists. split; [vm_compute; reflexivity|]. vm_compute. reflexivity.
    + vm_compute. discriminate.
  - vm_compute in Hsug. by apply elem_of_nil in Hsug.
Qed.

(** ** The daily quota *)

(** C3: with [n] the daily count after the rollover check, if
    [n >= maxPostsPerDay] the verdict holds the daily-limit error (and is
    not safe); if [maxPostsPerDay - 2 <= n < maxPostsPerDay] (in particular
    if [n = maxPostsPerDay - 1]) the verdict holds the approaching-limit
    warning and no daily-limit error, and its errors are those of the
    other rules alone. *)
Theorem daily_quota_boundary `{Host} (safety : SafetySettings)
    (st : StoreSchema) (c : Clock) (text : jsstring) :
  ((maxPostsPerDay safety
    <= inject_Z (dailyPostCount (checkDailyReset st c)))%Q →
     DailyLimitReached (maxPostsPerDay safety)
       ∈ errors (checkSafety safety st c text).1
     ∧ safe (checkSafety safety st c text).1 = false)
  ∧ ((maxPostsPerDay safety - 2
      <= inject_Z (dailyPostCount (checkDailyReset st c)))%Q →
     (inject_Z (dailyPostCount (checkDailyReset st c))
      < maxPostsPerDay safety)%Q →
     ApproachingDailyLimit (dailyPostCount (checkDailyReset st c))
                           (maxPostsPerDay safety)
       ∈ warnings (checkSafety safety st c text).1
     ∧ (∀ m, DailyLimitReached m ∉ errors (checkSafety safety st c text).1)
     ∧ errors (checkSafety safety st c text).1
       = rateLimitErrors st c ++ duplicateErrors safety st c text
         ++ hashtagErrors text).
Proof.
  split.
  - intros Hreached. apply Qle_bool_iff in Hreached.
    assert (Herr : DailyLimitReached (maxPostsPerDay safety)
                   ∈ errors (checkSafety safety st c text).1).
    { rewrite checkSafety_errors. unfold dailyLimitErrors. rewrite Hreached.
      rewrite !elem_of_app. right; left. left. }
    split; [assumption|]. eapply checkSafety_unsafe, Herr.
  - intros Hnear Hbelow.
    (* the count is an integer, so the rounded difference is below it too *)
    apply fl_le_Z in Hnear. fold (fsub (maxPostsPerDay safety) 2) in Hnear.
    apply Qle_bool_iff in Hnear. apply Qle_bool_false in Hbelow.
    assert (Herrs : errors (checkSafety safety st c text).1
                    = rateLimitErrors st c ++ duplicateErrors safety st c text
                      ++ hashtagErrors text).
    { rewrite checkSafety_errors. unfold dailyLimitErrors. rewrite Hbelow.
      reflexivity. }
    split; [|split; [|assumption]].
    + rewrite checkSafety_warnings. unfold dailyLimitWarnings.
      rewrite Hbelow, Hnear. rewrite !elem_of_app. left. left.
    + intros m Hm. rewrite Herrs in Hm.
      unfold rateLimitErrors, duplicateErrors, hashtagErrors in Hm.
      elem_of_rules Hm.
Qed.

(** The boundary on the default settings (at most 8 posts a day): a count
    of 8 gives the error, a count of 7 the warning and no error. *)
Lemma daily_quota_boundary_witness :
  (DailyLimitReached 8
     ∈ errors (checkSafety (host := asciiHost) DEFAULT_SAFETY
                 (storeWithCount 8) noon (lit "hi")).1)
  ∧ (ApproachingDailyLimit 7 8
       ∈ warnings (checkSafety (host := asciiHost) DEFAULT_SAFETY
                     (storeWithCount 7) noon (lit "hi")).1
     ∧ errors (checkSafety (host := asciiHost) DEFAULT_SAFETY
                 (storeWithCount 7) noon (lit "hi")).1 = []).
Proof.
  split.
  - refine (proj1 (proj1 (daily_quota_boundary (H := asciiHost)
              DEFAULT_SAFETY (storeWithCount 8) noon (lit "hi")) _)).
    vm_compute. discriminate.
  - pose proof (proj2 (daily_quota_boundary (H := asciiHost)
              DEFAULT_SAFETY (storeWithCount 7) noon (lit "hi")))
      as Hnear.
    destruct Hnear as (Hwarn & _ & Herrs).
    + vm_compute. discriminate.
    + vm_compute. reflexivity.
    + split; [exact Hwarn|]. rewrite Herrs. vm_compute. reflexivity.
Defined.

(** ** The delay *)

Lemma inject_Z_pos (x y : Z) : (x <? y)%Z = true -> (0 < inject_Z (y - x))%Q.
Proof.
  intros Hlt. apply Z.ltb_lt in Hlt.
  change 0%Q with (inject_Z 0). rewrite <- Zlt_Qlt. lia.
Qed.

Lemma Qltb_proper (x y y' : Q) : (y == y')%Q -> Qltb x y = Qltb x y'.
Proof.
  intros Heq. destruct (Qltb x y') eqn:Hb.
  - apply Qltb_lt in Hb. apply Qltb_lt. lra.
  - apply Qltb_ge in Hb. apply Qltb_ge. lra.
Qed.

Lemma rateLimitExhausted_iff (st : StoreSchema) (c : Clock) :
  rateLimitExhausted st c = true
  ↔ ∃ rl, rateLimit st = Some rl ∧ remaining rl = 0%Z
          ∧ (now c < resetAt rl)%Z.
Proof.
  unfold rateLimitExhausted. destruct (rateLimit st) as [rl|].
  - rewrite andb_true_iff, Z.eqb_eq, Z.ltb_lt. split.
    + intros [Hr Ht]. eauto.
    + intros (rl' & [= <-] & Hr & Ht). auto.
  - split; [discriminate|]. intros (rl' & [=] & _).
Qed.

Section DelayFacts.

Context {host : Host}.
Variable safety : SafetySettings.

Lemma rateLimitCooldown_nonneg (st : StoreSchema) (c : Clock) :
  (0 <= rateLimitCooldown st c)%Q.
Proof.
  unfold rateLimitCooldown, rateLimitExhausted.
  destruct (rateLimit st) as [rl|]; [|lra].
  destruct (_ =? _)%Z; simpl; [|lra].
  destruct (_ <? _)%Z eqn:Hlt; [|lra].
  apply Qlt_le_weak, inject_Z_pos, Hlt.
Qed.

(** Inside the minimum interval the remaining wait is positive: the
    difference of two distinct doubles does not round to zero. *)
Lemma minIntervalRemaining_pos (st : StoreSchema) (c : Clock) :
  withinMinInterval safety st c = true →
  (0 < minIntervalRemaining safety st c)%Q.
Proof.
  intros Hw. unfold minIntervalRemaining. rewrite Hw.
  unfold withinMinInterval in Hw.
  destruct (lastPostAt st) as [lastPost|]; [|discriminate Hw].
  apply andb_true_iff in Hw as [_ Hw]. apply Qltb_lt in Hw.
  unfold fsub. apply fl_pos. lra.
Qed.

Lemma minIntervalRemaining_nonneg (st : StoreSchema) (c : Clock) :
  (0 <= minIntervalRemaining safety st c)%Q.
Proof.
  destruct (withinMinInterval safety st c) eqn:Hw.
  - apply Qlt_le_weak, minIntervalRemaining_pos, Hw.
  - unfold minIntervalRemaining. rewrite Hw.
    destruct (lastPostAt st); lra.
Qed.

Lemma baseDelay_nonneg (st : StoreSchema) (c : Clock) :
  (0 <= baseDelay safety st c)%Q.
Proof.
  pose proof (rateLimitCooldown_nonneg st c).
  pose proof (minIntervalRemaining_nonneg st c).
  unfold baseDelay. name_Qmax. lra.
Qed.

Lemma baseDelay_ge_cooldown (st : StoreSchema) (c : Clock) :
  (rateLimitCooldown st c <= baseDelay safety st c)%Q.
Proof. unfold baseDelay. name_Qmax. lra. Qed.

Lemma baseDelay_ge_minInterval (st : StoreSchema) (c : Clock) :
  (minIntervalRemaining safety st c <= baseDelay safety st c)%Q.
Proof. unfold baseDelay. name_Qmax. lra. Qed.

(** The base delay is a double: each component is an integer or the
    result of a subtraction. *)
Lemma baseDelay_isNumber (st : StoreSchema) (c : Clock) :
  isNumber (baseDelay safety st c).
Proof.
  unfold baseDelay.
  refine (isNumber_Qmax _ _ (isNumber_Qmax _ _ _ _) _).
  - unfold rateLimitCooldown.
    destruct (rateLimit st); [destruct (rateLimitExhausted st c)|];
      exact (isNumber_Z _).
  - unfold minIntervalRemaining.
    destruct (lastPostAt st); [destruct (withinMinInterval safety st c)|];
      [exact (isNumber_fl _)|exact (isNumber_Z 0)|exact (isNumber_Z 0)].
  - unfold quietHoursRemaining.
    destruct (enableQuietHours safety && isQuietHours safety c);
      exact (isNumber_Z _).
Qed.

Lemma jitterMs_nonneg (rnd : Q) (cj : option Q) :
  (0 <= rnd)%Q → (0 <= jitterMinutesOf safety cj)%Q →
  (0 <= jitterMs safety rnd cj)%Q.
Proof.
  intros Hr Hj. unfold jitterMs, fmul.
  set (j := jitterMinutesOf safety cj) in *.
  assert (H1 : (0 <= fl (rnd * j))%Q) by (apply fl_nonneg; nra).
  assert (H2 : (0 <= fl (fl (rnd * j) * 60))%Q) by (apply fl_nonneg; lra).
  apply fl_nonneg. lra.
Qed.

(** The jitter does not exceed its span. *)
Lemma jitterMs_le_span (rnd : Q) (cj : option Q) :
  (rnd <= 1)%Q → (0 <= jitterMinutesOf safety cj)%Q →
  isNumber (jitterMinutesOf safety cj) →
  (jitterMs safety rnd cj <= jitterSpan safety cj)%Q.
Proof.
  intros Hr Hj Hnum. unfold jitterMs, jitterSpan, fmul.
  set (j := jitterMinutesOf safety cj) in *.
  assert (H1 : (fl (rnd * j) <= j)%Q).
  { unfold isNumber in Hnum. rewrite <- Hnum at 2. apply fl_mono. nra. }
  assert (H2 : (fl (fl (rnd * j) * 60) <= fl (j * 60))%Q)
    by (apply fl_mono; lra).
  apply fl_mono. lra.
Qed.

Lemma jitterMs_zero (rnd : Q) (cj : option Q) :
  (jitterMinutesOf safety cj == 0)%Q → (jitterMs safety rnd cj == 0)%Q.
Proof.
  intros Hj. unfold jitterMs, fmul. rewrite Hj.
  assert (Hz : ∀ x k, (x == 0)%Q → (fl (x * k) == 0)%Q).
  { intros x k Hx. rewrite Hx.
    rewrite (fl_proper (0 * k)%Q (inject_Z 0)) by ring.
    rewrite fl_Z. reflexivity. }
  apply Hz, Hz. rewrite (fl_proper (rnd * 0)%Q (inject_Z 0)) by ring.
  rewrite fl_Z. reflexivity.
Qed.

(** The value [d] of [delayMs] before the jitter block is the base delay,
    and the block adds the jitter to it when [d > 0]. *)
Lemma calculateDelay_split (st : StoreSchema) (c : Clock) (rnd : Q)
    (cj : option Q) :
  ∃ d : Q,
    (d == baseDelay safety st c)%Q
    ∧ delayMs (calculateDelay safety st c rnd cj)
      = if enableJitter safety && Qltb 0 d
        then fadd d (jitterMs safety rnd cj)
        else d.
Proof.
  unfold calculateDelay, jitterMs, jitterMinutesOf. cbv zeta. cbn [delayMs].
  eexists. split; [|reflexivity].
  pose proof (minIntervalRemaining_nonneg st c) as Hmin.
  unfold baseDelay, rateLimitCooldown, minIntervalRemaining,
    quietHoursRemaining, rateLimitExhausted in *.
  destruct (rateLimit st) as [rl|] eqn:Hrl;
    [destruct (remaining rl =? 0)%Z; cbn [andb];
     [destruct (now c <? resetAt rl)%Z eqn:Hlt;
      [apply inject_Z_pos in Hlt|]|]|];
    (destruct (lastPostAt st) as [lastPost|] eqn:Hlast;
     [destruct (withinMinInterval safety st c) eqn:Hw|]);
    destruct (enableQuietHours safety && isQuietHours safety c);
    name_Qmax; lra.
Qed.

Lemma calculateDelay_reason (st : StoreSchema) (c : Clock) (rnd : Q)
    (cj : option Q) :
  reason (calculateDelay safety st c rnd cj)
  = if rateLimitExhausted st c then Some "Rate limit cooldown"%string
    else if withinMinInterval safety st c then Some "Minimum interval"%string
    else if enableQuietHours safety && isQuietHours safety c
         then Some "Quiet hours"%string
    else None.
Proof.
  unfold calculateDelay. cbv zeta. cbn [reason].
  destruct (rateLimitExhausted st c), (withinMinInterval safety st c),
    (enableQuietHours safety && isQuietHours safety c); reflexivity.
Qed.

(** Without jitter, or with a base delay of zero, the delay is the base
    delay. *)
Lemma calculateDelay_plain (st : StoreSchema) (c : Clock) (rnd : Q)
    (cj : option Q) :
  enableJitter safety = false ∨ (baseDelay safety st c <= 0)%Q →
  (delayMs (calculateDelay safety st c rnd cj) == baseDelay safety st c)%Q.
Proof.
  intros Hplain.
  destruct (calculateDelay_split st c rnd cj) as (d & Hd & ->).
  destruct Hplain as [->|Hzero]; [exact Hd|].
  rewrite (Qltb_proper _ _ _ Hd).
  apply Qltb_ge in Hzero. rewrite Hzero, andb_false_r. exact Hd.
Qed.

(** With jitter and a positive base delay, the delay is the sum of the
    base delay and the jitter. *)
Lemma calculateDelay_jittered (st : StoreSchema) (c : Clock) (rnd : Q)
    (cj : option Q) :
  enableJitter safety = true → (0 < baseDelay safety st c)%Q →
  (delayMs (calculateDelay safety st c rnd cj)
   == fadd (baseDelay safety st c) (jitterMs safety rnd cj))%Q.
Proof.
  intros Hjit Hpos.
  destruct (calculateDelay_split st c rnd cj) as (d & Hd & ->).
  rewrite (Qltb_proper _ _ _ Hd), Hjit.
  apply Qltb_lt in Hpos. rewrite Hpos. simpl. rewrite Hd. reflexivity.
Qed.

(** Without jitter, or with a random value and jitter minutes that are
    not negative, the delay is at least the base delay. *)
Lemma calculateDelay_ge_base (st : StoreSchema) (c : Clock) (rnd : Q)
    (cj : option Q) :
  enableJitter safety = false
  ∨ ((0 <= rnd)%Q ∧ (0 <= jitterMinutesOf safety cj)%Q) →
  (baseDelay safety st c <= delayMs (calculateDelay safety st c rnd cj))%Q.
Proof.
  intros Hjit.
  destruct (Qlt_le_dec 0 (baseDelay safety st c)) as [Hpos|Hzero].
  - destruct Hjit as [Hoff|[Hr Hj]].
    + rewrite (calculateDelay_plain st c rnd cj) by (left; exact Hoff). lra.
    + destruct (enableJitter safety) eqn:Hon.
      * rewrite (calculateDelay_jittered st c rnd cj) by assumption.
        refine (fadd_ge _ _ (baseDelay_isNumber st c) _).
        apply jitterMs_nonneg; assumption.
      * assert (Hd : (delayMs (calculateDelay safety st c rnd cj)
                      == baseDelay safety st c)%Q).
        { destruct (calculateDelay_split st c rnd cj) as (d & Hd & ->).
          rewrite Hon. exact Hd. }
        rewrite Hd. lra.
  - rewrite (calculateDelay_plain st c rnd cj) by (right; exact Hzero). lra.
Qed.

End DelayFacts.

(** C4, as amended: with jitter disabled the delay is exactly the greatest
    of the rate-limit cooldown, the remaining minimum interval and the
    quiet-hours component, whatever the random source gives; with jitter
    enabled and a nonzero base delay the delay is the sum, in doubles, of
    the base delay and [rnd * jitterMinutes * 60 * 1000], where
    [jitterMinutes] is the override if supplied and [maxJitterMinutes]
    otherwise, so that for [rnd] in [0,1] and [jitterMinutes >= 0] it lies
    between the base delay and the sum of the base delay and
    [jitterMinutes * 60 * 1000], both ends included: for a base delay of
    [b] milliseconds and [k] jitter minutes, [b] and [k] whole numbers,
    in the closed interval from [b] to [b + k * 60000]; and with a base
    delay of zero the delay is exactly zero. *)
Theorem jitter_bounds `{Host} (safety : SafetySettings) (st : StoreSchema)
    (c : Clock) (rnd : Q) (cj : option Q) :
  (enableJitter safety = false →
     (delayMs (calculateDelay safety st c rnd cj) == baseDelay safety st c)%Q
     ∧ ∀ rnd', calculateDelay safety st c rnd' cj
               = calculateDelay safety st c rnd cj)
  ∧ (enableJitter safety = true → (0 < baseDelay safety st c)%Q →
     (delayMs (calculateDelay safety st c rnd cj)
      == fadd (baseDelay safety st c) (jitterMs safety rnd cj))%Q
     ∧ ((0 <= rnd)%Q → (rnd <= 1)%Q → (0 <= jitterMinutesOf safety cj)%Q →
        isNumber (jitterMinutesOf safety cj) →
        (baseDelay safety st c
         <= delayMs (calculateDelay safety st c rnd cj))%Q
        ∧ (delayMs (calculateDelay safety st c rnd cj)
           <= fadd (baseDelay safety st c) (jitterSpan safety cj))%Q
        ∧ ∀ b k : Z,
            (baseDelay safety st c == inject_Z b)%Q →
            (jitterMinutesOf safety cj == inject_Z k)%Q →
            (inject_Z b <= delayMs (calculateDelay safety st c rnd cj))%Q
            ∧ (delayMs (calculateDelay safety st c rnd cj)
               <= inject_Z (b + k * 60000))%Q)
     ∧ ((jitterMinutesOf safety cj == 0)%Q →
        (delayMs (calculateDelay safety st c rnd cj)
         == baseDelay safety st c)%Q))
  ∧ ((baseDelay safety st c == 0)%Q →
     (delayMs (calculateDelay safety st c rnd cj) == 0)%Q).
Proof.
  split; [|split].
  - intros Hoff. split.
    + apply calculateDelay_plain. left. exact Hoff.
    + intros rnd'. unfold calculateDelay. rewrite Hoff. reflexivity.
  - intros Hon Hpos.
    pose proof (calculateDelay_jittered safety st c rnd cj Hon Hpos) as Hd.
    split; [exact Hd|]. split.
    + intros Hr0 Hr1 Hj Hnum.
      assert (Hlow : (baseDelay safety st c
                      <= delayMs (calculateDelay safety st c rnd cj))%Q).
      { apply calculateDelay_ge_base. right. split; assumption. }
      assert (Hup : (delayMs (calculateDelay safety st c rnd cj)
                     <= fadd (baseDelay safety st c) (jitterSpan safety cj))%Q).
      { rewrite Hd. unfold fadd. apply fl_mono.
        pose proof (jitterMs_le_span safety rnd cj Hr1 Hj Hnum). lra. }
      split; [exact Hlow|]. split; [exact Hup|].
      intros b k Hb Hk. split; [rewrite <- Hb; exact Hlow|].
      assert (Hspan : (jitterSpan safety cj == inject_Z (k * 60000))%Q).
      { exact (fmul_minutes _ k Hk). }
      assert (Hsum : (fadd (baseDelay safety st c) (jitterSpan safety cj)
                      == inject_Z (b + k * 60000))%Q).
      { rewrite Hb, Hspan. exact (fadd_Z _ _). }
      rewrite <- Hsum. exact Hup.
    + intros Hj. rewrite Hd. unfold fadd.
      rewrite (jitterMs_zero safety rnd cj Hj), Qplus_0_r.
      exact (baseDelay_isNumber safety st c).
  - intros Hzero. rewrite calculateDelay_plain by (right; lra). exact Hzero.
Qed.

(** The default settings (jitter of at most 30 minutes) on a store whose
    rate limit resets in ten minutes, with the random source at one half:
    the delay lies between 600000 ms and 600000 + 1800000 ms. *)
Lemma jitter_bounds_witness :
  (inject_Z 600000
   <= delayMs (calculateDelay (host := asciiHost) DEFAULT_SAFETY
                 exhaustedStore noon (1 # 2) None))%Q
  ∧ (delayMs (calculateDelay (host := asciiHost) DEFAULT_SAFETY
                exhaustedStore noon (1 # 2) None)
     <= inject_Z (600000 + 30 * 60000))%Q.
Proof.
  refine (proj2 (proj2 (proj1 (proj2 (proj1 (proj2
            (jitter_bounds (H := asciiHost) DEFAULT_SAFETY exhaustedStore
               noon (1 # 2) None))
            _ _)) _ _ _ _)) 600000%Z 30%Z _ _).
  - reflexivity.
  - vm_compute. reflexivity.
  - vm_compute. discriminate.
  - vm_compute. discriminate.
  - vm_compute. discriminate.
  - vm_compute. reflexivity.
  - vm_compute. reflexivity.
  - vm_compute. reflexivity.
Defined.

(** C4, as the specification states it, fails at the upper end of the
    interval, which it excludes.  At 23:30 the default quiet hours give a
    base delay of 23400000 ms; with the random value [1 - 2^-52] the
    jitter is [1800000 - 2^-31] ms, and the sum rounds to
    [23400000 + 1800000] = [base + jitterMinutes * 60000] exactly. *)
Lemma jitter_reaches_the_upper_bound :
  ¬ ((0 <= almostOne)%Q → (almostOne < 1)%Q →
     enableJitter DEFAULT_SAFETY = true →
     (0 < baseDelay (host := asciiHost) DEFAULT_SAFETY emptyStore
            lateEvening)%Q →
     (baseDelay (host := asciiHost) DEFAULT_SAFETY emptyStore lateEvening
      <= delayMs (calculateDelay (host := asciiHost) DEFAULT_SAFETY
                    emptyStore lateEvening almostOne None))%Q
     ∧ (delayMs (calculateDelay (host := asciiHost) DEFAULT_SAFETY
                   emptyStore lateEvening almostOne None)
        < baseDelay (host := asciiHost) DEFAULT_SAFETY emptyStore
            lateEvening
          + jitterMinutesOf DEFAULT_SAFETY None * 60000)%Q).
Proof.
  intros Hclaim. destruct Hclaim as [_ Hlt].
  - vm_compute. discriminate.
  - vm_compute. reflexivity.
  - reflexivity.
  - vm_compute. reflexivity.
  - vm_compute in Hlt. discriminate Hlt.
Qed.

(** The interval of the specification is empty for a jitter override of
    zero minutes, [base, base + 0), while the delay is the base delay. *)
Lemma jitter_interval_empty_at_zero :
  ¬ ((0 <= 1 # 2)%Q → (1 # 2 < 1)%Q →
     enableJitter DEFAULT_SAFETY = true →
     (0 < baseDelay (host := asciiHost) DEFAULT_SAFETY exhaustedStore
            noon)%Q →
     (baseDelay (host := asciiHost) DEFAULT_SAFETY exhaustedStore noon
      <= delayMs (calculateDelay (host := asciiHost) DEFAULT_SAFETY
                    exhaustedStore noon (1 # 2) (Some 0%Q)))%Q
     ∧ (delayMs (calculateDelay (host := asciiHost) DEFAULT_SAFETY
                   exhaustedStore noon (1 # 2) (Some 0%Q))
        < baseDelay (host := asciiHost) DEFAULT_SAFETY exhaustedStore noon
          + jitterMinutesOf DEFAULT_SAFETY (Some 0%Q) * 60000)%Q).
Proof.
  intros Hclaim. destruct Hclaim as [_ Hlt].
  - vm_compute. discriminate.
  - vm_compute. reflexivity.
  - reflexivity.
  - vm_compute. reflexivity.
  - vm_compute in Hlt. discriminate Hlt.
Qed.

(** ** Rate-limit exhaustion *)

(** C6, as amended: the rate limit counts as exhausted iff the stored state
    has [remaining = 0] and [resetAt] strictly after now.  Whenever it is
    exhausted, [checkSafety] reports the rate-limit error, the reason
    returned by [calculateDelay] is the rate-limit one ('Rate limit
    cooldown' in the source) whatever the other settings, and the delay is
    at least [resetAt - now] provided that jitter is disabled or that the
    random value and the jitter minutes in effect are not negative. *)
Theorem rate_limit_cooldown `{Host} (safety : SafetySettings)
    (st : StoreSchema) (c : Clock) (rnd : Q) (cj : option Q) :
  (rateLimitExhausted st c = true
   ↔ ∃ rl, rateLimit st = Some rl ∧ remaining rl = 0%Z
           ∧ (now c < resetAt rl)%Z)
  ∧ ∀ rl, rateLimit st = Some rl → remaining rl = 0%Z →
          (now c < resetAt rl)%Z →
      reason (calculateDelay safety st c rnd cj) = Some "Rate limit cooldown"%string
      ∧ (enableJitter safety = false
         ∨ ((0 <= rnd)%Q ∧ (0 <= jitterMinutesOf safety cj)%Q) →
         (inject_Z (resetAt rl - now c)
          <= delayMs (calculateDelay safety st c rnd cj))%Q)
      ∧ ∀ text, RateLimitExceeded (resetAt rl)
                ∈ errors (checkSafety safety st c text).1.
Proof.
  split; [apply rateLimitExhausted_iff|].
  intros rl Hrl Hrem Hreset.
  assert (Hex : rateLimitExhausted st c = true).
  { apply rateLimitExhausted_iff. eauto. }
  split; [|split].
  - rewrite calculateDelay_reason, Hex. reflexivity.
  - intros Hjit.
    assert (Hcool : rateLimitCooldown st c = inject_Z (resetAt rl - now c)).
    { unfold rateLimitCooldown. rewrite Hrl, Hex. reflexivity. }
    pose proof (baseDelay_ge_cooldown safety st c) as Hbase.
    rewrite Hcool in Hbase.
    pose proof (calculateDelay_ge_base safety st c rnd cj Hjit). lra.
  - intros text. rewrite checkSafety_errors. apply elem_of_app. left.
    unfold rateLimitErrors. rewrite Hrl, Hex. left.
Qed.

(** Scenario 3 on the default settings: the window resets ten minutes
    after now; the delay is at least ten minutes and the reason is the
    rate-limit one. *)
Lemma rate_limit_cooldown_witness :
  reason (calculateDelay (host := asciiHost) DEFAULT_SAFETY exhaustedStore
            noon (1 # 2) None)
  = Some "Rate limit cooldown"%string
  ∧ (inject_Z (10 * minute)
     <= delayMs (calculateDelay (host := asciiHost) DEFAULT_SAFETY
                   exhaustedStore noon (1 # 2) None))%Q.
Proof.
  pose proof (proj2 (rate_limit_cooldown (H := asciiHost) DEFAULT_SAFETY
                       exhaustedStore noon (1 # 2) None)
                {| remaining := 0; limit := 100;
                   resetAt := now noon + 10 * minute |}) as Hcool.
  destruct Hcool as (Hreason & Hdelay & _).
  - reflexivity.
  - reflexivity.
  - reflexivity.
  - split; [exact Hreason|]. apply Hdelay. right.
    split; vm_compute; discriminate.
Defined.

(** C6, as the specification states it, fails for a negative
    [maxJitterMinutes]: the jitter block then lowers the delay below
    [resetAt - now] (here to -300000 ms, for a cooldown of 600000 ms). *)
Lemma cooldown_lowered_by_negative_jitter :
  ¬ (rateLimitExhausted exhaustedStore noon = true →
     (inject_Z (10 * minute)
      <= delayMs (calculateDelay (host := asciiHost) negativeJitter
                    exhaustedStore noon (1 # 2) None))%Q).
Proof.
  intros Hclaim. specialize (Hclaim eq_refl).
  vm_compute in Hclaim. apply Hclaim. reflexivity.
Qed.

(** ** [post] *)

Section PostFacts.

Context {host : Host}.
Variable safety : SafetySettings.

Lemma checkSafety_pair (st : StoreSchema) (c : Clock) (text : jsstring) :
  checkSafety safety st c text
  = ((checkSafety safety st c text).1, checkDailyReset st c).
Proof. reflexivity. Qed.

(** [post] with [force] goes to the Publisher at once. *)
Lemma post_forced (st : StoreSchema) (c : Clock) (rnd : Q)
    (publish : TweetData -> PublishOutcome) (options : PostOptions) :
  force options = true →
  post safety st c rnd publish options = submit st c publish options.
Proof.
  intros Hforce. unfold post. rewrite Hforce. cbn [negb].
  rewrite andb_false_r. reflexivity.
Qed.

(** [post] without [force]: blocked, delayed or handed to the
    Publisher, always on the store left by the safety evaluation. *)
Lemma post_unforced (st : StoreSchema) (c : Clock) (rnd : Q)
    (publish : TweetData -> PublishOutcome) (options : PostOptions) :
  force options = false →
  post safety st c rnd publish options
  = let check := (checkSafety safety st c (text options)).1 in
    let st1 := checkDailyReset st c in
    let delay := calculateDelay safety st1 c rnd (jitterMinutes options) in
    if negb (safe check) then (Resolved (blockedResult (errors check)), st1)
    else if Qltb 0 (delayMs delay) then (Resolved (delayedResult c delay), st1)
    else submit st1 c publish options.
Proof.
  intros Hforce. unfold post. rewrite Hforce. cbn [negb].
  rewrite checkSafety_pair.
  destruct (checkSafety safety st c (text options)).1 as [sf ws es ss].
  cbn [safe errors]. rewrite andb_true_r. destruct sf; reflexivity.
Qed.

Lemma post_reaching_publisher (st : StoreSchema) (c : Clock) (rnd : Q)
    (publish : TweetData -> PublishOutcome) (options : PostOptions) :
  reachesPublisher safety st c rnd options →
  post safety st c rnd publish options
  = submit (storeAtSubmission st c options) c publish options.
Proof.
  unfold reachesPublisher, storeAtSubmission.
  destruct (force options) eqn:Hforce.
  - intros _. apply post_forced, Hforce.
  - intros [[=]|[Hsafe Hdelay]].
    rewrite post_unforced by assumption. cbv zeta.
    rewrite Hsafe. cbn [negb].
    apply Qltb_ge in Hdelay. rewrite Hdelay. reflexivity.
Qed.

(** What [recordPost] does to the counter: one more, on the stored
    day. *)
Lemma recordPost_daily (st : StoreSchema) (c : Clock) (text : jsstring)
    (tweetId : string) (media : option (list string)) :
  dailyPostCount (recordPost st c text tweetId media)
  = (dailyPostCount st + 1)%Z
  ∧ dailyPostDate (recordPost st c text tweetId media) = dailyPostDate st.
Proof. split; reflexivity. Qed.

End PostFacts.

(** ** The history written by [recordPost] *)

Section HistoryInvariant.

Context {host : Host}.
Variable safety : SafetySettings.

Lemma elem_of_recordPost (st : StoreSchema) (c : Clock) (text : jsstring)
    (tweetId : string) (media : option (list string)) (h : PostHistory) :
  h ∈ postHistory (recordPost st c text tweetId media)
  ↔ (h ∈ postHistory st
     ∨ h = {| h_id := tweetId; h_text := text; h_hash := hashContent text;
              h_timestamp := now c; h_mediaIds := media |})
    ∧ (now c - 30 * 24 * 60 * 60 * 1000 < h_timestamp h)%Z.
Proof.
  unfold recordPost. cbn [postHistory setDailyPostCount setLastPostAt
                          setPostHistory].
  rewrite list_elem_of_In, filter_In, <- list_elem_of_In.
  rewrite elem_of_app, list_elem_of_singleton, Z.ltb_lt. reflexivity.
Qed.

(** Retention: after [recordPost] no record is 30 days old or older, and
    the new record is there. *)
Lemma recordPost_retention (st : StoreSchema) (c : Clock) (text : jsstring)
    (tweetId : string) (media : option (list string)) :
  (∀ h, h ∈ postHistory (recordPost st c text tweetId media) →
        (now c - h_timestamp h < 30 * day)%Z)
  ∧ {| h_id := tweetId; h_text := text; h_hash := hashContent text;
       h_timestamp := now c; h_mediaIds := media |}
    ∈ postHistory (recordPost st c text tweetId media).
Proof.
  split.
  - intros h Hh. apply elem_of_recordPost in Hh as [_ Hh].
    unfold day. lia.
  - apply elem_of_recordPost. split; [right; reflexivity|].
    cbn [h_timestamp]. lia.
Qed.

Lemma recordPost_hashed (st : StoreSchema) (c : Clock) (text : jsstring)
    (tweetId : string) (media : option (list string)) :
  historyHashed st → historyHashed (recordPost st c text tweetId media).
Proof.
  intros Hst h Hh. apply elem_of_recordPost in Hh as [[Hold| ->] _].
  - apply Hst, Hold.
  - reflexivity.
Qed.

Lemma checkDailyReset_hashed (st : StoreSchema) (c : Clock) :
  historyHashed st → historyHashed (checkDailyReset st c).
Proof.
  unfold historyHashed. rewrite checkDailyReset_postHistory. auto.
Qed.

Lemma submit_hashed (st : StoreSchema) (c : Clock)
    (publish : TweetData -> PublishOutcome) (options : PostOptions) :
  historyHashed st → historyHashed (submit st c publish options).2.
Proof.
  intros Hst. unfold submit.
  destruct (publish (tweetDataOf options)) as [tid|error].
  - apply recordPost_hashed, Hst.
  - destruct (isRateLimitFailure error); exact Hst.
Qed.

(** The invariant holds of the empty store and every call of [post] keeps
    it, however the call ends. *)
Lemma post_hashed (st : StoreSchema) (c : Clock) (rnd : Q)
    (publish : TweetData -> PublishOutcome) (options : PostOptions) :
  historyHashed st →
  historyHashed (post safety st c rnd publish options).2.
Proof.
  intros Hst. destruct (force options) eqn:Hforce.
  - rewrite post_forced by assumption. apply submit_hashed, Hst.
  - rewrite post_unforced by assumption. cbv zeta.
    destruct (negb _); [apply checkDailyReset_hashed, Hst|].
    destruct (Qltb _ _); [apply checkDailyReset_hashed, Hst|].
    apply submit_hashed, checkDailyReset_hashed, Hst.
Qed.

Lemma emptyStore_hashed : historyHashed emptyStore.
Proof. intros h Hh. by apply elem_of_nil in Hh. Qed.

End HistoryInvariant.

(** ** Failures of the Publisher *)

(** C7, as amended: when the call reaches the Publisher and the Publisher
    fails, a rate-limit failure (code 429 or the [rateLimitError] mark) is
    not thrown again: the stored rate-limit state becomes [remaining = 0]
    with the reported reset instant ([reset * 1000]; 15 minutes from now
    when none is reported) and a blocked result is returned; any other
    failure is thrown to the caller as it is, without a result.  In both
    cases the rest of the store is the store left by the safety evaluation:
    untouched under [force], and otherwise changed at most by the daily
    rollover. *)
Theorem publisher_failure_handling `{Host} (safety : SafetySettings)
    (st : StoreSchema) (c : Clock) (rnd : Q)
    (publish : TweetData -> PublishOutcome) (options : PostOptions)
    (error : PublishError) :
  reachesPublisher safety st c rnd options →
  publish (tweetDataOf options) = Failed error →
  (isRateLimitFailure error = true →
     post safety st c rnd publish options
     = (Resolved (rateLimitedResult (resetInstant error c)),
        setRateLimit
          (Some {| remaining := 0; limit := limitOf error;
                   resetAt := resetInstant error c |})
          (storeAtSubmission st c options)))
  ∧ (isRateLimitFailure error = false →
     post safety st c rnd publish options
     = (Rejected error, storeAtSubmission st c options))
  ∧ (force options = true → storeAtSubmission st c options = st)
  ∧ (force options = false →
     storeAtSubmission st c options = checkDailyReset st c).
Proof.
  intros Hreach Hfail.
  rewrite (post_reaching_publisher safety st c rnd publish options Hreach).
  unfold submit. rewrite Hfail.
  repeat split.
  - intros ->. reflexivity.
  - intros ->. reflexivity.
  - unfold storeAtSubmission. intros ->. reflexivity.
  - unfold storeAtSubmission. intros ->. reflexivity.
Qed.

(** A 429 at noon that reports its reset second, and a 500, both on a fresh
    store of that day. *)
Lemma publisher_failure_handling_witness :
  post (host := asciiHost) DEFAULT_SAFETY (storeWithCount 0) noon (1 # 2)
       (failing tooManyRequests) (plainPost (lit "hi"))
  = (Resolved (rateLimitedResult 1704111000000),
     setRateLimit
       (Some {| remaining := 0; limit := 50; resetAt := 1704111000000 |})
       (storeWithCount 0))
  ∧ post (host := asciiHost) DEFAULT_SAFETY (storeWithCount 0) noon (1 # 2)
         (failing serverError) (plainPost (lit "hi"))
    = (Rejected serverError, storeWithCount 0).
Proof.
  split.
  - refine (proj1 (publisher_failure_handling (H := asciiHost)
              DEFAULT_SAFETY (storeWithCount 0) noon (1 # 2)
              (failing tooManyRequests) (plainPost (lit "hi"))
              tooManyRequests _ _) _).
    + right. split; vm_compute; [reflexivity|discriminate].
    + reflexivity.
    + reflexivity.
  - refine (proj1 (proj2 (publisher_failure_handling (H := asciiHost)
              DEFAULT_SAFETY (storeWithCount 0) noon (1 # 2)
              (failing serverError) (plainPost (lit "hi"))
              serverError _ _)) _).
    + right. split; vm_compute; [reflexivity|discriminate].
    + reflexivity.
    + reflexivity.
Defined.

(** C7, as the specification states it, fails: an engine that counted three
    posts on 31 December makes its next call of [post], unforced, at noon
    of 1 January; the Publisher answers 500; the error is thrown, and the
    store has changed all the same, for the safety evaluation has reset the
    daily counter and advanced the day. *)
Lemma thrown_failure_after_rollover :
  ¬ (post (host := asciiHost) DEFAULT_SAFETY storeOfLastYear noon (1 # 2)
          (failing serverError) (plainPost (lit "hi"))
     = (Rejected serverError, storeOfLastYear)).
Proof. vm_compute. discriminate. Qed.

(** ** Calls of [post] that do not publish *)

(** C10: a call of [post] without [force] that returns a blocked result
    built from the errors of the safety evaluation, or a delayed result,
    leaves the history, the last-post instant and the rate-limit state as
    they were; the store it leaves is the store after the lazy rollover
    check, so the daily count is the old one on the stored day and zero on
    a new day. *)
Theorem unpublished_post_keeps_state `{Host} (safety : SafetySettings)
    (st : StoreSchema) (c : Clock) (rnd : Q)
    (publish : TweetData -> PublishOutcome) (options : PostOptions)
    (result : PostResult) (st' : StoreSchema) :
  force options = false →
  post safety st c rnd publish options = (Resolved result, st') →
  (blocked result = Some true ∧ ∃ es, blockReason result = Some (JoinedErrors es))
  ∨ delayed result = Some true →
  st' = checkDailyReset st c
  ∧ postHistory st' = postHistory st
  ∧ lastPostAt st' = lastPostAt st
  ∧ rateLimit st' = rateLimit st
  ∧ dailyPostCount st'
    = (if bool_decide (dailyPostDate st = Some (getTodayString c))
       then dailyPostCount st else 0%Z).
Proof.
  intros Hforce Hpost Hkind.
  assert (Hst : st' = checkDailyReset st c).
  { rewrite post_unforced in Hpost by assumption. cbv zeta in Hpost.
    destruct (negb _); [congruence|].
    destruct (Qltb _ _); [congruence|].
    unfold submit in Hpost.
    destruct (publish (tweetDataOf options)) as [tid|error].
    - injection Hpost as <- _. destruct Hkind as [[[=] _]|[=]].
    - destruct (isRateLimitFailure error); [|discriminate Hpost].
      injection Hpost as <- _.
      destruct Hkind as [[_ [es [=]]]|[=]]. }
  subst st'. split; [reflexivity|].
  rewrite checkDailyReset_postHistory, checkDailyReset_lastPostAt,
    checkDailyReset_rateLimit, checkDailyReset_dailyPostCount.
  repeat split.
Qed.

(** A duplicate one minute after "Hello" is blocked, and a post at 23:30
    is delayed by the quiet hours: neither writes more than the
    rollover. *)
Lemma unpublished_post_keeps_state_witness :
  (post (host := asciiHost) DEFAULT_SAFETY storeAfterHello (later noon minute)
        (1 # 2) (accepting "2") (plainPost (lit "hello "))).2
  = checkDailyReset storeAfterHello (later noon minute)
  ∧ (post (host := asciiHost) DEFAULT_SAFETY storeOfLastYear lateEvening
          (1 # 2) (accepting "2") (plainPost (lit "hi"))).2
    = checkDailyReset storeOfLastYear lateEvening.
Proof.
  split.
  - refine (proj1 (unpublished_post_keeps_state (H := asciiHost)
              DEFAULT_SAFETY storeAfterHello (later noon minute) (1 # 2)
              (accepting "2") (plainPost (lit "hello "))
              (blockedResult [DuplicateContent (MinutesAgo 1)]) _
              eq_refl _ _)).
    + vm_compute. reflexivity.
    + left. split; [reflexivity|]. eexists. reflexivity.
  - refine (proj1 (unpublished_post_keeps_state (H := asciiHost)
              DEFAULT_SAFETY storeOfLastYear lateEvening (1 # 2)
              (accepting "2") (plainPost (lit "hi"))
              (delayedResult lateEvening
                 {| delayMs := 24300000; reason := Some "Quiet hours"%string |})
              _ eq_refl _ _)).
    + vm_compute. reflexivity.
    + right. reflexivity.
Defined.

(** ** The daily counter and the rollover *)

(** Without [force], a published post is counted after the rollover check
    of the safety evaluation. *)
Lemma post_unforced_daily `{Host} (safety : SafetySettings)
    (st : StoreSchema) (c : Clock) (rnd : Q)
    (publish : TweetData -> PublishOutcome) (options : PostOptions)
    (tweetId : string) :
  force options = false →
  reachesPublisher safety st c rnd options →
  publish (tweetDataOf options) = Tweeted tweetId →
  dailyPostCount (post safety st c rnd publish options).2
  = ((if bool_decide (dailyPostDate st = Some (getTodayString c))
      then dailyPostCount st else 0) + 1)%Z
  ∧ dailyPostDate (post safety st c rnd publish options).2
    = Some (getTodayString c).
Proof.
  intros Hforce Hreach Hpub.
  rewrite (post_reaching_publisher safety st c rnd publish options Hreach).
  unfold submit, storeAtSubmission. rewrite Hpub, Hforce. cbn [snd].
  pose proof (recordPost_daily (checkDailyReset st c) c (text options)
                tweetId (mediaIds options)) as [-> ->].
  rewrite checkDailyReset_dailyPostCount, checkDailyReset_dailyPostDate.
  split; reflexivity.
Qed.

(** With [force], a published post is counted on the stored day, whatever
    the day of the clock: no rollover check runs. *)
Lemma post_forced_daily `{Host} (safety : SafetySettings)
    (st : StoreSchema) (c : Clock) (rnd : Q)
    (publish : TweetData -> PublishOutcome) (options : PostOptions)
    (tweetId : string) :
  force options = true →
  publish (tweetDataOf options) = Tweeted tweetId →
  dailyPostCount (post safety st c rnd publish options).2
  = (dailyPostCount st + 1)%Z
  ∧ dailyPostDate (post safety st c rnd publish options).2 = dailyPostDate st.
Proof.
  intros Hforce Hpub. rewrite post_forced by assumption.
  unfold submit. rewrite Hpub. cbn [snd]. apply recordPost_daily.
Qed.

(** C9, evaluated where the code departs from it.  An engine has counted
    three posts on 31 December.  At 23:30 [postAndWait] is called with the
    default settings; the quiet hours delay the post to 06:15 of 1 January,
    and after the sleep the post is forced and published.  The counter is
    then 4 and the stored day is still 31 December (day 19722), where the
    claim gives a count of 1 on 1 January (day 19723); the next rollover
    check sets the counter to 0, so the post is never counted on its
    day. *)
Theorem forced_post_counts_on_stale_day :
  (post (host := asciiHost) DEFAULT_SAFETY storeOfLastYear lateEvening (1 # 2)
        (accepting "9") (plainPost (lit "Happy new year"))).1
  = Resolved (delayedResult lateEvening
                {| delayMs := 24300000; reason := Some "Quiet hours"%string |})
  ∧ scheduledFor (delayedResult lateEvening
                    {| delayMs := 24300000; reason := Some "Quiet hours"%string |})
    = Some (now nextMorning)
  ∧ getTodayString nextMorning = 19723%Z
  ∧ dailyPostCount
      (postAndWait (host := asciiHost) DEFAULT_SAFETY storeOfLastYear
         lateEvening (1 # 2) nextMorning (1 # 2) (accepting "9")
         (plainPost (lit "Happy new year"))).2 = 4%Z
  ∧ dailyPostDate
      (postAndWait (host := asciiHost) DEFAULT_SAFETY storeOfLastYear
         lateEvening (1 # 2) nextMorning (1 # 2) (accepting "9")
         (plainPost (lit "Happy new year"))).2 = Some 19722%Z
  ∧ dailyPostCount
      (checkDailyReset
         (postAndWait (host := asciiHost) DEFAULT_SAFETY storeOfLastYear
            lateEvening (1 # 2) nextMorning (1 # 2) (accepting "9")
            (plainPost (lit "Happy new year"))).2
         nextMorning) = 0%Z
  ∧ dailyPostCount
      (post (host := asciiHost) DEFAULT_SAFETY storeOfLastYear noon (1 # 2)
         (accepting "9") (forced (plainPost (lit "Happy new year")))).2 = 4%Z.
Proof. vm_compute. repeat split. Qed.

(** The same post made without [force] at noon of 1 January is counted as
    the first of its day. *)
Example unforced_post_counts_on_new_day :
  dailyPostCount
    (post (host := asciiHost) DEFAULT_SAFETY storeOfLastYear noon (1 # 2)
       (accepting "9") (plainPost (lit "Happy new year"))).2 = 1%Z
  ∧ dailyPostDate
      (post (host := asciiHost) DEFAULT_SAFETY storeOfLastYear noon (1 # 2)
         (accepting "9") (plainPost (lit "Happy new year"))).2 = Some 19723%Z.
Proof. vm_compute. split; reflexivity. Qed.

(** * Further properties of the code *)

(** ** What makes a verdict unsafe *)

Lemma app_nil_iff {A} (l k : list A) : l ++ k = [] ↔ l = [] ∧ k = [].
Proof.
  split.
  - intros Happ. apply app_eq_nil in Happ. exact Happ.
  - intros [-> ->]. reflexivity.
Qed.

(** X1: the verdict of [checkSafety] is safe exactly when the rate limit is
    not exhausted, the daily count after the rollover check is below
    [maxPostsPerDay], no record within the dedupe window has the hash of
    the text, and the text has at most five hashtags.  Quiet hours, near
    duplicates, URL shorteners, mentions and the minimum interval never
    make a verdict unsafe. *)
Theorem checkSafety_safe_iff `{Host} (safety : SafetySettings)
    (st : StoreSchema) (c : Clock) (text : jsstring) :
  safe (checkSafety safety st c text).1 = true
  ↔ rateLimitExhausted st c = false
    ∧ (inject_Z (dailyPostCount (checkDailyReset st c))
       < maxPostsPerDay safety)%Q
    ∧ findDuplicate safety (postHistory st) c (hashContent text) = None
    ∧ (countTagged 35 text <= 5)%nat.
Proof.
  rewrite checkSafety_safe, checkSafety_errors, !app_nil_iff.
  unfold rateLimitErrors, dailyLimitErrors, duplicateErrors, hashtagErrors.
  rewrite <- Qle_bool_false, <- Nat.ltb_ge.
  unfold rateLimitExhausted.
  destruct (rateLimit st) as [rl|]; [destruct (_ && _)|];
    destruct (Qle_bool _ _); destruct (findDuplicate _ _ _ _);
    destruct (5 <? _)%nat; split;
    try (intros (H1 & H2 & H3 & H4); discriminate);
    repeat split.
Qed.

(** ** Exact duplicates *)

(** X2: the verdict holds a duplicate-content error exactly when some
    record of the history has the hash of the candidate and is younger
    than [dedupeWindowDays] days.  Once every such record has left the
    window, the error is gone. *)
Theorem duplicate_error_iff `{Host} (safety : SafetySettings)
    (st : StoreSchema) (c : Clock) (text : jsstring) :
  (∃ posted, DuplicateContent posted ∈ errors (checkSafety safety st c text).1)
  ↔ ∃ h, h ∈ postHistory st ∧ h_hash h = hashContent text
         ∧ withinDedupeWindow safety c h.
Proof.
  rewrite checkSafety_errors. split.
  - intros [posted Hin].
    unfold rateLimitErrors, dailyLimitErrors, hashtagErrors in Hin.
    apply elem_of_app in Hin as [Hin|Hin]; [elem_of_rules Hin|].
    apply elem_of_app in Hin as [Hin|Hin]; [elem_of_rules Hin|].
    apply elem_of_app in Hin as [Hin|Hin]; [|elem_of_rules Hin].
    unfold duplicateErrors, findDuplicate in Hin.
    destruct (List.find _ _) as [d|] eqn:Hfind;
      [|by apply elem_of_nil in Hin].
    apply find_some in Hfind as [Hd Htest].
    apply andb_true_iff in Htest as [Hh Hw].
    exists d. rewrite list_elem_of_In. split; [exact Hd|]. split.
    + apply bool_decide_eq_true in Hh. exact Hh.
    + apply withinDedupeWindow_cutoff, Hw.
  - intros (h & Hin & Hh & Hw).
    destruct (find_present
                (fun h => bool_decide (h_hash h = hashContent text)
                          && Qltb (dedupeCutoff safety c)
                                  (inject_Z (h_timestamp h)))
                (postHistory st) h Hin) as (d & Hfind & _).
    { rewrite andb_true_iff, bool_decide_eq_true.
      split; [exact Hh|]. apply withinDedupeWindow_cutoff, Hw. }
    exists (timeAgo c (h_timestamp d)).
    do 2 (apply elem_of_app; right). apply elem_of_app; left.
    unfold duplicateErrors, findDuplicate. rewrite Hfind. left.
Qed.

(** ** Content patterns *)

(** X3: the hashtag and mention rules.  The verdict holds the
    excessive-hashtags error exactly when the text has more than five
    hashtags, the too-many-hashtags warning exactly when it has more than
    three (so a text with six holds both), and the many-mentions warning
    exactly when it has more than five mentions; each warning carries the
    count. *)
Theorem hashtag_and_mention_rules `{Host} (safety : SafetySettings)
    (st : StoreSchema) (c : Clock) (text : jsstring) :
  (ExcessiveHashtags ∈ errors (checkSafety safety st c text).1
   ↔ (5 < countTagged 35 text)%nat)
  ∧ (∀ n, TooManyHashtags n ∈ warnings (checkSafety safety st c text).1
          ↔ n = countTagged 35 text ∧ (3 < n)%nat)
  ∧ (∀ n, ManyMentions n ∈ warnings (checkSafety safety st c text).1
          ↔ n = countTagged 64 text ∧ (5 < n)%nat).
Proof.
  rewrite checkSafety_errors, checkSafety_warnings.
  split; [|split].
  - split.
    + intros Hin.
      unfold rateLimitErrors, dailyLimitErrors, duplicateErrors in Hin.
      apply elem_of_app in Hin as [Hin|Hin]; [elem_of_rules Hin|].
      apply elem_of_app in Hin as [Hin|Hin]; [elem_of_rules Hin|].
      apply elem_of_app in Hin as [Hin|Hin]; [elem_of_rules Hin|].
      unfold hashtagErrors in Hin.
      destruct (5 <? _)%nat eqn:Hn; [|by apply elem_of_nil in Hin].
      apply Nat.ltb_lt, Hn.
    + intros Hn. apply Nat.ltb_lt in Hn.
      do 3 (apply elem_of_app; right). unfold hashtagErrors. rewrite Hn. left.
  - intros n. split.
    + intros Hin.
      unfold dailyLimitWarnings, quietHoursWarnings, similarWarnings,
        shortenerWarnings, mentionWarnings, intervalWarnings in Hin.
      apply elem_of_app in Hin as [Hin|Hin]; [elem_of_rules Hin|].
      apply elem_of_app in Hin as [Hin|Hin]; [elem_of_rules Hin|].
      apply elem_of_app in Hin as [Hin|Hin]; [elem_of_rules Hin|].
      apply elem_of_app in Hin as [Hin|Hin]; [|elem_of_rules Hin].
      unfold hashtagWarnings in Hin.
      destruct (3 <? _)%nat eqn:Hn; [|by apply elem_of_nil in Hin].
      apply list_elem_of_singleton in Hin. injection Hin as ->.
      split; [reflexivity|]. apply Nat.ltb_lt, Hn.
    + intros [-> Hn]. apply Nat.ltb_lt in Hn.
      do 3 (apply elem_of_app; right). apply elem_of_app; left.
      unfold hashtagWarnings. rewrite Hn. left.
  - intros n. split.
    + intros Hin.
      unfold dailyLimitWarnings, quietHoursWarnings, similarWarnings,
        hashtagWarnings, shortenerWarnings, intervalWarnings in Hin.
      apply elem_of_app in Hin as [Hin|Hin]; [elem_of_rules Hin|].
      apply elem_of_app in Hin as [Hin|Hin]; [elem_of_rules Hin|].
      apply elem_of_app in Hin as [Hin|Hin]; [elem_of_rules Hin|].
      apply elem_of_app in Hin as [Hin|Hin]; [elem_of_rules Hin|].
      apply elem_of_app in Hin as [Hin|Hin]; [elem_of_rules Hin|].
      apply elem_of_app in Hin as [Hin|Hin]; [|elem_of_rules Hin].
      unfold mentionWarnings in Hin.
      destruct (5 <? _)%nat eqn:Hn; [|by apply elem_of_nil in Hin].
      apply list_elem_of_singleton in Hin. injection Hin as ->.
      split; [reflexivity|]. apply Nat.ltb_lt, Hn.
    + intros [-> Hn]. apply Nat.ltb_lt in Hn.
      do 5 (apply elem_of_app; right). apply elem_of_app; left.
      unfold mentionWarnings. rewrite Hn. left.
Qed.

(** ** URL shorteners *)

Lemma startsWithCI_spec (pat s : jsstring) :
  startsWithCI pat s = true
  ↔ ∃ mid post, s = mid ++ post
                ∧ List.map foldCase mid = List.map foldCase pat.
Proof.
  revert s. induction pat as [|p pat IH]; intros s.
  - split; [|reflexivity]. intros _. exists [], s. split; reflexivity.
  - destruct s as [|x s]; simpl.
    + split; [discriminate|].
      intros (mid & post & Hs & Hmap).
      destruct mid; [discriminate Hmap|discriminate Hs].
    + rewrite andb_true_iff, N.eqb_eq, IH. split.
      * intros (Hp & mid & post & -> & Hmap).
        exists (x :: mid), post. split; [reflexivity|].
        simpl. rewrite Hmap, Hp. reflexivity.
      * intros (mid & post & Hs & Hmap).
        destruct mid as [|y mid]; [discriminate Hmap|].
        injection Hs as -> ->. injection Hmap as Hy Hmap.
        split; [congruence|]. eauto.
Qed.

Lemma containsCI_spec (pat s : jsstring) :
  containsCI pat s = true ↔ occursCI pat s.
Proof.
  unfold occursCI. induction s as [|x s IH].
  - simpl. rewrite orb_false_r, startsWithCI_spec. split.
    + intros (mid & post & Hs & Hmap). exists [], mid, post. auto.
    + intros (pre & mid & post & Hs & Hmap).
      destruct pre; [simpl in Hs; eauto|discriminate Hs].
  - change (containsCI pat (x :: s))
      with (startsWithCI pat (x :: s) || containsCI pat s).
    rewrite orb_true_iff, IH, startsWithCI_spec. split.
    + intros [(mid & post & Hs & Hmap)|(pre & mid & post & -> & Hmap)].
      * exists [], mid, post. auto.
      * exists (x :: pre), mid, post. auto.
    + intros (pre & mid & post & Hs & Hmap).
      destruct pre as [|y pre].
      * left. simpl in Hs. eauto.
      * injection Hs as -> ->. right. eauto.
Qed.

(** X4: the URL-shortener rule is a search without anchors and without
    regard to the case of ASCII letters: the verdict holds the
    URL-shortener warning, and the suggestion to use full URLs, exactly
    when one of "bit.ly", "tinyurl", "t.co", "goo.gl", "ow.ly" occurs
    somewhere in the text, in any mix of upper and lower case. *)
Theorem url_shortener_rule `{Host} (safety : SafetySettings)
    (st : StoreSchema) (c : Clock) (text : jsstring) :
  (UrlShorteners ∈ warnings (checkSafety safety st c text).1
   ↔ ∃ pat, pat ∈ shortenerDomains ∧ occursCI pat text)
  ∧ (UseFullUrls ∈ suggestions (checkSafety safety st c text).1
     ↔ ∃ pat, pat ∈ shortenerDomains ∧ occursCI pat text).
Proof.
  assert (Hhas : hasUrlShortener text = true
                 ↔ ∃ pat, pat ∈ shortenerDomains ∧ occursCI pat text).
  { unfold hasUrlShortener, shortenerDomains.
    rewrite !orb_true_iff, !containsCI_spec. split.
    - intros [[[[Hp|Hp]|Hp]|Hp]|Hp]; eexists; (split; [|exact Hp]);
        repeat first [left; reflexivity | right];
        rewrite ?elem_of_cons; auto 10.
    - intros (pat & Hin & Hp).
      rewrite !elem_of_cons, elem_of_nil in Hin.
      destruct Hin as [->|[->|[->|[->|[->|[]]]]]]; auto 10. }
  rewrite <- Hhas, checkSafety_warnings, checkSafety_suggestions.
  split.
  - split.
    + intros Hin.
      unfold dailyLimitWarnings, quietHoursWarnings, similarWarnings,
        hashtagWarnings, mentionWarnings, intervalWarnings in Hin.
      apply elem_of_app in Hin as [Hin|Hin]; [elem_of_rules Hin|].
      apply elem_of_app in Hin as [Hin|Hin]; [elem_of_rules Hin|].
      apply elem_of_app in Hin as [Hin|Hin]; [elem_of_rules Hin|].
      apply elem_of_app in Hin as [Hin|Hin]; [elem_of_rules Hin|].
      apply elem_of_app in Hin as [Hin|Hin]; [|elem_of_rules Hin].
      unfold shortenerWarnings in Hin.
      destruct (hasUrlShortener text); [reflexivity|].
      by apply elem_of_nil in Hin.
    + intros Hyes. do 4 (apply elem_of_app; right). apply elem_of_app; left.
      unfold shortenerWarnings. rewrite Hyes. left.
  - split.
    + intros Hin. unfold similarSuggestions in Hin.
      apply elem_of_app in Hin as [Hin|Hin]; [elem_of_rules Hin|].
      unfold shortenerSuggestions in Hin.
      destruct (hasUrlShortener text); [reflexivity|].
      by apply elem_of_nil in Hin.
    + intros Hyes. apply elem_of_app; right.
      unfold shortenerSuggestions. rewrite Hyes. left.
Qed.

(** ** The extremes of the similarity *)

Lemma sizeRatio_eq_one (n d : nat) :
  (0 < d)%nat →
  (∃ q, sizeRatio n d = Some q ∧ (q == 1)%Q) ↔ n = d.
Proof.
  intros Hd. destruct d as [|d]; [lia|]. simpl. split.
  - intros (q & [= <-] & Hq). unfold Qeq in Hq. simpl in Hq. lia.
  - intros ->. eexists. split; [reflexivity|]. unfold Qeq. simpl. lia.
Qed.

Lemma sizeRatio_eq_zero (n d : nat) :
  (0 < d)%nat →
  (∃ q, sizeRatio n d = Some q ∧ (q == 0)%Q) ↔ n = 0%nat.
Proof.
  intros Hd. destruct d as [|d]; [lia|]. simpl. split.
  - intros (q & [= <-] & Hq). unfold Qeq in Hq. simpl in Hq. lia.
  - intros ->. eexists. split; [reflexivity|]. reflexivity.
Qed.

(** X5: the similarity of two texts is 1 exactly when their lower-case
    tokens form the same set (order and repetition do not count), and 0
    exactly when they have no token in common. *)
Theorem similarity_extremes `{Host} (a b : jsstring) :
  ((∃ q, similarity a b = Some q ∧ (q == 1)%Q)
   ↔ ∀ w, w ∈ splitSpaces (toLowerCase a) ↔ w ∈ splitSpaces (toLowerCase b))
  ∧ ((∃ q, similarity a b = Some q ∧ (q == 0)%Q)
     ↔ ∀ w, w ∈ splitSpaces (toLowerCase a) →
            w ∉ splitSpaces (toLowerCase b)).
Proof.
  unfold similarity.
  pose proof (union_length_pos a b) as Hpos.
  assert (HA : ∀ w, w ∈ wordsOf a ↔ w ∈ splitSpaces (toLowerCase a))
    by (intros w; apply elem_of_newSet).
  assert (HB : ∀ w, w ∈ wordsOf b ↔ w ∈ splitSpaces (toLowerCase b))
    by (intros w; apply elem_of_newSet).
  split.
  - rewrite sizeRatio_eq_one by exact Hpos. split.
    + intros Hlen.
      assert (Hperm : intersectionOf (wordsOf a) (wordsOf b)
                      ≡ₚ unionOf (wordsOf a) (wordsOf b)).
      { apply submseteq_length_Permutation; [|lia].
        apply NoDup_submseteq; [apply NoDup_newSet|].
        intros x Hx. apply elem_of_intersectionOf in Hx.
        apply elem_of_unionOf. tauto. }
      assert (Hsame : ∀ w, w ∈ wordsOf a ∨ w ∈ wordsOf b →
                           w ∈ wordsOf a ∧ w ∈ wordsOf b).
      { intros w Hw. apply elem_of_intersectionOf. rewrite Hperm.
        apply elem_of_unionOf, Hw. }
      intros w. rewrite <- HA, <- HB. split; intros Hw; apply Hsame; auto.
    + intros Hsame.
      apply Permutation_length, NoDup_Permutation; try apply NoDup_newSet.
      intros w. rewrite elem_of_intersectionOf, elem_of_unionOf, !HA, !HB.
      rewrite (Hsame w). tauto.
  - rewrite sizeRatio_eq_zero by exact Hpos. split.
    + intros Hlen w Hwa Hwb.
      apply length_zero_iff_nil in Hlen.
      assert (Hw : w ∈ intersectionOf (wordsOf a) (wordsOf b))
        by (apply elem_of_intersectionOf; rewrite HA, HB; auto).
      rewrite Hlen in Hw. by apply elem_of_nil in Hw.
    + intros Hdisj.
      destruct (intersectionOf (wordsOf a) (wordsOf b)) as [|w l] eqn:Hi;
        [reflexivity|].
      assert (Hw : w ∈ intersectionOf (wordsOf a) (wordsOf b))
        by (rewrite Hi; left).
      apply elem_of_intersectionOf in Hw as [Hwa Hwb].
      apply HA in Hwa. apply HB in Hwb. destruct (Hdisj w Hwa Hwb).
Qed.

(** ** The normal form and the words of a text *)

Lemma splitSpacesFrom_spaceFree_prefix (w : jsstring) :
  spaceFree w → ∀ cur rest,
  splitSpacesFrom false cur (w ++ rest)
  = splitSpacesFrom false (rev w ++ cur) rest.
Proof.
  induction 1 as [|c w Hc Hw IH]; intros cur rest; [reflexivity|].
  simpl. rewrite Hc, IH, <- app_assoc. reflexivity.
Qed.

Lemma splitSpaces_joined (ws : list jsstring) :
  Forall word ws → ∀ w, word w →
  splitSpacesFrom false [] (w ++ spaced ws) = w :: ws.
Proof.
  induction 1 as [|v ws Hv Hws IH]; intros w [Hne Hfree].
  - rewrite splitSpacesFrom_spaceFree_prefix by exact Hfree.
    simpl. rewrite app_nil_r, rev_involutive. reflexivity.
  - rewrite splitSpacesFrom_spaceFree_prefix by exact Hfree.
    change (spaced (v :: ws)) with (32%N :: v ++ spaced ws).
    simpl. rewrite app_nil_r, rev_involutive. f_equal.
    rewrite <- (IH v Hv).
    destruct Hv as [Hvne Hvfree]. destruct v as [|x v]; [congruence|].
    apply Forall_cons in Hvfree as [Hx _]. simpl. rewrite Hx. reflexivity.
Qed.

Lemma filter_nonEmpty_id (ws : list jsstring) :
  Forall word ws → List.filter nonEmpty ws = ws.
Proof.
  induction 1 as [|w ws [Hne _] Hws IH]; [reflexivity|].
  simpl. rewrite (nonEmpty_true w Hne), IH. reflexivity.
Qed.

(** Splitting the joined words gives the words back. *)
Lemma words_joinSpaces (ws : list jsstring) :
  Forall word ws → words (joinSpaces ws) = ws.
Proof.
  intros Hws. unfold words, splitSpaces.
  destruct Hws as [|w ws Hw Hws]; [reflexivity|].
  change (joinSpaces (w :: ws)) with (w ++ spaced ws).
  rewrite splitSpaces_joined by assumption.
  apply filter_nonEmpty_id. constructor; assumption.
Qed.

Lemma words_are_words (s : jsstring) : Forall word (words s).
Proof.
  apply filter_nonEmpty_words, splitSpacesFrom_spaceFree. constructor.
Qed.

(** X6: two texts have the same normal form, and so the same content
    hash input, exactly when their lower-case forms have the same words in
    the same order; and the normal form is a fixed point of the white-space
    normalisation. *)
Theorem normalize_iff_same_words `{Host} (a b : jsstring) :
  (normalize a = normalize b
   ↔ words (toLowerCase a) = words (toLowerCase b))
  ∧ trim (collapseSpaces false (normalize a)) = normalize a.
Proof.
  split.
  - rewrite !normalize_words. split.
    + intros Hjoin.
      rewrite <- (words_joinSpaces (words (toLowerCase a)))
        by apply words_are_words.
      rewrite <- (words_joinSpaces (words (toLowerCase b)))
        by apply words_are_words.
      rewrite Hjoin. reflexivity.
    + intros ->. reflexivity.
  - rewrite trim_collapseSpaces, normalize_words, words_joinSpaces
      by apply words_are_words.
    reflexivity.
Qed.

(** ** The shape of a content hash *)

Lemma length_bytesLE (n : nat) (x : N) : length (Md5.bytesLE n x) = n.
Proof.
  revert x. induction n as [|n IH]; intros x; simpl; [reflexivity|].
  rewrite IH. reflexivity.
Qed.

Lemma bytesLE_bytes (n : nat) (x : N) :
  Forall (fun b => (b < 256)%N) (Md5.bytesLE n x).
Proof.
  revert x. induction n as [|n IH]; intros x; simpl; constructor.
  - change 255%N with (N.ones 8). rewrite N.land_ones.
    apply N.mod_lt. discriminate.
  - apply IH.
Qed.

Lemma hexDigit_lower (n : N) : (n < 16)%N → isLowerHex (Md5.hexDigit n).
Proof.
  intros Hn. unfold Md5.hexDigit, isLowerHex.
  destruct (n <? 10)%N eqn:Hlt.
  - apply N.ltb_lt in Hlt. left. lia.
  - apply N.ltb_ge in Hlt. right. lia.
Qed.

Lemma hex_shape (bs : list N) :
  Forall (fun b => (b < 256)%N) bs →
  length (Md5.hex bs) = (2 * length bs)%nat ∧ Forall isLowerHex (Md5.hex bs).
Proof.
  unfold Md5.hex. induction 1 as [|b bs Hb Hbs [IHlen IHhex]]; simpl.
  - split; [reflexivity|constructor].
  - split; [rewrite IHlen; lia|].
    constructor; [|constructor; [|exact IHhex]].
    + apply hexDigit_lower. apply N.Div0.div_lt_upper_bound. lia.
    + apply hexDigit_lower. apply N.mod_lt. discriminate.
Qed.

(** X7: whatever the text, its content hash is a string of 32 lower-case
    hexadecimal digits. *)
Theorem hashContent_shape `{Host} (text : jsstring) :
  length (hashContent text) = 32%nat ∧ Forall isLowerHex (hashContent text).
Proof.
  unfold hashContent, Md5.md5hex, Md5.digest.
  destruct (List.fold_left _ _ _) as [[[a b] c] d].
  assert (Hbytes : Forall (fun b => (b < 256)%N)
                     (Md5.bytesLE 4 a ++ Md5.bytesLE 4 b
                      ++ Md5.bytesLE 4 c ++ Md5.bytesLE 4 d)).
  { repeat (apply Forall_app; split); apply bytesLE_bytes. }
  destruct (hex_shape _ Hbytes) as [Hlen Hhex].
  split; [|exact Hhex].
  rewrite Hlen, !length_app, !length_bytesLE. reflexivity.
Qed.

(** ** The age of a record *)

(** X8: for a record that is not of the future, [timeAgo] picks the largest
    unit that fits and rounds down: seconds below one minute, then minutes
    from 1 to 59, hours from 1 to 23, and days from 1 on; the number [n]
    shown with unit [u] satisfies [n * u <= elapsed < (n + 1) * u]. *)
Theorem timeAgo_ranges (c : Clock) (timestamp : Z) :
  (timestamp <= now c)%Z →
  match timeAgo c timestamp with
  | SecondsAgo n =>
      (0 <= n < 60 ∧ n * 1000 <= now c - timestamp < (n + 1) * 1000)%Z
  | MinutesAgo n =>
      (1 <= n < 60 ∧ n * 60000 <= now c - timestamp < (n + 1) * 60000)%Z
  | HoursAgo n =>
      (1 <= n < 24
       ∧ n * 3600000 <= now c - timestamp < (n + 1) * 3600000)%Z
  | DaysAgo n =>
      (1 <= n ∧ n * 86400000 <= now c - timestamp < (n + 1) * 86400000)%Z
  end.
Proof.
  intros Hpast. unfold timeAgo. cbv zeta.
  set (e := (now c - timestamp)%Z).
  assert (He : (0 <= e)%Z) by (unfold e; lia).
  clearbody e.
  destruct (e / 1000 <? 60)%Z eqn:H1;
    [|destruct (e / 1000 <? 3600)%Z eqn:H2;
      [|destruct (e / 1000 <? 86400)%Z eqn:H3]];
    rewrite ?Z.ltb_lt, ?Z.ltb_ge in *;
    Z.to_euclidean_division_equations; lia.
Qed.

(** Ninety minutes after noon, a record of noon is "1h ago". *)
Lemma timeAgo_ranges_witness :
  timeAgo (later noon (90 * minute)) (now noon) = HoursAgo 1
  ∧ (1 <= 1 < 24
     ∧ 1 * 3600000 <= now (later noon (90 * minute)) - now noon
       < (1 + 1) * 3600000)%Z.
Proof.
  split; [reflexivity|].
  refine (timeAgo_ranges (later noon (90 * minute)) (now noon) _).
  vm_compute. discriminate.
Defined.

(** ** The end of the quiet hours *)

Lemma toInteger_inject_Z (n : Z) : toInteger (inject_Z n) = n.
Proof.
  unfold toInteger. destruct (Qle_bool 0 (inject_Z n)).
  - apply Qfloor_Z.
  - apply Qceiling_Z.
Qed.

(** In a zone without transitions the end of the quiet hours is the hour
    [quietHoursEnd] of the local day of now, or of the next day. *)
Lemma getQuietHoursEnd_fixedOffset `{Host} (safety : SafetySettings)
    (c : Clock) :
  fixedOffset c →
  getQuietHoursEnd safety c
  = (let local := now c + utcOffset c in
     let end_ := local - local mod 86400000
                 + toInteger (quietHoursEnd safety) * 3600000
                 - utcOffset c in
     if end_ <=? now c then end_ + 86400000 else end_)%Z.
Proof.
  intros [Hlocal Hutc]. unfold getQuietHoursEnd. cbv zeta.
  rewrite !Hutc, !Hlocal.
  destruct (_ <=? _)%Z; [f_equal|reflexivity]. lia.
Qed.

Lemma getQuietHoursEnd_getHours `{Host} (safety : SafetySettings)
    (c : Clock) (e : Z) :
  fixedOffset c →
  quietHoursEnd safety = inject_Z e → (0 <= e <= 23)%Z →
  getHours {| now := getQuietHoursEnd safety c; utcOffset := utcOffset c |}
  = e.
Proof.
  intros Hfixed He Hrange.
  rewrite (getQuietHoursEnd_fixedOffset safety c Hfixed).
  unfold getHours. cbv zeta.
  rewrite He, toInteger_inject_Z. cbn [now utcOffset].
  set (l := (now c + utcOffset c)%Z).
  assert (Hnow : now c = (l - utcOffset c)%Z) by (unfold l; lia).
  rewrite Hnow. clearbody l.
  destruct (_ <=? _)%Z eqn:Hle;
    rewrite ?Z.leb_le, ?Z.leb_gt in Hle;
    Z.to_euclidean_division_equations; lia.
Qed.

(** X9: in a time zone without transitions (UTC, or any zone that keeps
    one offset), when [quietHoursEnd] is a whole hour from 0 to 23,
    [getQuietHoursEnd] is the next instant at which the local clock shows
    that hour, zero minutes: it lies strictly after now, at most 24 hours
    after now, and on the full hour [quietHoursEnd] of local time. *)
Theorem getQuietHoursEnd_next_occurrence `{Host} (safety : SafetySettings)
    (c : Clock) (e : Z) :
  fixedOffset c →
  quietHoursEnd safety = inject_Z e → (0 <= e <= 23)%Z →
  (now c < getQuietHoursEnd safety c <= now c + 86400000)%Z
  ∧ ((getQuietHoursEnd safety c + utcOffset c) mod 3600000 = 0)%Z
  ∧ getHours {| now := getQuietHoursEnd safety c; utcOffset := utcOffset c |}
    = e.
Proof.
  intros Hfixed He Hrange.
  rewrite (getQuietHoursEnd_fixedOffset safety c Hfixed).
  unfold getHours. cbv zeta.
  rewrite He, toInteger_inject_Z. cbn [now utcOffset].
  set (l := (now c + utcOffset c)%Z).
  assert (Hnow : now c = (l - utcOffset c)%Z) by (unfold l; lia).
  rewrite Hnow. clearbody l.
  destruct (_ <=? _)%Z eqn:Hle;
    rewrite ?Z.leb_le, ?Z.leb_gt in Hle;
    repeat split; Z.to_euclidean_division_equations; lia.
Qed.

(** The default settings at noon UTC, in a UTC process: the quiet hours
    end at 06:00 of the next day. *)
Lemma getQuietHoursEnd_next_occurrence_witness :
  getQuietHoursEnd (host := asciiHost) DEFAULT_SAFETY noon
  = (now noon + 18 * hour)%Z
  ∧ getHours {| now := getQuietHoursEnd (host := asciiHost) DEFAULT_SAFETY
                         noon;
                utcOffset := utcOffset noon |} = 6%Z.
Proof.
  split; [reflexivity|].
  refine (proj2 (proj2 (getQuietHoursEnd_next_occurrence (H := asciiHost)
                          DEFAULT_SAFETY noon 6 _ _ _))).
  - split; intros t; cbn; lia.
  - reflexivity.
  - lia.
Defined.

(** Where the zone has transitions, neither bound holds.  In New York,
    on the eve of the return to standard time, the quiet hours that begin
    at 23:00 last an hour longer: at 23:30 their end is 7 h 30 away, and
    at 06:00 sharp the next end is 25 hours away. *)
Example getQuietHoursEnd_when_clocks_go_back :
  (getQuietHoursEnd (host := newYork2024) DEFAULT_SAFETY fallBackEve
   - now fallBackEve = 7 * hour + 30 * minute)%Z
  ∧ (getQuietHoursEnd (host := newYork2024) DEFAULT_SAFETY
       (later fallBackEve (- 17 * hour - 30 * minute))
     - now (later fallBackEve (- 17 * hour - 30 * minute)) = 25 * hour)%Z.
Proof. split; reflexivity. Qed.

(** And on the day the clocks go forward an end at 02:00, an hour that
    this day does not have, falls on 03:00. *)
Example getQuietHoursEnd_when_clocks_go_forward :
  getHours
    {| now := getQuietHoursEnd (host := newYork2024) quietUntilTwo
                springForwardNight;
       utcOffset := - 4 * hour |} = 3%Z.
Proof. reflexivity. Qed.

(** X10: in a time zone without transitions, when [quietHoursEnd] is a
    whole hour from 0 to 23, the quiet hours are over at the instant
    returned by [getQuietHoursEnd], whatever [quietHoursStart] is: a post
    delayed to that instant is not delayed by the quiet hours again. *)
Theorem quiet_hours_over_at_their_end `{Host} (safety : SafetySettings)
    (c : Clock) (e : Z) :
  fixedOffset c →
  quietHoursEnd safety = inject_Z e → (0 <= e <= 23)%Z →
  isQuietHours safety
    {| now := getQuietHoursEnd safety c; utcOffset := utcOffset c |} = false.
Proof.
  intros Hfixed He Hrange.
  pose proof (getQuietHoursEnd_getHours safety c e Hfixed He Hrange) as Hhour.
  unfold isQuietHours. cbv zeta. rewrite Hhour, He.
  assert (Hirr : Qltb (inject_Z e) (inject_Z e) = false)
    by (apply Qltb_ge; lra).
  destruct (Qltb (inject_Z e) (quietHoursStart safety)) eqn:Hov.
  - rewrite Hirr, orb_false_r. apply Qltb_lt in Hov.
    apply Qle_bool_false, Hov.
  - rewrite Hirr. apply andb_false_r.
Qed.

Lemma quiet_hours_over_at_their_end_witness :
  isQuietHours DEFAULT_SAFETY lateEvening = true
  ∧ isQuietHours DEFAULT_SAFETY
      {| now := getQuietHoursEnd (host := asciiHost) DEFAULT_SAFETY
                  lateEvening;
         utcOffset := utcOffset lateEvening |} = false.
Proof.
  split; [reflexivity|].
  refine (quiet_hours_over_at_their_end (H := asciiHost) DEFAULT_SAFETY
            lateEvening 6 _ _ _).
  - split; intros t; cbn; lia.
  - reflexivity.
  - lia.
Defined.

(** With an end at 02:00 and a start at 03:00, the end computed in the
    night in which the clocks go forward is still inside the quiet
    hours. *)
Example quiet_hours_not_over_when_clocks_go_forward :
  isQuietHours quietUntilTwo springForwardNight = true
  ∧ isQuietHours quietUntilTwo
      {| now := getQuietHoursEnd (host := newYork2024) quietUntilTwo
                  springForwardNight;
         utcOffset := - 4 * hour |} = true.
Proof. split; reflexivity. Qed.

(** ** The reason of a delay *)

Lemma calculateDelay_no_reason `{Host} (safety : SafetySettings)
    (st : StoreSchema) (c : Clock) (rnd : Q) (cj : option Q) :
  reason (calculateDelay safety st c rnd cj) = None →
  (delayMs (calculateDelay safety st c rnd cj) == 0)%Q.
Proof.
  rewrite calculateDelay_reason. intros Hnone.
  assert (Hbase : (baseDelay safety st c == 0)%Q).
  { unfold baseDelay, rateLimitCooldown, minIntervalRemaining,
      quietHoursRemaining.
    destruct (rateLimitExhausted st c); [discriminate|].
    destruct (withinMinInterval safety st c); [discriminate|].
    destruct (enableQuietHours safety && isQuietHours safety c);
      [discriminate|].
    destruct (rateLimit st), (lastPostAt st); reflexivity. }
  rewrite calculateDelay_plain by (right; lra). exact Hbase.
Qed.

(** X11: [calculateDelay] names the first cause that applies, in the
    order rate limit, minimum interval, quiet hours, and it names none
    exactly when none applies; a delay without a reason is zero, so every
    nonzero delay comes with its reason. *)
Theorem delay_reason_priority `{Host} (safety : SafetySettings)
    (st : StoreSchema) (c : Clock) (rnd : Q) (cj : option Q) :
  (rateLimitExhausted st c = true →
     reason (calculateDelay safety st c rnd cj)
     = Some "Rate limit cooldown"%string)
  ∧ (rateLimitExhausted st c = false → withinMinInterval safety st c = true →
     reason (calculateDelay safety st c rnd cj)
     = Some "Minimum interval"%string)
  ∧ (rateLimitExhausted st c = false → withinMinInterval safety st c = false →
     enableQuietHours safety && isQuietHours safety c = true →
     reason (calculateDelay safety st c rnd cj) = Some "Quiet hours"%string)
  ∧ (reason (calculateDelay safety st c rnd cj) = None
     ↔ rateLimitExhausted st c = false
       ∧ withinMinInterval safety st c = false
       ∧ enableQuietHours safety && isQuietHours safety c = false)
  ∧ (reason (calculateDelay safety st c rnd cj) = None →
     (delayMs (calculateDelay safety st c rnd cj) == 0)%Q).
Proof.
  rewrite calculateDelay_reason.
  split; [|split; [|split; [|split]]].
  - intros ->. reflexivity.
  - intros -> ->. reflexivity.
  - intros -> -> ->. reflexivity.
  - destruct (rateLimitExhausted st c), (withinMinInterval safety st c),
      (enableQuietHours safety && isQuietHours safety c);
      split; try discriminate; try tauto; intros (? & ? & ?); discriminate.
  - intros Hnone. apply calculateDelay_no_reason.
    rewrite calculateDelay_reason. exact Hnone.
Qed.

(** On an empty store outside the quiet hours there is neither reason nor
    delay. *)
Lemma delay_reason_priority_witness :
  (delayMs (calculateDelay (host := asciiHost) DEFAULT_SAFETY emptyStore
              noon (1 # 2) None) == 0)%Q.
Proof.
  refine (proj2 (proj2 (proj2 (proj2
            (delay_reason_priority (H := asciiHost) DEFAULT_SAFETY
               emptyStore noon (1 # 2) None)))) _).
  reflexivity.
Defined.

(** ** [getNextPostTime] *)

Lemma toInteger_ge (n : Z) (x : Q) :
  (inject_Z n <= x)%Q → (n <= toInteger x)%Z.
Proof.
  intros Hle. unfold toInteger. destruct (Qle_bool 0 x).
  - rewrite <- (Qfloor_Z n). apply Qfloor_resp_le, Hle.
  - rewrite <- (Qceiling_Z n). apply Qceiling_resp_le, Hle.
Qed.

Lemma toInteger_gt (x : Q) : (x < inject_Z (toInteger x) + 1)%Q.
Proof.
  unfold toInteger. destruct (Qle_bool 0 x).
  - pose proof (Qlt_floor x) as Hf.
    rewrite inject_Z_plus in Hf. change (inject_Z 1) with 1%Q in Hf. lra.
  - pose proof (Qle_ceiling x) as Hc. lra.
Qed.

(** The remaining minimum interval, as [calculateDelay] computes it, is
    at most the base delay, also when the interval is over. *)
Lemma minInterval_le_baseDelay `{Host} (safety : SafetySettings)
    (st : StoreSchema) (c : Clock) (t : Z) :
  lastPostAt st = Some t → t ≠ 0%Z →
  (fsub (minWait safety) (inject_Z (now c - t)) <= baseDelay safety st c)%Q.
Proof.
  intros Ht Ht0.
  pose proof (baseDelay_ge_minInterval safety st c) as Hge.
  pose proof (baseDelay_nonneg safety st c) as Hbase.
  unfold minIntervalRemaining in Hge. rewrite Ht in Hge.
  destruct (withinMinInterval safety st c) eqn:Hw; [exact Hge|].
  unfold withinMinInterval in Hw. rewrite Ht in Hw.
  apply Z.eqb_neq in Ht0. rewrite Ht0 in Hw. cbn [negb andb] in Hw.
  apply Qltb_ge in Hw.
  assert (Hneg : (fsub (minWait safety) (inject_Z (now c - t)) <= 0)%Q)
    by (unfold fsub; apply fl_nonpos; lra).
  lra.
Qed.

(** X12: when jitter is disabled, or the random value and
    [maxJitterMinutes] are not negative, the next safe posting time is
    never before now, and, up to the truncation to a whole millisecond, it
    is not before now plus the rest of the minimum interval since the last
    post, [minWait - timeSince], as the code computes them (a last post at
    instant 0 counts as none); for a whole number of minutes that is
    [minIntervalMinutes] after the last post. *)
Theorem getNextPostTime_bounds `{Host} (safety : SafetySettings)
    (st : StoreSchema) (c : Clock) (rnd : Q) :
  enableJitter safety = false
  ∨ ((0 <= rnd)%Q ∧ (0 <= maxJitterMinutes safety)%Q) →
  (now c <= getNextPostTime safety st c rnd)%Z
  ∧ ∀ t, lastPostAt st = Some t → t ≠ 0%Z →
         (fadd (inject_Z (now c))
               (fsub (minWait safety) (inject_Z (now c - t)))
          < inject_Z (getNextPostTime safety st c rnd) + 1)%Q
         ∧ ∀ k : Z, (minIntervalMinutes safety == inject_Z k)%Q →
             (inject_Z t + minIntervalMinutes safety * 60 * 1000
              < inject_Z (getNextPostTime safety st c rnd) + 1)%Q.
Proof.
  intros Hjit. unfold getNextPostTime. cbv zeta.
  pose proof (calculateDelay_ge_base safety st c rnd None Hjit) as Hdelay.
  pose proof (baseDelay_nonneg safety st c) as Hbase.
  set (d := delayMs (calculateDelay safety st c rnd None)) in *.
  split.
  - apply toInteger_ge. unfold fadd. apply fl_ge_Z. lra.
  - intros t Ht Ht0.
    pose proof (minInterval_le_baseDelay safety st c t Ht Ht0) as Hrem.
    assert (Hgen : (fadd (inject_Z (now c))
                         (fsub (minWait safety) (inject_Z (now c - t)))
                    < inject_Z (toInteger (fadd (inject_Z (now c)) d)) + 1)%Q).
    { pose proof (toInteger_gt (fadd (inject_Z (now c)) d)) as Htrunc.
      assert (Hmono : (fadd (inject_Z (now c))
                            (fsub (minWait safety) (inject_Z (now c - t)))
                       <= fadd (inject_Z (now c)) d)%Q)
        by (unfold fadd; apply fl_mono; lra).
      lra. }
    split; [exact Hgen|]. intros k Hk.
    assert (Hend : (fadd (inject_Z (now c))
                         (fsub (minWait safety) (inject_Z (now c - t)))
                    == inject_Z t + minIntervalMinutes safety * 60 * 1000)%Q).
    { unfold minWait. rewrite (fmul_minutes _ k Hk), fsub_Z, fadd_Z, Hk.
      replace (now c + (k * 60000 - (now c - t)))%Z with (t + k * 60000)%Z
        by lia.
      rewrite inject_Z_plus, inject_Z_mult.
      change (inject_Z 60000) with 60000%Q. ring. }
    rewrite <- Hend. exact Hgen.
Qed.

(** Five minutes after a post under the default settings, the next safe
    time is not before now. *)
Lemma getNextPostTime_bounds_witness :
  (now (later noon (5 * minute))
   <= getNextPostTime (host := asciiHost) DEFAULT_SAFETY storeAfterHello
        (later noon (5 * minute)) (1 # 2))%Z.
Proof.
  refine (proj1 (getNextPostTime_bounds (H := asciiHost) DEFAULT_SAFETY
                   storeAfterHello (later noon (5 * minute)) (1 # 2) _)).
  right. split; vm_compute; discriminate.
Defined.

(** ** Delayed and forced posts *)

(** X13: a delayed result of [post] is never a success, tells a reason,
    schedules the post not before now and announces a delay of at least
    one minute, however short the computed delay is. *)
Theorem delayed_result_shape `{Host} (safety : SafetySettings)
    (st : StoreSchema) (c : Clock) (rnd : Q)
    (publish : TweetData -> PublishOutcome) (options : PostOptions)
    (result : PostResult) (st' : StoreSchema) :
  post safety st c rnd publish options = (Resolved result, st') →
  delayed result = Some true →
  force options = false
  ∧ success result = false
  ∧ (∃ m, delayMinutes result = Some m ∧ (1 <= m)%Z)
  ∧ (∃ t, scheduledFor result = Some t ∧ (now c <= t)%Z)
  ∧ (∃ r, blockReason result = Some (ReasonText r)).
Proof.
  intros Hpost Hdelayed.
  destruct (force options) eqn:Hforce.
  { rewrite post_forced in Hpost by assumption. unfold submit in Hpost.
    destruct (publish (tweetDataOf options)) as [tid|error].
    - injection Hpost as <- _. discriminate Hdelayed.
    - destruct (isRateLimitFailure error); [|discriminate Hpost].
      injection Hpost as <- _. discriminate Hdelayed. }
  rewrite post_unforced in Hpost by assumption. cbv zeta in Hpost.
  destruct (negb _).
  { injection Hpost as <- _. discriminate Hdelayed. }
  set (delay := calculateDelay safety (checkDailyReset st c) c rnd
                  (jitterMinutes options)) in *.
  destruct (Qltb 0 (delayMs delay)) eqn:Hpos.
  - injection Hpost as <- _. apply Qltb_lt in Hpos.
    split; [reflexivity|]. split; [reflexivity|]. split; [|split].
    + eexists. split; [reflexivity|]. unfold mathCeil.
      pose proof (Qle_ceiling (fdiv (delayMs delay) 60000)) as Hceil.
      assert (Hq : (0 < fdiv (delayMs delay) 60000)%Q).
      { unfold fdiv. apply fl_pos, Qlt_shift_div_l; lra. }
      assert (Hz : (inject_Z 0
                    < inject_Z (Qceiling (fdiv (delayMs delay) 60000)))%Q)
        by (change (inject_Z 0) with 0%Q; lra).
      rewrite <- Zlt_Qlt in Hz. lia.
    + eexists. split; [reflexivity|]. apply toInteger_ge.
      unfold fadd. apply fl_ge_Z. lra.
    + cbn [blockReason delayedResult].
      destruct (reason delay) as [r|] eqn:Hreason; [eauto|].
      apply calculateDelay_no_reason in Hreason. fold delay in Hreason. lra.
  - unfold submit in Hpost.
    destruct (publish (tweetDataOf options)) as [tid|error].
    + injection Hpost as <- _. discriminate Hdelayed.
    + destruct (isRateLimitFailure error); [|discriminate Hpost].
      injection Hpost as <- _. discriminate Hdelayed.
Qed.

(** A post at 23:30 under the default settings. *)
Lemma delayed_result_shape_witness :
  ∃ m, delayMinutes (delayedResult lateEvening
                       {| delayMs := 24300000;
                          reason := Some "Quiet hours"%string |}) = Some m
       ∧ (1 <= m)%Z.
Proof.
  refine (proj1 (proj2 (proj2 (delayed_result_shape (H := asciiHost)
            DEFAULT_SAFETY storeOfLastYear lateEvening (1 # 2)
            (accepting "2") (plainPost (lit "hi"))
            (delayedResult lateEvening
               {| delayMs := 24300000; reason := Some "Quiet hours"%string |})
            (checkDailyReset storeOfLastYear lateEvening) _ _)))).
  - vm_compute. reflexivity.
  - reflexivity.
Defined.

(** X14: with [force], a tweet that the Publisher accepts is published and
    recorded whatever the store holds: an exhausted rate limit, a reached
    daily limit, a duplicate, quiet hours or a recent post do not stop
    it, and no rollover check runs. *)
Theorem forced_post_is_published `{Host} (safety : SafetySettings)
    (st : StoreSchema) (c : Clock) (rnd : Q)
    (publish : TweetData -> PublishOutcome) (options : PostOptions)
    (tweetId : string) :
  force options = true →
  publish (tweetDataOf options) = Tweeted tweetId →
  post safety st c rnd publish options
  = (Resolved
       (postedResult tweetId
          (recordPost st c (text options) tweetId (mediaIds options))),
     recordPost st c (text options) tweetId (mediaIds options))
  ∧ {| h_id := tweetId; h_text := text options;
       h_hash := hashContent (text options); h_timestamp := now c;
       h_mediaIds := mediaIds options |}
    ∈ postHistory (post safety st c rnd publish options).2
  ∧ dailyPostDate (post safety st c rnd publish options).2 = dailyPostDate st.
Proof.
  intros Hforce Hpub.
  assert (Hpost : post safety st c rnd publish options
                  = (Resolved
                       (postedResult tweetId
                          (recordPost st c (text options) tweetId
                             (mediaIds options))),
                     recordPost st c (text options) tweetId
                       (mediaIds options))).
  { rewrite post_forced by assumption. unfold submit. rewrite Hpub.
    reflexivity. }
  rewrite Hpost. split; [reflexivity|]. split; [|reflexivity].
  apply recordPost_retention.
Qed.

(** The duplicate "hello " one minute after "Hello" is published when it is
    forced, and the history then holds two records. *)
Lemma forced_post_is_published_witness :
  length (postHistory
            (post (host := asciiHost) DEFAULT_SAFETY storeAfterHello
               (later noon minute) (1 # 2) (accepting "2")
               (forced (plainPost (lit "hello ")))).2) = 2%nat.
Proof.
  rewrite (proj1 (forced_post_is_published (H := asciiHost) DEFAULT_SAFETY
                    storeAfterHello (later noon minute) (1 # 2)
                    (accepting "2") (forced (plainPost (lit "hello ")))
                    "2" eq_refl eq_refl)).
  reflexivity.
Defined.

(** ** One call of [post] after another *)

Section Sequences.

Context {host : Host}.
Variable safety : SafetySettings.

(** The store after a published post. *)
Lemma post_published (st : StoreSchema) (c : Clock) (rnd : Q)
    (publish : TweetData -> PublishOutcome) (options : PostOptions)
    (tweetId : string) :
  reachesPublisher safety st c rnd options →
  publish (tweetDataOf options) = Tweeted tweetId →
  (post safety st c rnd publish options).2
  = recordPost (storeAtSubmission st c options) c (text options) tweetId
      (mediaIds options).
Proof.
  intros Hreach Hpub.
  rewrite (post_reaching_publisher safety st c rnd publish options Hreach).
  unfold submit. rewrite Hpub. reflexivity.
Qed.

(** An unforced call whose verdict is unsafe is blocked with the errors of
    the verdict; the Publisher is not consulted. *)
Lemma post_blocked (st : StoreSchema) (c : Clock) (rnd : Q)
    (publish : TweetData -> PublishOutcome) (options : PostOptions) :
  force options = false →
  safe (checkSafety safety st c (text options)).1 = false →
  post safety st c rnd publish options
  = (Resolved (blockedResult (errors (checkSafety safety st c (text options)).1)),
     checkDailyReset st c).
Proof.
  intros Hforce Hunsafe. rewrite post_unforced by assumption. cbv zeta.
  rewrite Hunsafe. reflexivity.
Qed.

End Sequences.

(** X15: right after a published post, an unforced post of a text with a
    safe verdict is not handed to the Publisher but delayed: as long as
    less than the minimum interval, [minWait] = [minIntervalMinutes * 60 *
    1000] as the code computes it, has passed since the first post, the
    result is a delayed one, with a delay of at least the rest of the
    interval, [minWait - timeSince] (jitter disabled, or random value and
    jitter minutes not negative); for a whole number of minutes the rest
    is the exact difference. *)
Theorem second_post_is_delayed `{Host} (safety : SafetySettings)
    (st : StoreSchema) (c : Clock) (rnd : Q)
    (publish : TweetData -> PublishOutcome) (options : PostOptions)
    (tweetId : string)
    (c' : Clock) (rnd' : Q) (publish' : TweetData -> PublishOutcome)
    (options' : PostOptions) :
  reachesPublisher safety st c rnd options →
  publish (tweetDataOf options) = Tweeted tweetId →
  now c ≠ 0%Z →
  force options' = false →
  safe (checkSafety safety (post safety st c rnd publish options).2 c'
          (text options')).1 = true →
  (inject_Z (now c' - now c) < minWait safety)%Q →
  enableJitter safety = false
  ∨ ((0 <= rnd')%Q ∧ (0 <= jitterMinutesOf safety (jitterMinutes options'))%Q) →
  ∃ delay,
    post safety (post safety st c rnd publish options).2 c' rnd' publish'
         options'
    = (Resolved (delayedResult c' delay),
       checkDailyReset (post safety st c rnd publish options).2 c')
    ∧ (fsub (minWait safety) (inject_Z (now c' - now c)) <= delayMs delay)%Q
    ∧ ∀ k : Z, (minIntervalMinutes safety == inject_Z k)%Q →
        (minIntervalMinutes safety * 60 * 1000 - inject_Z (now c' - now c)
         <= delayMs delay)%Q.
Proof.
  intros Hreach Hpub Hnow Hforce Hsafe Hrecent Hjit.
  rewrite (post_published safety st c rnd publish options tweetId Hreach Hpub)
    in *.
  set (st1 := recordPost (storeAtSubmission st c options) c (text options)
                tweetId (mediaIds options)) in *.
  assert (Hlast : lastPostAt (checkDailyReset st1 c') = Some (now c)).
  { rewrite checkDailyReset_lastPostAt. reflexivity. }
  set (delay := calculateDelay safety (checkDailyReset st1 c') c' rnd'
                  (jitterMinutes options')).
  assert (Hw : withinMinInterval safety (checkDailyReset st1 c') c' = true).
  { unfold withinMinInterval. rewrite Hlast.
    apply Z.eqb_neq in Hnow. rewrite Hnow. cbn [negb andb].
    apply Qltb_lt, Hrecent. }
  assert (Hmin : minIntervalRemaining safety (checkDailyReset st1 c') c'
                 = fsub (minWait safety) (inject_Z (now c' - now c))).
  { unfold minIntervalRemaining. rewrite Hlast, Hw. reflexivity. }
  pose proof (minIntervalRemaining_pos safety _ _ Hw) as Hpos.
  pose proof (baseDelay_ge_minInterval safety (checkDailyReset st1 c') c')
    as Hrem.
  rewrite Hmin in Hpos, Hrem.
  pose proof (calculateDelay_ge_base safety (checkDailyReset st1 c') c' rnd'
                (jitterMinutes options') Hjit) as Hdelay.
  fold delay in Hdelay.
  exists delay. split; [|split; [lra|]].
  - rewrite post_unforced by assumption. cbv zeta.
    rewrite Hsafe. cbn [negb]. fold delay.
    assert (Hlt : Qltb 0 (delayMs delay) = true) by (apply Qltb_lt; lra).
    rewrite Hlt. reflexivity.
  - intros k Hk.
    assert (Hexact : (fsub (minWait safety) (inject_Z (now c' - now c))
                      == minIntervalMinutes safety * 60 * 1000
                         - inject_Z (now c' - now c))%Q).
    { unfold minWait. rewrite (fmul_minutes _ k Hk), fsub_Z, Hk.
      unfold Z.sub at 1. rewrite inject_Z_plus, inject_Z_opp, inject_Z_mult.
      change (inject_Z 60000) with 60000%Q. ring. }
    rewrite <- Hexact. lra.
Qed.

(** "Hello" is published at noon; "Something else" five minutes later is
    delayed by at least 25 minutes. *)
Lemma second_post_is_delayed_witness :
  ∃ delay,
    post (host := asciiHost) DEFAULT_SAFETY
      (post (host := asciiHost) DEFAULT_SAFETY emptyStore noon (1 # 2)
         (accepting "1") (plainPost (lit "Hello"))).2
      (later noon (5 * minute)) (1 # 2) (accepting "2")
      (plainPost (lit "Something else"))
    = (Resolved (delayedResult (later noon (5 * minute)) delay),
       checkDailyReset
         (post (host := asciiHost) DEFAULT_SAFETY emptyStore noon (1 # 2)
            (accepting "1") (plainPost (lit "Hello"))).2
         (later noon (5 * minute)))
    ∧ (minIntervalMinutes DEFAULT_SAFETY * 60 * 1000
       - inject_Z (now (later noon (5 * minute)) - now noon)
       <= delayMs delay)%Q.
Proof.
  destruct (second_post_is_delayed (H := asciiHost) DEFAULT_SAFETY emptyStore
              noon (1 # 2) (accepting "1") (plainPost (lit "Hello")) "1"
              (later noon (5 * minute)) (1 # 2) (accepting "2")
              (plainPost (lit "Something else")))
    as (delay & Hpost & _ & Hwhole).
  - right. split; vm_compute; [reflexivity|discriminate].
  - reflexivity.
  - vm_compute. discriminate.
  - reflexivity.
  - vm_compute. reflexivity.
  - vm_compute. reflexivity.
  - right. split; vm_compute; discriminate.
  - exists delay. split; [exact Hpost|]. apply (Hwhole 30%Z). reflexivity.
Defined.

(** The minimum interval is the rounded product.  The double nearest to
    0.1 lies above 0.1, so that over the rationals [0.1 * 60 * 1000]
    exceeds 6000; the code computes 6000, and 6000 ms after the last post
    the minimum interval is over. *)
Example minimum_interval_is_the_rounded_product :
  (inject_Z 6000 < minIntervalMinutes everyTenthOfAMinute * 60 * 1000)%Q
  ∧ minWait everyTenthOfAMinute = 6000%Q
  ∧ withinMinInterval everyTenthOfAMinute
      (storeWithLastPost (now noon - 6000)) noon = false.
Proof. vm_compute. repeat split. Qed.

(** X16: once a rate-limit failure of the Publisher has been handled, every
    unforced call of [post] before the recorded reset instant is blocked
    with the rate-limit error among its reasons, without the Publisher
    being consulted, whatever the text. *)
Theorem rate_limited_then_blocked `{Host} (safety : SafetySettings)
    (st : StoreSchema) (c : Clock) (rnd : Q)
    (publish : TweetData -> PublishOutcome) (options : PostOptions)
    (error : PublishError)
    (c' : Clock) (rnd' : Q) (publish' : TweetData -> PublishOutcome)
    (options' : PostOptions) :
  reachesPublisher safety st c rnd options →
  publish (tweetDataOf options) = Failed error →
  isRateLimitFailure error = true →
  force options' = false →
  (now c' < resetInstant error c)%Z →
  ∃ es,
    post safety (post safety st c rnd publish options).2 c' rnd' publish'
         options'
    = (Resolved (blockedResult es),
       checkDailyReset (post safety st c rnd publish options).2 c')
    ∧ RateLimitExceeded (resetInstant error c) ∈ es.
Proof.
  intros Hreach Hfail Hrate Hforce Hbefore.
  assert (Hst1 : rateLimit (post safety st c rnd publish options).2
                 = Some {| remaining := 0; limit := limitOf error;
                           resetAt := resetInstant error c |}).
  { rewrite (post_reaching_publisher safety st c rnd publish options Hreach).
    unfold submit. rewrite Hfail, Hrate. reflexivity. }
  set (st1 := (post safety st c rnd publish options).2) in *.
  assert (Herr : RateLimitExceeded (resetInstant error c)
                 ∈ errors (checkSafety safety st1 c' (text options')).1).
  { rewrite checkSafety_errors. apply elem_of_app. left.
    unfold rateLimitErrors, rateLimitExhausted. rewrite Hst1.
    cbn [remaining resetAt].
    apply Z.ltb_lt in Hbefore. rewrite Hbefore. left. }
  exists (errors (checkSafety safety st1 c' (text options')).1).
  split; [|exact Herr].
  apply post_blocked; [assumption|].
  eapply checkSafety_unsafe, Herr.
Qed.

(** A 429 at noon with a reset ten minutes later; the next post five
    minutes later is blocked. *)
Lemma rate_limited_then_blocked_witness :
  ∃ es,
    post (host := asciiHost) DEFAULT_SAFETY
      (post (host := asciiHost) DEFAULT_SAFETY (storeWithCount 0) noon
         (1 # 2) (failing tooManyRequests) (plainPost (lit "hi"))).2
      (later noon (5 * minute)) (1 # 2) (accepting "2")
      (plainPost (lit "again"))
    = (Resolved (blockedResult es),
       checkDailyReset
         (post (host := asciiHost) DEFAULT_SAFETY (storeWithCount 0) noon
            (1 # 2) (failing tooManyRequests) (plainPost (lit "hi"))).2
         (later noon (5 * minute)))
    ∧ RateLimitExceeded (resetInstant tooManyRequests noon) ∈ es.
Proof.
  refine (rate_limited_then_blocked (H := asciiHost) DEFAULT_SAFETY
            (storeWithCount 0) noon (1 # 2) (failing tooManyRequests)
            (plainPost (lit "hi")) tooManyRequests
            (later noon (5 * minute)) (1 # 2) (accepting "2")
            (plainPost (lit "again")) _ _ _ _ _).
  - right. split; vm_compute; [reflexivity|discriminate].
  - reflexivity.
  - reflexivity.
  - reflexivity.
  - vm_compute. reflexivity.
Defined.

(** ** The daily count from one call to the next *)

(** X17: an unforced published post is counted on its UTC day: at any
    later instant of the same UTC day the daily count is the count that
    the safety evaluation saw plus one, and if that reaches
    [maxPostsPerDay], every unforced call of [post] on that day is blocked
    with the daily-limit error among its reasons. *)
Theorem same_day_post_is_counted `{Host} (safety : SafetySettings)
    (st : StoreSchema) (c : Clock) (rnd : Q)
    (publish : TweetData -> PublishOutcome) (options : PostOptions)
    (tweetId : string) (c' : Clock) :
  force options = false →
  reachesPublisher safety st c rnd options →
  publish (tweetDataOf options) = Tweeted tweetId →
  getTodayString c' = getTodayString c →
  dailyPostCount (checkDailyReset (post safety st c rnd publish options).2 c')
  = (dailyPostCount (checkDailyReset st c) + 1)%Z
  ∧ ((maxPostsPerDay safety
      <= inject_Z (dailyPostCount (checkDailyReset st c) + 1))%Q →
     ∀ rnd' publish' options', force options' = false →
       ∃ es,
         post safety (post safety st c rnd publish options).2 c' rnd'
              publish' options'
         = (Resolved (blockedResult es),
            checkDailyReset (post safety st c rnd publish options).2 c')
         ∧ DailyLimitReached (maxPostsPerDay safety) ∈ es).
Proof.
  intros Hforce Hreach Hpub Hday.
  destruct (post_unforced_daily safety st c rnd publish options tweetId
              Hforce Hreach Hpub) as [Hcount Hdate].
  set (st1 := (post safety st c rnd publish options).2) in *.
  assert (Hnext : dailyPostCount (checkDailyReset st1 c')
                  = (dailyPostCount (checkDailyReset st c) + 1)%Z).
  { rewrite !checkDailyReset_dailyPostCount, Hdate, Hday, Hcount.
    rewrite bool_decide_eq_true_2 by reflexivity. reflexivity. }
  split; [exact Hnext|].
  intros Hmax rnd' publish' options' Hforce'.
  assert (Herr : DailyLimitReached (maxPostsPerDay safety)
                 ∈ errors (checkSafety safety st1 c' (text options')).1).
  { rewrite checkSafety_errors. apply elem_of_app. right.
    apply elem_of_app. left. unfold dailyLimitErrors. rewrite Hnext.
    apply Qle_bool_iff in Hmax. rewrite Hmax. left. }
  exists (errors (checkSafety safety st1 c' (text options')).1).
  split; [|exact Herr].
  apply post_blocked; [assumption|]. eapply checkSafety_unsafe, Herr.
Qed.

(** Scenario 2: with at most one post a day, the first post of the day is
    published and the second, one hour later, is blocked. *)
Lemma same_day_post_is_counted_witness :
  ∃ es,
    post (host := asciiHost) onePerDay
      (post (host := asciiHost) onePerDay (storeWithCount 0) noon (1 # 2)
         (accepting "1") (plainPost (lit "first"))).2
      (later noon hour) (1 # 2) (accepting "2") (plainPost (lit "second"))
    = (Resolved (blockedResult es),
       checkDailyReset
         (post (host := asciiHost) onePerDay (storeWithCount 0) noon (1 # 2)
            (accepting "1") (plainPost (lit "first"))).2
         (later noon hour))
    ∧ DailyLimitReached (maxPostsPerDay onePerDay) ∈ es.
Proof.
  refine (proj2 (same_day_post_is_counted (H := asciiHost) onePerDay
                   (storeWithCount 0) noon (1 # 2) (accepting "1")
                   (plainPost (lit "first")) "1" (later noon hour) _ _ _ _)
            _ (1 # 2) (accepting "2") (plainPost (lit "second")) _).
  - reflexivity.
  - right. split; vm_compute; [reflexivity|discriminate].
  - reflexivity.
  - reflexivity.
  - vm_compute. discriminate.
  - reflexivity.
Defined.

(** X18: on a UTC day other than the stored one, the safety evaluation
    forgets the count: it leaves a count of zero on the new day, and with a
    positive [maxPostsPerDay] its verdict holds no daily-limit error,
    however many posts were counted before. *)
Theorem new_day_forgets_the_count `{Host} (safety : SafetySettings)
    (st : StoreSchema) (c : Clock) (text : jsstring) :
  dailyPostDate st ≠ Some (getTodayString c) →
  dailyPostCount (checkSafety safety st c text).2 = 0%Z
  ∧ dailyPostDate (checkSafety safety st c text).2 = Some (getTodayString c)
  ∧ ((0 < maxPostsPerDay safety)%Q →
     ∀ m, DailyLimitReached m ∉ errors (checkSafety safety st c text).1).
Proof.
  intros Hday. rewrite checkSafety_store.
  rewrite checkDailyReset_dailyPostCount, checkDailyReset_dailyPostDate.
  rewrite bool_decide_eq_false_2 by assumption.
  split; [reflexivity|]. split; [reflexivity|].
  intros Hmax m Hin. rewrite checkSafety_errors in Hin.
  rewrite checkDailyReset_dailyPostCount in Hin.
  rewrite bool_decide_eq_false_2 in Hin by assumption.
  unfold rateLimitErrors, dailyLimitErrors, duplicateErrors, hashtagErrors
    in Hin.
  assert (Hno : Qle_bool (maxPostsPerDay safety) (inject_Z 0) = false)
    by (apply Qle_bool_false; exact Hmax).
  rewrite Hno in Hin. elem_of_rules Hin.
Qed.

(** Eight posts were counted on 1 January; on 2 January the count is
    zero. *)
Lemma new_day_forgets_the_count_witness :
  dailyPostCount (checkSafety (host := asciiHost) DEFAULT_SAFETY
                    (storeWithCount 8) (later noon day) (lit "hi")).2 = 0%Z.
Proof.
  refine (proj1 (new_day_forgets_the_count (H := asciiHost) DEFAULT_SAFETY
                   (storeWithCount 8) (later noon day) (lit "hi") _)).
  vm_compute. discriminate.
Defined.

(** ** What a published post writes *)

(** X19: a published post rewrites the history as the old records and the
    new one, without those that are 30 days old or older (whether or not
    they resemble the new text), and sets the last-post instant to now. *)
Theorem published_post_prunes_history `{Host} (safety : SafetySettings)
    (st : StoreSchema) (c : Clock) (rnd : Q)
    (publish : TweetData -> PublishOutcome) (options : PostOptions)
    (tweetId : string) :
  reachesPublisher safety st c rnd options →
  publish (tweetDataOf options) = Tweeted tweetId →
  (∀ h, h ∈ postHistory (post safety st c rnd publish options).2
        ↔ (h ∈ postHistory st
           ∨ h = {| h_id := tweetId; h_text := text options;
                    h_hash := hashContent (text options);
                    h_timestamp := now c;
                    h_mediaIds := mediaIds options |})
          ∧ (now c - h_timestamp h < 30 * day)%Z)
  ∧ lastPostAt (post safety st c rnd publish options).2 = Some (now c).
Proof.
  intros Hreach Hpub.
  rewrite (post_published safety st c rnd publish options tweetId Hreach Hpub).
  split; [|reflexivity].
  intros h. rewrite elem_of_recordPost.
  assert (Hhist : postHistory (storeAtSubmission st c options)
                  = postHistory st).
  { unfold storeAtSubmission. destruct (force options); [reflexivity|].
    apply checkDailyReset_postHistory. }
  rewrite Hhist. unfold day. split; intros [Hin Hage]; (split; [exact Hin|lia]).
Qed.

(** After "Hello" was published at noon, a post 31 days later leaves only
    its own record. *)
Lemma published_post_prunes_history_witness :
  length (postHistory
            (post (host := asciiHost) DEFAULT_SAFETY storeAfterHello
               (later noon (31 * day)) (1 # 2) (accepting "2")
               (plainPost (lit "Back again"))).2) = 1%nat
  ∧ lastPostAt (post (host := asciiHost) DEFAULT_SAFETY storeAfterHello
                  (later noon (31 * day)) (1 # 2) (accepting "2")
                  (plainPost (lit "Back again"))).2
    = Some (now (later noon (31 * day))).
Proof.
  split; [reflexivity|].
  refine (proj2 (published_post_prunes_history (H := asciiHost)
                   DEFAULT_SAFETY storeAfterHello (later noon (31 * day))
                   (1 # 2) (accepting "2") (plainPost (lit "Back again"))
                   "2" _ _)).
  - right. split; vm_compute; [reflexivity|discriminate].
  - reflexivity.
Defined.

(** X20: every public method keeps the history consistent: if each record
    carries the content hash of its own text, then so it is after [post],
    [postAndWait], [checkSafety], [getStats], [clearHistory] and
    [resetDailyCount], however the call ends. *)
Theorem history_hashes_are_kept `{Host} (safety : SafetySettings)
    (st : StoreSchema) (c c' : Clock) (rnd rnd' : Q)
    (publish : TweetData -> PublishOutcome) (options : PostOptions) :
  historyHashed st →
  historyHashed (post safety st c rnd publish options).2
  ∧ historyHashed (postAndWait safety st c rnd c' rnd' publish options).2
  ∧ historyHashed (checkSafety safety st c (text options)).2
  ∧ historyHashed (getStats safety st c rnd).2
  ∧ historyHashed (clearHistory st)
  ∧ historyHashed (resetDailyCount st c).
Proof.
  intros Hst.
  pose proof (post_hashed safety st c rnd publish options Hst) as Hpost.
  split; [exact Hpost|]. split; [|split; [|split; [|split]]].
  - unfold postAndWait.
    destruct (post safety st c rnd publish options) as [outcome st1].
    cbn [snd] in Hpost.
    destruct outcome as [[? ? [t|] [[|]|] ? ? ? ? ?]|]; try exact Hpost.
    destruct (0 <? _)%Z; [|exact Hpost].
    apply post_hashed, Hpost.
  - apply checkDailyReset_hashed, Hst.
  - apply checkDailyReset_hashed, Hst.
  - intros h Hh. by apply elem_of_nil in Hh.
  - exact Hst.
Qed.

(** The store after two posts through the default settings. *)
Lemma history_hashes_are_kept_witness :
  historyHashed (host := asciiHost) storeAfterTwoPosts.
Proof.
  refine (proj1 (history_hashes_are_kept (H := asciiHost) DEFAULT_SAFETY
                   (post (host := asciiHost) DEFAULT_SAFETY emptyStore noon
                      (1 # 2) (accepting "1")
                      (plainPost (lit "a b c d e f"))).2
                   (later noon hour) noon (1 # 2) (1 # 2) (accepting "2")
                   (plainPost (lit "a b c d e f g")) _)).
  intros h Hh. vm_compute in Hh. apply list_elem_of_singleton in Hh.
  subst h. vm_compute. reflexivity.
Defined.

(** ** Clearing, and evaluating twice *)

(** X21: [clearHistory] followed by [resetDailyCount] (the command
    [clear --all]) removes what the duplicate, near-duplicate and
    daily-limit rules look at, but neither the last-post instant nor the
    rate-limit state: after it no verdict holds a duplicate error or a
    near-duplicate warning and the count is zero, while [calculateDelay]
    returns what it returned before and an exhausted rate limit still
    makes every verdict unsafe. *)
Theorem clearing_keeps_delay_and_rate_limit `{Host} (safety : SafetySettings)
    (st : StoreSchema) (c : Clock) (rnd : Q) (cj : option Q)
    (text : jsstring) :
  (∀ posted,
     DuplicateContent posted
     ∉ errors (checkSafety safety (resetDailyCount (clearHistory st) c) c
                 text).1)
  ∧ (∀ p,
       VerySimilar p
       ∉ warnings (checkSafety safety (resetDailyCount (clearHistory st) c) c
                     text).1)
  ∧ dailyPostCount
      (checkSafety safety (resetDailyCount (clearHistory st) c) c text).2
    = 0%Z
  ∧ calculateDelay safety (resetDailyCount (clearHistory st) c) c rnd cj
    = calculateDelay safety st c rnd cj
  ∧ (rateLimitExhausted st c = true →
     safe (checkSafety safety (resetDailyCount (clearHistory st) c) c
             text).1 = false).
Proof.
  set (st' := resetDailyCount (clearHistory st) c).
  split; [|split; [|split; [|split]]].
  - intros posted Hin. rewrite checkSafety_errors in Hin.
    unfold rateLimitErrors, dailyLimitErrors, duplicateErrors, hashtagErrors
      in Hin.
    change (postHistory st') with (@nil PostHistory) in Hin.
    cbn [findDuplicate List.find] in Hin. elem_of_rules Hin.
  - intros p Hin. rewrite checkSafety_warnings in Hin.
    unfold dailyLimitWarnings, quietHoursWarnings, similarWarnings,
      reportedSimilar, hashtagWarnings, shortenerWarnings, mentionWarnings,
      intervalWarnings in Hin.
    change (postHistory st') with (@nil PostHistory) in Hin.
    cbn [findSimilar List.find] in Hin. elem_of_rules Hin.
  - rewrite checkSafety_store, checkDailyReset_dailyPostCount.
    destruct (bool_decide _); reflexivity.
  - reflexivity.
  - intros Hex.
    assert (Hin : ∃ e, e ∈ errors (checkSafety safety st' c text).1).
    { rewrite checkSafety_errors. unfold rateLimitErrors.
      change (rateLimitExhausted st' c) with (rateLimitExhausted st c).
      change (rateLimit st') with (rateLimit st).
      rewrite Hex. unfold rateLimitExhausted in Hex.
      destruct (rateLimit st) as [rl|]; [|discriminate].
      eexists. apply elem_of_app. left. left. }
    destruct Hin as [e He]. eapply checkSafety_unsafe, He.
Qed.

(** After "Hello" was posted and everything was cleared one minute later,
    "hello" is no duplicate any more, but the rate limit still counts. *)
Lemma clearing_keeps_delay_and_rate_limit_witness :
  errors (checkSafety (host := asciiHost) DEFAULT_SAFETY
            (resetDailyCount (clearHistory storeAfterHello)
               (later noon minute))
            (later noon minute) (lit "hello")).1 = []
  ∧ safe (checkSafety (host := asciiHost) DEFAULT_SAFETY
            (resetDailyCount (clearHistory exhaustedStore) noon) noon
            (lit "hello")).1 = false.
Proof.
  split; [reflexivity|].
  refine (proj2 (proj2 (proj2 (proj2
            (clearing_keeps_delay_and_rate_limit (H := asciiHost)
               DEFAULT_SAFETY exhaustedStore noon (1 # 2) None
               (lit "hello"))))) _).
  reflexivity.
Defined.

(** X22: [checkSafety] writes nothing but the rollover, and the rollover
    is idempotent: an evaluation (a dry run) does not change what any
    evaluation at the same instant returns, nor the delay computed at any
    instant. *)
Theorem checkSafety_is_repeatable `{Host} (safety : SafetySettings)
    (st : StoreSchema) (c : Clock) (text text' : jsstring) :
  checkSafety safety (checkSafety safety st c text).2 c text'
  = checkSafety safety st c text'
  ∧ ∀ c' rnd cj,
      calculateDelay safety (checkSafety safety st c text).2 c' rnd cj
      = calculateDelay safety st c' rnd cj.
Proof.
  rewrite checkSafety_store. split.
  - unfold checkSafety.
    rewrite checkDailyReset_idem, checkDailyReset_rateLimit. reflexivity.
  - intros c' rnd cj. unfold calculateDelay, rateLimitExhausted,
      withinMinInterval.
    rewrite checkDailyReset_rateLimit, checkDailyReset_lastPostAt.
    reflexivity.
Qed.

(** ** Warnings and delays *)

Lemma postedRecently_iff `{Host} (safety : SafetySettings)
    (st : StoreSchema) (c : Clock) (text : jsstring) :
  (∃ m w, PostedRecently m w ∈ warnings (checkSafety safety st c text).1)
  ↔ ∃ t, lastPostAt st = Some t ∧ t ≠ 0%Z
         ∧ (fdiv (inject_Z (now c - t)) 60000 < minIntervalMinutes safety)%Q.
Proof.
  rewrite checkSafety_warnings. split.
  - intros (m & w & Hin).
    unfold dailyLimitWarnings, quietHoursWarnings, similarWarnings,
      hashtagWarnings, shortenerWarnings, mentionWarnings in Hin.
    do 6 (apply elem_of_app in Hin as [Hin|Hin]; [elem_of_rules Hin|]).
    unfold intervalWarnings in Hin.
    destruct (lastPostAt st) as [t|]; [|by apply elem_of_nil in Hin].
    destruct (negb (t =? 0)%Z) eqn:Ht; [|by apply elem_of_nil in Hin].
    cbv zeta in Hin.
    destruct (Qltb _ _) eqn:Hlt; [|by apply elem_of_nil in Hin].
    apply Qltb_lt in Hlt. apply negb_true_iff, Z.eqb_neq in Ht. eauto.
  - intros (t & Ht & Ht0 & Hlt). unfold intervalWarnings. rewrite Ht.
    apply Z.eqb_neq in Ht0. rewrite Ht0. cbn [negb]. cbv zeta.
    apply Qltb_lt in Hlt. rewrite Hlt.
    do 2 eexists. do 6 (apply elem_of_app; right). left.
Qed.

(** X23: the advisory warnings of [checkSafety] about timing and the
    delay of [calculateDelay].  The quiet-hours warning is given exactly
    when the quiet hours are enabled and active, and then [calculateDelay]
    names a reason.  The posted-recently warning is given when the age of
    the last post in minutes, [timeSince / 60000], lies below
    [minIntervalMinutes], while [calculateDelay] compares [timeSince] with
    [minIntervalMinutes * 60 * 1000]; for a whole number of minutes (below
    2^36) the two tests agree, so that the warning is given exactly when
    the minimum interval delays the post. *)
Theorem timing_warnings_announce_delay `{Host} (safety : SafetySettings)
    (st : StoreSchema) (c : Clock) (rnd : Q) (cj : option Q)
    (text : jsstring) :
  (InQuietHours ∈ warnings (checkSafety safety st c text).1
   ↔ enableQuietHours safety && isQuietHours safety c = true)
  ∧ (InQuietHours ∈ warnings (checkSafety safety st c text).1
     → ∃ r, reason (calculateDelay safety st c rnd cj) = Some r)
  ∧ ∀ k : Z, (minIntervalMinutes safety == inject_Z k)%Q →
             (Z.abs k < 2 ^ 36)%Z →
      ((∃ m w, PostedRecently m w
               ∈ warnings (checkSafety safety st c text).1)
       ↔ withinMinInterval safety st c = true)
      ∧ ((∃ m w, PostedRecently m w
                 ∈ warnings (checkSafety safety st c text).1)
         → ∃ r, reason (calculateDelay safety st c rnd cj) = Some r).
Proof.
  assert (Hquiet : InQuietHours ∈ warnings (checkSafety safety st c text).1
                   ↔ enableQuietHours safety && isQuietHours safety c = true).
  { rewrite checkSafety_warnings. split.
    - intros Hin.
      unfold dailyLimitWarnings, similarWarnings, hashtagWarnings,
        shortenerWarnings, mentionWarnings, intervalWarnings in Hin.
      apply elem_of_app in Hin as [Hin|Hin]; [elem_of_rules Hin|].
      apply elem_of_app in Hin as [Hin|Hin]; [|elem_of_rules Hin].
      unfold quietHoursWarnings in Hin.
      destruct (enableQuietHours safety && isQuietHours safety c);
        [reflexivity|by apply elem_of_nil in Hin].
    - intros Hq. apply elem_of_app. right. apply elem_of_app. left.
      unfold quietHoursWarnings. rewrite Hq. left. }
  split; [exact Hquiet|]. split.
  { rewrite Hquiet, calculateDelay_reason. intros Hq. rewrite Hq.
    destruct (rateLimitExhausted st c), (withinMinInterval safety st c);
      eauto. }
  intros k Hk Hrange.
  assert (Hrecent : (∃ m w, PostedRecently m w
                            ∈ warnings (checkSafety safety st c text).1)
                    ↔ withinMinInterval safety st c = true).
  { rewrite postedRecently_iff. unfold withinMinInterval, minWait.
    assert (Htest : ∀ t,
              (fdiv (inject_Z (now c - t)) 60000 < minIntervalMinutes safety)%Q
              ↔ Qltb (inject_Z (now c - t))
                     (fmul (fmul (minIntervalMinutes safety) 60) 1000) = true).
    { intros t. rewrite Qltb_lt, (fmul_minutes _ k Hk), Hk, <- Zlt_Qlt.
      apply fdiv_minutes_lt, Hrange. }
    split.
    - intros (t & -> & Ht0 & Hlt). apply Z.eqb_neq in Ht0.
      rewrite Ht0. cbn [negb andb]. apply Htest, Hlt.
    - destruct (lastPostAt st) as [t|]; [|discriminate].
      intros Hw. apply andb_true_iff in Hw as [Ht0 Hlt].
      apply negb_true_iff, Z.eqb_neq in Ht0.
      exists t. split; [reflexivity|]. split; [exact Ht0|].
      apply Htest, Hlt. }
  split; [exact Hrecent|].
  rewrite Hrecent, calculateDelay_reason. intros Hw. rewrite Hw.
  destruct (rateLimitExhausted st c); eauto.
Qed.

(** At 23:30 on the default settings the verdict warns of the quiet hours
    and [calculateDelay] gives them as its reason. *)
Lemma timing_warnings_announce_delay_witness :
  ∃ r, reason (calculateDelay (host := asciiHost) DEFAULT_SAFETY
                 storeOfLastYear lateEvening (1 # 2) None) = Some r.
Proof.
  refine (proj1 (proj2 (timing_warnings_announce_delay (H := asciiHost)
                          DEFAULT_SAFETY storeOfLastYear lateEvening (1 # 2)
                          None (lit "hi"))) _).
  vm_compute. left.
Defined.

(** For a fractional number of minutes the two tests can disagree.  With
    [minIntervalMinutes: 8.3] and a last post 498000 ms old, the age in
    minutes is 8.3 and the verdict does not warn, while the minimum
    interval in milliseconds is a little more than 498000 and
    [calculateDelay] delays the post for that reason. *)
Example timing_warning_and_delay_disagree :
  warnings (checkSafety (host := asciiHost) everyEightPointThree
              (storeWithLastPost (now noon - 498000)) noon (lit "hi")).1 = []
  ∧ reason (calculateDelay (host := asciiHost) everyEightPointThree
              (storeWithLastPost (now noon - 498000)) noon (1 # 2) None)
    = Some "Minimum interval"%string
  ∧ (0 < delayMs (calculateDelay (host := asciiHost) everyEightPointThree
                    (storeWithLastPost (now noon - 498000)) noon (1 # 2)
                    None))%Q.
Proof. vm_compute. repeat split. Qed.

(** ** [checkShadowban] *)

(** X24: [checkShadowban] reports that a shadowban is not likely exactly
    when the account data came back and the timeline call returned at
    least one tweet; a thrown call, missing account data or an empty
    timeline all make it likely.  It returns one or two checks, and the
    shadowban is likely exactly when one of them has not passed. *)
Theorem checkShadowban_verdict (me : Awaited (option UserData))
    (userTimeline : string -> Awaited (option nat)) :
  (likely (checkShadowban me userTimeline) = false
   ↔ ∃ u n, me = Fulfilled (Some u)
            ∧ userTimeline (user_id u) = Fulfilled (Some n) ∧ (0 < n)%nat)
  ∧ (1 <= length (checks (checkShadowban me userTimeline)) <= 2)%nat
  ∧ (likely (checkShadowban me userTimeline) = true
     ↔ ∃ k, k ∈ checks (checkShadowban me userTimeline) ∧ passed k = false).
Proof.
  unfold checkShadowban.
  destruct me as [[u|]|message]; simpl.
  - destruct (userTimeline (user_id u)) as [[[|n]|]|message] eqn:Htl; simpl.
    + split; [|split; [lia|]].
      * split; [discriminate|].
        intros (u' & n & [= <-] & Hn & Hpos). rewrite Htl in Hn.
        injection Hn as <-. lia.
      * split; [|reflexivity]. intros _. eexists. split; [right; left|].
        reflexivity.
    + split; [|split; [lia|]].
      * split; [|reflexivity]. intros _. exists u, (S n).
        split; [reflexivity|]. split; [exact Htl|lia].
      * split; [discriminate|].
        intros (k & Hk & Hfail).
        rewrite !elem_of_cons, elem_of_nil in Hk.
        destruct Hk as [->|[->|[]]]; discriminate Hfail.
    + split; [|split; [lia|]].
      * split; [discriminate|].
        intros (u' & n & [= <-] & Hn & Hpos). rewrite Htl in Hn.
        discriminate Hn.
      * split; [|reflexivity]. intros _. eexists. split; [right; left|].
        reflexivity.
    + split; [|split; [lia|]].
      * split; [discriminate|].
        intros (u' & n & [= <-] & Hn & Hpos). rewrite Htl in Hn.
        discriminate Hn.
      * split; [|reflexivity]. intros _. eexists. split; [right; left|].
        reflexivity.
  - split; [|split; [lia|]].
    + split; [discriminate|]. intros (u' & n & [=] & _).
    + split; [|reflexivity]. intros _. eexists. split; [left|]. reflexivity.
  - split; [|split; [lia|]].
    + split; [discriminate|]. intros (u' & n & [=] & _).
    + split; [|reflexivity]. intros _. eexists. split; [left|]. reflexivity.
Qed.

(** ** [postAndWait] *)

(** X25: [postAndWait] returns what [post] returns unless that is a delayed
    result; after a delay of at least one millisecond it goes to the
    Publisher with [force], on the store that the first call left and
    without a second safety evaluation or rollover check, so it never
    returns a delayed result then. *)
Theorem postAndWait_forces_after_delay `{Host} (safety : SafetySettings)
    (st : StoreSchema) (c : Clock) (rnd : Q) (c' : Clock) (rnd' : Q)
    (publish : TweetData -> PublishOutcome) (options : PostOptions) :
  (isDelayed (post safety st c rnd publish options).1 = false →
   postAndWait safety st c rnd c' rnd' publish options
   = post safety st c rnd publish options)
  ∧ (force options = false →
     safe (checkSafety safety st c (text options)).1 = true →
     (1 <= delayMs (calculateDelay safety (checkDailyReset st c) c rnd
                      (jitterMinutes options)))%Q →
     postAndWait safety st c rnd c' rnd' publish options
     = submit (checkDailyReset st c) c' publish (forced options)
     ∧ isDelayed (postAndWait safety st c rnd c' rnd' publish options).1
       = false).
Proof.
  split.
  - unfold postAndWait.
    destruct (post safety st c rnd publish options) as [outcome st1].
    cbn [fst]. intros Hnot.
    destruct outcome as [[? ? [t|] [[|]|] ? ? ? ? ?]|];
      try reflexivity; discriminate Hnot.
  - intros Hforce Hsafe Hdelay.
    assert (Hpost : post safety st c rnd publish options
                    = (Resolved
                         (delayedResult c
                            (calculateDelay safety (checkDailyReset st c) c
                               rnd (jitterMinutes options))),
                       checkDailyReset st c)).
    { rewrite post_unforced by assumption. cbv zeta. rewrite Hsafe.
      cbn [negb].
      assert (Hpos : Qltb 0 (delayMs (calculateDelay safety
                                        (checkDailyReset st c) c rnd
                                        (jitterMinutes options))) = true)
        by (apply Qltb_lt; lra).
      rewrite Hpos. reflexivity. }
    assert (Hsubmit : postAndWait safety st c rnd c' rnd' publish options
                      = submit (checkDailyReset st c) c' publish
                          (forced options)).
    { unfold postAndWait. rewrite Hpost. cbn [delayedResult].
      set (d := delayMs _) in *.
      assert (Hwait : (0 <? toInteger (fadd (inject_Z (now c)) d) - now c)%Z
                      = true).
      { apply Z.ltb_lt.
        assert (Hge : (now c + 1 <= toInteger (fadd (inject_Z (now c)) d))%Z).
        { apply toInteger_ge. unfold fadd. apply fl_ge_Z.
          rewrite inject_Z_plus. change (inject_Z 1) with 1%Q. lra. }
        lia. }
      rewrite Hwait. apply post_forced. reflexivity. }
    split; [exact Hsubmit|]. rewrite Hsubmit. unfold submit.
    destruct (publish (tweetDataOf (forced options))) as [tid|error];
      [reflexivity|].
    destruct (isRateLimitFailure error); reflexivity.
Qed.

(** The post of 23:30 is published at 06:15, after the quiet hours. *)
Lemma postAndWait_forces_after_delay_witness :
  postAndWait (host := asciiHost) DEFAULT_SAFETY storeOfLastYear lateEvening
    (1 # 2) nextMorning (1 # 2) (accepting "9") (plainPost (lit "hi"))
  = submit (host := asciiHost) (checkDailyReset storeOfLastYear lateEvening)
      nextMorning (accepting "9") (forced (plainPost (lit "hi"))).
Proof.
  refine (proj1 (proj2 (postAndWait_forces_after_delay (H := asciiHost)
                          DEFAULT_SAFETY storeOfLastYear lateEvening (1 # 2)
                          nextMorning (1 # 2) (accepting "9")
                          (plainPost (lit "hi"))) _ _ _)).
  - reflexivity.
  - vm_compute. reflexivity.
  - vm_compute. discriminate.
Defined.

(** ** The settings in force and the settings shown *)

(** X26: the constructor keeps every given setting, a zero included, and
    fills the absent ones with the defaults; [config --show] prints a
    given number unless it is zero or absent, in which case it prints the
    default.  So the two agree except on a saved zero: with
    [quietHoursEnd: 0] saved, the engine ends the quiet hours at midnight
    and the command shows 6. *)
Theorem shown_settings_and_settings_in_force (saved : PartialSettings) :
  (∀ x, given_quietHoursEnd saved = Some x →
        quietHoursEnd (mergeSafety (Some saved)) = x
        ∧ (¬ (x == 0)%Q → shownQuietEnd (showSafety (Some saved)) = x)
        ∧ ((x == 0)%Q → shownQuietEnd (showSafety (Some saved)) = 6%Q))
  ∧ (∀ x, given_quietHoursStart saved = Some x →
          quietHoursStart (mergeSafety (Some saved)) = x
          ∧ (¬ (x == 0)%Q → shownQuietStart (showSafety (Some saved)) = x)
          ∧ ((x == 0)%Q → shownQuietStart (showSafety (Some saved)) = 23%Q))
  ∧ (∀ x, given_maxPostsPerDay saved = Some x →
          maxPostsPerDay (mergeSafety (Some saved)) = x
          ∧ (¬ (x == 0)%Q → shownMaxDaily (showSafety (Some saved)) = x)
          ∧ ((x == 0)%Q → shownMaxDaily (showSafety (Some saved)) = 8%Q))
  ∧ (∀ x, given_minIntervalMinutes saved = Some x →
          minIntervalMinutes (mergeSafety (Some saved)) = x
          ∧ (¬ (x == 0)%Q → shownMinInterval (showSafety (Some saved)) = x)
          ∧ ((x == 0)%Q → shownMinInterval (showSafety (Some saved)) = 30%Q))
  ∧ shownJitterEnabled (showSafety (Some saved))
    = enableJitter (mergeSafety (Some saved))
  ∧ mergeSafety None = DEFAULT_SAFETY
  ∧ mergeSafety (Some noSettings) = DEFAULT_SAFETY.
Proof.
  unfold mergeSafety, showSafety. cbn [orElse].
  repeat match goal with
         | |- (∀ x, _) ∧ _ => split
         end.
  - intros x Hx. cbn. rewrite Hx. cbn [orElse]. split; [reflexivity|].
    unfold orNumber. destruct (Qeq_bool x 0) eqn:Hb.
    + apply Qeq_bool_iff in Hb. split; [tauto|reflexivity].
    + split; [reflexivity|]. intros Hz. apply Qeq_bool_iff in Hz. congruence.
  - intros x Hx. cbn. rewrite Hx. cbn [orElse]. split; [reflexivity|].
    unfold orNumber. destruct (Qeq_bool x 0) eqn:Hb.
    + apply Qeq_bool_iff in Hb. split; [tauto|reflexivity].
    + split; [reflexivity|]. intros Hz. apply Qeq_bool_iff in Hz. congruence.
  - intros x Hx. cbn. rewrite Hx. cbn [orElse]. split; [reflexivity|].
    unfold orNumber. destruct (Qeq_bool x 0) eqn:Hb.
    + apply Qeq_bool_iff in Hb. split; [tauto|reflexivity].
    + split; [reflexivity|]. intros Hz. apply Qeq_bool_iff in Hz. congruence.
  - intros x Hx. cbn. rewrite Hx. cbn [orElse]. split; [reflexivity|].
    unfold orNumber. destruct (Qeq_bool x 0) eqn:Hb.
    + apply Qeq_bool_iff in Hb. split; [tauto|reflexivity].
    + split; [reflexivity|]. intros Hz. apply Qeq_bool_iff in Hz. congruence.
  - split; [|split; reflexivity]. cbn.
    destruct (given_enableJitter saved) as [[|]|]; reflexivity.
Qed.

(** Quiet hours saved as 22 to 0: the engine is quiet at 23:30 and no
    longer at 00:30, while [config --show] prints "22:00 - 6:00". *)
Lemma shown_settings_and_settings_in_force_witness :
  quietHoursEnd (mergeSafety (Some quietUntilMidnight)) = 0%Q
  ∧ shownQuietEnd (showSafety (Some quietUntilMidnight)) = 6%Q
  ∧ isQuietHours (mergeSafety (Some quietUntilMidnight)) lateEvening = true
  ∧ isQuietHours (mergeSafety (Some quietUntilMidnight))
      (later lateEvening hour) = false.
Proof.
  destruct (proj1 (shown_settings_and_settings_in_force quietUntilMidnight)
              0%Q eq_refl) as (Hforce & _ & Hshown).
  split; [exact Hforce|]. split; [apply Hshown; reflexivity|].
  split; reflexivity.
Defined.
